(* ===== verification/_CoqProject ===== *)
-Q . S2P
Spec2Rocq.v
JsValue.v
JsonStringify.v
JsonParse.v
Zod.v
Media.v
Kiosk.v
Announcement.v
SchemaModel.v
SensorData.v
SensorRuns.v
SensorTasks.v
TokenRegex.v
Highlight.v
StringReplace.v
HighlightJson.v
HighlightRoundtrip.v
HighlightSpans.v
KioskDisplay.v
