(* ===== verification/Spec2Rocq.v ===== *)
(** * Verification of the kiosk front-end data layer

    The repository (src/src/lib) is the data layer of a kiosk front end,
    in TypeScript.  It has three parts, which do not call one another:

    - the schemas (types/media.ts, types/kiosk.ts, types/announcement.ts):
      zod validators that turn untyped payloads from the backend into
      typed values, a kiosk owning media, conversations of messages and
      two backend URLs;
    - the sensor synthesizer (types/sensorData.ts,
      utils/generateSensorData.ts): one reading with the clock's time
      and six integers from faker.number.int;
    - the JSON highlighter (utils/highlight.ts): [highlight] serializes
      a value with JSON.stringify and [syntaxHighlight] escapes the text
      and wraps every token in a span through a global regex replace.

    The library calls (zod, faker, JSON.stringify, IEEE doubles) are
    modelled from their documented semantics; the code under src/ is
    translated line by line.

    ** Files

    - [Spec2Rocq] (this file): text as [list ascii] (8-bit code units of
      UTF-16), the notation [=c] in [kiosk_scope], character classes,
      the tactics [inv], [app_norm], [ascii_cases], [case_if] and the
      hint databases [kiosk] and [kiosk_rw], list lemmas shared by all.
    - [JsValue]: JavaScript values ([jsval], [number] with NaN and the
      infinities, [get] for a property read) and [completion] for code
      that throws.
    - [JsonStringify]: JSON.stringify with a 4-space gap, parameterised
      by a [NumberFormat] class for Number::toString (an instance for
      integers is given) and by a token wrapper, so that the plain
      serializer and the highlighted one are the same function.
    - [JsonParse]: JSON.parse, which the sources do not call but the
      specification's reparse round trip uses.  It is a mutual
      recursive-descent parser with fuel, whose result [presult]
      separates running out of fuel from a syntax error.  Objects are
      built by CreateDataProperty ([obj_set]: array-index keys in
      ascending order, other keys in insertion order, a repeated key
      updated in place).  The module also holds the proofs that fuel
      [2|s|+1] is enough, that every result has well-formed objects
      ([objects_wf]), and that the parser reads back what the
      serializer writes.
    - [Zod]: the zod 4 combinators the schemas use, as validators from
      [jsval] to a result with a list of issues with paths; fields are
      combined applicatively ([<*>] in [zod_scope]) so that every
      failing field is reported; [z.url()] is a [UrlParser] class.
      The classes [Schema] (parse, encode, valid) and [SchemaLaws]
      (parse is sound, encode then parse is the identity on valid
      values) are the interface between a schema and the schemas that
      contain it.
    - [Media], [Kiosk] (Modules [Message], [Conversation], [Kiosk]),
      [Announcement]: one Definition per schema of the source, its
      Record, and its [Schema] and [SchemaLaws] instances; [KioskSchema]
      is proved against the laws of the schemas it contains only.
    - [SchemaModel]: the data model of the specification as relations
      between a payload and the value it stands for ([kiosk_rep],
      [announcement_rep], ...).  Each schema accepts a payload exactly
      when the payload stands for the output; the tactic [schema_iff]
      proves this for each object schema from the lemmas of its fields.
    - [SensorData]: IEEE binary64 rounding on multiples of 2^-53
      ([Double]), faker's number.int over a [Randomizer] class with a
      small state-and-error monad ([Faker]), and [generateSensorData]
      as state passing over the clock and the randomizer state.
    - [SensorRuns]: repeated calls as runs of events ([Tick] moves the
      clock, [Call] is one call of [generateSensorData]) threaded
      through the clock and the randomizer state.
    - [SensorTasks] (stdpp's [gmap] and [rtc]): concurrent callers of
      [generateSensorData] (spec section 5).  A configuration maps task
      identifiers to the calls each task has left and the readings it
      received, beside the shared clock and faker state; [step] makes
      one call of any task or moves the clock forward.  [call_fn] and
      [schedule_fn] compute given interleavings.
    - [TokenRegex]: the token regex of syntaxHighlight as a
      deterministic matcher that returns what ECMAScript backtracking
      returns (alternatives in order, greedy stars, the word boundary).
    - [Highlight]: the escapes, the callback and the global replace loop
      [scan] (Equations, well founded on the length of the rest), and
      the grammar of the output markup ([piece], [piece_ok]).
    - [StringReplace]: the same replace as ECMAScript runs it,
      [RegExp.prototype[@@replace]] with the g flag.  It is two loops
      over positions of the whole string, with fuel:
      - [builtin_exec] searches from lastIndex and [collect] gathers
        the matches;
      - [accumulate] splices in the callback's replacements.
      Its lemmas show that fuel [|s|+2] is enough and that the result is
      [scan]: they justify [scan] as the model of the replace call.
    - [HighlightJson]: the refinement of [highlight] by the serializer
      with span-wrapped tokens.
    - [HighlightRoundtrip]: reparsing the highlighted text.
    - [HighlightSpans]: the tokens of a value ([tokens]) and a parser of
      the output markup ([parse_markup]), which reads back every
      well-formed sequence of characters and spans.
    - [KioskDisplay]: the schemas and the highlighter composed.  A value
      is shown back ([shown_back]) when JSON.stringify keeps it as it
      is, its objects are ordinary and its numbers integers.  That is
      closed under arrays and objects, and every encoder of the schema
      modules gives such values.

    ** Theorems

    - Highlighter: [highlight_refines] (C1) states that for every value
      and every number format [highlight] returns the serialization with
      every token escaped and wrapped in the span of its kind, and
      throws a TypeError exactly when JSON.stringify gives undefined.
      Round trip, tag stripping, absence of markup in the text, the
      single-pass character of the three escapes and the callback's
      classification hold for every input text (C7-C11).  After
      stripping the tags and decoding the entities, JSON.parse gives
      back the value as JSON.stringify keeps it (C19).  Every
      output is flat markup with the five span classes (C20).  The
      spans a reader finds in the output are the value's tokens, in
      order and classed by kind, and no others (C23).
    - Composition: a kiosk that [KioskSchema] accepts, encoded and shown
      with [highlight], reads back from the markup to its encoding, and
      that encoding validates to the same kiosk (C32).
    - Schemas: soundness of [KioskSchema] (C2), the
      closed media type (C3), the exact set of accepted positive
      integers (C4), nullable durations (C5), error paths and error
      accumulation (C12, C13), unknown keys (C14), and the divergences
      from the specification: absent durations, unsafe integers and the
      key name pk (C15-C17).  Issues of a message keep their full path
      through two levels of arrays (C22).  [KioskSchema] and
      [AnnouncementSchema] accept exactly the payloads of the data
      model, with the value those payloads stand for (C27, C28).
      Validation does
      not make media identifiers unique: a kiosk with a media item
      listed twice is accepted (C31).
    - Sensor: with a randomizer of at most 46 bits every field is in its
      range (C6).  The humidity is 61 exactly when the randomizer has
      53 bits, faker's default, and the humidity's draw is the largest,
      [2^53 - 1]; at every other draw and resolution it is at most 60
      (C18).  At any
      resolution only the humidity can leave its range, and by one at
      most (C21).  The other five fields are drawn with
      [number.int(max)], whose minimum 0 makes the second rounding
      exact, and whose product stays below [max + 1].  At every
      resolution from 7 to 53 bits, faker's default of 53 included,
      every reading in the documented ranges is produced by some
      draws (C24).  With C6, at 32 bits these ranges are exactly the
      readings.  Every run of calls and clock ticks goes to its end
      with one reading per call, for its kiosk at its time (C25).
      Across any number of calls, with a randomizer of at most 46 bits
      and a clock that does not go back, every reading is in range and
      the readings are in time order (C26).
    - Concurrent callers: every configuration reached by any
      interleaving of the tasks' calls and clock ticks satisfies the
      invariant of C29, proved by rule induction on [rtc step]: each
      task has readings for its own kiosks, in its own order and in time
      order, and in range at most 46 bits.  From every reachable
      configuration the tasks can all run to completion (C30).  The
      tasks share the faker instance, so the draws a task's call gets
      depend on the calls other tasks made before it; the specification
      says that callers never interfere.

    ** Bounds and fuel

    The regex matcher and the escapes are structural.  The replace loop
    is well founded, since every match consumes at least one character.
    [pos_digits] for the integer number format takes the number of
    digits as fuel, and [size_nat] of the number bounds that count.
    Doubles are exact for the values of number.int: the operands are
    multiples of 2^-53 below 2^10.  The bound of 46 bits in C6 makes
    every product and sum exact for ranges up to 101 values.  At a
    higher resolution, C21 uses monotonicity of rounding instead: a
    rounding never crosses a representable double.  For [number.int(max)]
    it also uses round-to-nearest: a value at least [delta] below
    [delta * 2^53] rounds to the double under it.  C24 uses the same
    fact: it places a rounded value between [j] and [j + 1 - 2^-46],
    both of which are doubles.  JSON.parse takes
    fuel [2|s|+1]: each nested value consumes a character, and each
    call on the elements or members of a value consumes one.  The
    ECMAScript replace takes fuel [|s|+2]: the search moves lastIndex
    on by one per failed position, and every match is non-empty.

    ** Not modelled

    The source tree holds these six files only, and every line of code
    in them is translated; only the imports and comments are not.
    What is left out lies in the libraries they call.  [new Date()] is
    a clock value in milliseconds.  The Mersenne Twister of faker is not
    in the repository and is not modelled: its draws are a parameter
    (the [Randomizer] class), and the theorems hold for every
    randomizer of the stated resolution.
    Number::toString is a parameter with a shape law.  Its instance for
    integers prints decimal digits at every size, where Number::toString
    switches to the exponent form from 1e21 on; the examples stay far
    below that.  Characters
    beyond the 8-bit range are not modelled, and JSON.parse rejects
    [\u] escapes above 255.  Its numbers are exact rationals, not
    doubles: the round trip is stated for integral numbers.  zod's messages and error
    maps, and the URL parser's algorithm, are not modelled either. *)

From Stdlib Require Import Ascii String List Bool Arith Lia.
Import ListNotations.

(** ** Text

    JavaScript strings are sequences of UTF-16 code units.  The model
    uses [list ascii]: a string is a list of 8-bit code units, i.e. the
    Latin-1 range of UTF-16.  [str] turns a Rocq string literal into
    such a list. *)

Abbreviation text := (list ascii).

Definition str (s : string) : text := list_ascii_of_string s.

Declare Scope kiosk_scope.
Delimit Scope kiosk_scope with kiosk.
Open Scope kiosk_scope.

Notation "c =c d" := (Ascii.eqb c d) (at level 70, no associativity) : kiosk_scope.

(** The characters the source code names. *)
Definition ch_quote : ascii := "034"%char.
Definition ch_bslash : ascii := "092"%char.
Definition ch_colon : ascii := ":"%char.
Definition ch_minus : ascii := "-"%char.
Definition ch_plus : ascii := "+"%char.
Definition ch_dot : ascii := "."%char.
Definition ch_amp : ascii := "&"%char.
Definition ch_lt : ascii := "<"%char.
Definition ch_gt : ascii := ">"%char.
Definition ch_nl : ascii := "010"%char.
Definition ch_space : ascii := " "%char.
Definition ch_comma : ascii := ","%char.

(** ** Character classes of ECMAScript regular expressions *)

Definition in_range (lo hi : nat) (c : ascii) : bool :=
  (lo <=? nat_of_ascii c) && (nat_of_ascii c <=? hi).

(** [\d] *)
Definition is_digit (c : ascii) : bool := in_range 48 57 c.
(** [[a-zA-Z0-9]] *)
Definition is_alnum (c : ascii) : bool :=
  in_range 48 57 c || in_range 65 90 c || in_range 97 122 c.
(** Word characters of [\b]: [[A-Za-z0-9_]]. *)
Definition is_word (c : ascii) : bool := is_alnum c || (c =c "_"%char).
(** [\s] on the Latin-1 range: TAB, LF, VT, FF, CR, SPACE and NBSP. *)
Definition is_space (c : ascii) : bool :=
  in_range 9 13 c || (c =c ch_space) || (nat_of_ascii c =? 160).

(** The character before a position; [None] at the start of the input,
    where [\b] treats the missing character as a non-word character. *)
Definition is_word_opt (p : option ascii) : bool :=
  match p with Some c => is_word c | None => false end.

(** ** Generic list and text functions *)

(** Longest prefix whose characters satisfy [f], and the rest. *)
Fixpoint span (f : ascii -> bool) (s : text) : text * text :=
  match s with
  | [] => ([], [])
  | c :: r => if f c then let '(x, y) := span f r in (c :: x, y) else ([], s)
  end.

Fixpoint strip_prefix (p s : text) : option text :=
  match p, s with
  | [], _ => Some s
  | a :: p', b :: s' => if a =c b then strip_prefix p' s' else None
  | _ :: _, [] => None
  end.

Definition head_is (f : ascii -> bool) (s : text) : bool :=
  match s with c :: _ => f c | [] => false end.

(** [RegExp.prototype.test] of a literal pattern without anchors:
    substring search. *)
Fixpoint contains (p s : text) : bool :=
  match strip_prefix p s with
  | Some _ => true
  | None => match s with [] => false | _ :: r => contains p r end
  end.

Definition all_chars (f : ascii -> bool) (s : text) : bool := forallb f s.

(** ** Automation *)

Create HintDb kiosk discriminated.
Create Rewrite HintDb kiosk_rw.

Ltac inv H := inversion H; clear H; subst.

(** Normalise list appends to the right, pushing conses outwards. *)
Ltac app_norm :=
  repeat (rewrite <- app_assoc || rewrite <- app_comm_cons); simpl.

(** The same, reducing nothing but [app]. *)
Ltac app_right :=
  repeat (rewrite <- app_assoc || rewrite <- app_comm_cons); cbn [app].

(** Case analysis on every character comparison of the goal. *)
Ltac ascii_cases :=
  repeat (simpl; match goal with
   | |- context [?a =c ?b] =>
       let E := fresh "E" in
       destruct (Ascii.eqb_spec a b) as [E|E]; [subst|]; try congruence
   end).

Ltac case_if :=
  match goal with
  | |- context [if ?b then _ else _] => let E := fresh "E" in destruct b eqn:E
  end.

(** ** Shared lemmas *)

Lemma span_app f s : fst (span f s) ++ snd (span f s) = s.
Proof.
  induction s as [|c r IH]; simpl; [reflexivity|].
  destruct (f c); [|reflexivity].
  destruct (span f r) as [x y]; simpl in *. now rewrite IH.
Qed.

Lemma span_fst_all f s : forallb f (fst (span f s)) = true.
Proof.
  induction s as [|c r IH]; simpl; [reflexivity|].
  destruct (f c) eqn:E; [|reflexivity].
  destruct (span f r) as [x y]; simpl in *. now rewrite E, IH.
Qed.

Lemma span_snd_stop f s : head_is f (snd (span f s)) = false.
Proof.
  induction s as [|c r IH]; simpl; [reflexivity|].
  destruct (f c) eqn:E; [|simpl; exact E].
  destruct (span f r) as [x y]; simpl in *. exact IH.
Qed.

Lemma span_all_app f x y :
  forallb f x = true -> head_is f y = false -> span f (x ++ y) = (x, y).
Proof.
  intros Hx Hy. induction x as [|c r IH]; simpl in *.
  - destruct y as [|d y']; simpl in *; [reflexivity|]. now rewrite Hy.
  - apply andb_true_iff in Hx as [Hc Hr]. rewrite Hc, IH; auto.
Qed.

Lemma strip_prefix_app p r : strip_prefix p (p ++ r) = Some r.
Proof.
  induction p as [|a p IH]; simpl; [reflexivity|].
  now rewrite Ascii.eqb_refl.
Qed.

Lemma strip_prefix_Some p s r : strip_prefix p s = Some r -> s = p ++ r.
Proof.
  revert s. induction p as [|a p IH]; intros [|b s] H; simpl in *;
    try congruence.
  destruct (Ascii.eqb_spec a b); [subst|discriminate]. f_equal; auto.
Qed.

Lemma forallb_weaken (f g : ascii -> bool) s :
  (forall c, f c = true -> g c = true) -> forallb f s = true -> forallb g s = true.
Proof.
  intros Hfg. induction s as [|c s IH]; simpl; [reflexivity|].
  rewrite !andb_true_iff. intros [Hc Hs]. auto.
Qed.

(** A text none of whose characters is the first character of [p] does
    not contain [p]. *)
Lemma contains_absent a p s :
  forallb (fun c => negb (c =c a)) s = true -> contains (a :: p) s = false.
Proof.
  induction s as [|b s IH]; simpl; [reflexivity|].
  rewrite andb_true_iff. intros [Hb Hs].
  destruct (Ascii.eqb_spec b a) as [->|Hne]; [discriminate|].
  destruct (Ascii.eqb_spec a b) as [->|_]; [congruence|]. auto.
Qed.

#[export] Hint Rewrite span_app strip_prefix_app : kiosk_rw.
#[export] Hint Resolve span_fst_all span_snd_stop : kiosk.
