(* ===== verification/JsValue.v ===== *)
(** * JavaScript values

    The untyped values the schemas validate and [JSON.stringify]
    serializes: the language's primitive types, arrays, and plain
    objects as the list of their own enumerable properties in
    [[OwnPropertyKeys]] order.  Numbers are IEEE doubles in JavaScript;
    the model keeps the special values NaN and the infinities and
    represents a finite double by the rational it denotes. *)
From Stdlib Require Import Ascii String List Bool Arith ZArith QArith Lia.
Import ListNotations.
From S2P Require Import Spec2Rocq.

Local Set Warnings "-register-all".

Module JsValue.

Inductive number : Type :=
  | NaN
  | Infinity (negative : bool)
  | Finite (q : Q).

Inductive jsval : Type :=
  | JUndefined
  | JNull
  | JBool (b : bool)
  | JNumber (n : number)
  | JString (s : text)
  | JArray (items : list jsval)
  | JObject (props : list (text * jsval)).

(** The exceptions the modelled code can raise. *)
Inductive js_error : Type := TypeError | SyntaxError.

(** The completion of a call: a value, or a thrown exception. *)
Inductive completion (A : Type) : Type :=
  | Returns (a : A)
  | Throws (e : js_error).
Arguments Returns {A} a.
Arguments Throws {A} e.

(** [Number.MAX_SAFE_INTEGER] *)
Definition MAX_SAFE_INTEGER : Z := 2 ^ 53 - 1.

(** [Number.isInteger]: finite with no fractional part. *)
Definition is_integer (n : number) : bool :=
  match n with
  | Finite q => (Qnum q mod Zpos (Qden q) =? 0)%Z
  | _ => false
  end.

(** The integer value of an integral finite number. *)
Definition to_Z (q : Q) : Z := (Qnum q / Zpos (Qden q))%Z.

(** [Number.isSafeInteger] *)
Definition is_safe_integer (n : number) : bool :=
  is_integer n &&
  match n with
  | Finite q => (Z.abs (to_Z q) <=? MAX_SAFE_INTEGER)%Z
  | _ => false
  end.

(** [x > 0] on numbers. *)
Definition num_gt_zero (n : number) : bool :=
  match n with
  | Finite q => (0 <? Qnum q)%Z
  | Infinity neg => negb neg
  | NaN => false
  end.

Definition of_Z (z : Z) : number := Finite (inject_Z z).

(** [obj[key]] on a plain object: the first property of that name, and
    [undefined] when there is none. *)
Fixpoint get (key : text) (props : list (text * jsval)) : jsval :=
  match props with
  | [] => JUndefined
  | (k, v) :: ps => if list_eq_dec ascii_dec k key then v else get key ps
  end.

(** Induction on values with a hypothesis for every element of an array
    and every property of an object. *)
Section JsvalInd.
Variable P : jsval -> Prop.
Hypothesis HUndefined : P JUndefined.
Hypothesis HNull : P JNull.
Hypothesis HBool : forall b, P (JBool b).
Hypothesis HNumber : forall n, P (JNumber n).
Hypothesis HString : forall s, P (JString s).
Hypothesis HArray : forall l, Forall P l -> P (JArray l).
Hypothesis HObject : forall ps, Forall (fun kv => P (snd kv)) ps -> P (JObject ps).

Fixpoint jsval_ind' (v : jsval) : P v :=
  match v with
  | JUndefined => HUndefined
  | JNull => HNull
  | JBool b => HBool b
  | JNumber n => HNumber n
  | JString s => HString s
  | JArray l =>
      HArray l ((fix go (l : list jsval) : Forall P l :=
                   match l with
                   | [] => Forall_nil _
                   | x :: xs => Forall_cons _ (jsval_ind' x) (go xs)
                   end) l)
  | JObject ps =>
      HObject ps ((fix go (ps : list (text * jsval)) : Forall (fun kv => P (snd kv)) ps :=
                     match ps with
                     | [] => Forall_nil _
                     | kv :: rest => Forall_cons _ (jsval_ind' (snd kv)) (go rest)
                     end) ps)
  end.
End JsvalInd.

End JsValue.
