(* ===== verification/JsonStringify.v ===== *)
(** * [JSON.stringify(value, undefined, 4)]

    The serializer that [highlight] (src/src/lib/utils/highlight.ts,
    line 2) calls, modelled from ECMA-262 (SerializeJSONProperty,
    SerializeJSONObject, SerializeJSONArray, QuoteJSONString) with the
    gap of four spaces.  It is library code, so it is modelled from its
    specification.

    The serializer is written once, parameterised by a token wrapper
    [W]: every lexical token it emits (a key with its colon, a string,
    a number, a boolean, null) passes through [W] with its kind, while
    the structural characters are emitted as they are.
    [JSON.stringify] is the instance where [W] returns the token
    unchanged. *)
From Stdlib Require Import Ascii String List Bool Arith ZArith QArith Lia.
Import ListNotations.
From S2P Require Import Spec2Rocq JsValue.

Module JsonStringify.
Import JsValue.

(** The lexical token kinds of JSON text, named after the CSS classes of
    the highlighter. *)
Inductive token_kind := KKey | KString | KBoolean | KNull | KNumber.

(** [Number::toString] of a finite number is an engine routine.  It is
    a parameter of the serializer; its contract from ECMA-262 is the
    shape of its result: an optional minus sign, a non-empty digit
    string, an optional fraction of at least one digit, and an optional
    exponent [e+] or [e-] followed by digits. *)
Definition digits_ok (d : text) : Prop := d <> [] /\ forallb is_digit d = true.

Definition number_shape (t : text) : Prop :=
  exists sg ds fr ex,
    t = sg ++ ds ++ fr ++ ex /\
    (sg = [] \/ sg = [ch_minus]) /\
    digits_ok ds /\
    (fr = [] \/ exists fd, fr = ch_dot :: fd /\ digits_ok fd) /\
    (ex = [] \/ exists s ed, ex = "e"%char :: s :: ed /\ (s = ch_plus \/ s = ch_minus) /\ digits_ok ed).

Class NumberFormat := {
  number_to_string : Q -> text;
  number_to_string_shape : forall q, number_shape (number_to_string q)
}.

(** QuoteJSONString: the escapes of the table, then [\u00XX] for the
    other control characters, in lowercase hexadecimal. *)
Definition hex_digit (n : nat) : ascii :=
  if n <? 10 then ascii_of_nat (48 + n) else ascii_of_nat (87 + n).

Definition quote_char (c : ascii) : text :=
  let n := nat_of_ascii c in
  if n =? 8 then [ch_bslash; "b"%char]
  else if n =? 9 then [ch_bslash; "t"%char]
  else if n =? 10 then [ch_bslash; "n"%char]
  else if n =? 12 then [ch_bslash; "f"%char]
  else if n =? 13 then [ch_bslash; "r"%char]
  else if n =? 34 then [ch_bslash; ch_quote]
  else if n =? 92 then [ch_bslash; ch_bslash]
  else if n <? 32 then [ch_bslash; "u"%char; "0"%char; "0"%char;
                        hex_digit (n / 16); hex_digit (n mod 16)]
  else [c].

Definition quote_json (s : text) : text := ch_quote :: flat_map quote_char s ++ [ch_quote].

(** The gap is four spaces; [indent n] is the indentation at depth [n]. *)
Definition indent (n : nat) : text := repeat ch_space (4 * n).

Fixpoint join (sep : text) (items : list text) : text :=
  match items with
  | [] => []
  | [x] => x
  | x :: xs => x ++ sep ++ join sep xs
  end.

(** The bracketed layout of a non-empty array or object: the opening
    bracket, a line break and the inner indentation before each item,
    the items separated by [,] and a line break, and the closing
    bracket on a line of its own at the outer indentation. *)
Definition layout (op cl : ascii) (depth : nat) (items : list text) : text :=
  match items with
  | [] => [op; cl]
  | _ :: _ =>
      op :: ch_nl :: indent (S depth) ++
      join (ch_comma :: ch_nl :: indent (S depth)) items ++
      ch_nl :: indent depth ++ [cl]
  end.

Section Serialize.
Context {NF : NumberFormat}.
Variable W : token_kind -> text -> text.

(** SerializeJSONProperty on a value at nesting depth [depth]; [None]
    is the result [undefined]. *)
Fixpoint serialize (depth : nat) (v : jsval) : option text :=
  match v with
  | JUndefined => None
  | JNull => Some (W KNull (str "null"))
  | JBool b => Some (W KBoolean (if b then str "true" else str "false"))
  | JNumber (Finite q) => Some (W KNumber (number_to_string q))
  | JNumber _ => Some (W KNull (str "null"))
  | JString s => Some (W KString (quote_json s))
  | JArray l =>
      Some (layout "["%char "]"%char depth
              (map (fun x => match serialize (S depth) x with
                             | Some t => t
                             | None => W KNull (str "null")
                             end) l))
  | JObject ps =>
      Some (layout "{"%char "}"%char depth
              (flat_map (fun kv => match serialize (S depth) (snd kv) with
                                   | Some t => [W KKey (quote_json (fst kv) ++ [ch_colon]) ++ ch_space :: t]
                                   | None => []
                                   end) ps))
  end.
End Serialize.

(** [JSON.stringify(value, undefined, 4)]: every token as it is. *)
Definition JSON_stringify {NF : NumberFormat} (v : jsval) : option text :=
  serialize (fun _ t => t) 0 v.

(** ** A [Number::toString] for integral values

    On a safe integer, [Number::toString] prints the decimal digits of
    the integer with a leading minus sign when it is negative.  The
    instance below does that for the integer part of a number; it is
    the number format of the concrete examples of the development,
    which only use integral numbers. *)
Definition digit_char (d : Z) : ascii := ascii_of_nat (48 + Z.to_nat d).

Fixpoint pos_digits (fuel : nat) (n : Z) (acc : text) : text :=
  match fuel with
  | O => acc
  | S f =>
      let acc' := digit_char (n mod 10) :: acc in
      if (n <? 10)%Z then acc' else pos_digits f (n / 10) acc'
  end.

(** A positive number has at most as many decimal digits as binary ones. *)
Definition int_to_text (z : Z) : text :=
  match z with
  | Z0 => [digit_char 0]
  | Zpos p => pos_digits (Pos.size_nat p) (Zpos p) []
  | Zneg p => ch_minus :: pos_digits (Pos.size_nat p) (Zpos p) []
  end.

Lemma digit_char_digit n : is_digit (digit_char (n mod 10)) = true.
Proof.
  pose proof (Z.mod_pos_bound n 10 ltac:(lia)) as H.
  remember (n mod 10)%Z as k eqn:Ek; clear Ek.
  assert (Hk : (Z.to_nat k <= 9)%nat) by lia.
  unfold is_digit, in_range, digit_char.
  rewrite nat_ascii_embedding by lia.
  apply andb_true_iff. split; apply Nat.leb_le; lia.
Qed.

Lemma pos_digits_ok fuel n acc :
  forallb is_digit acc = true -> digits_ok (pos_digits (S fuel) n acc).
Proof.
  assert (Hc : forall m acc, forallb is_digit acc = true ->
            forallb is_digit (digit_char (m mod 10) :: acc) = true).
  { intros m acc' H. cbn [forallb]. now rewrite digit_char_digit. }
  revert n acc. induction fuel as [|fuel IH]; intros n acc Hacc; cbn [pos_digits].
  - destruct (n <? 10)%Z; split; try discriminate; auto.
  - destruct (n <? 10)%Z; [split; [discriminate|auto]|].
    apply IH. auto.
Qed.

Lemma size_nat_pos p : exists f, Pos.size_nat p = S f.
Proof. destruct p; simpl; eauto. Qed.

Lemma int_to_text_shape z : number_shape (int_to_text z).
Proof.
  assert (H0 : forall p, digits_ok (pos_digits (Pos.size_nat p) (Zpos p) [])).
  { intros p. destruct (size_nat_pos p) as [f ->]. now apply pos_digits_ok. }
  destruct z as [|p|p]; simpl.
  - exists [], [digit_char 0], [], []. repeat split; auto; discriminate.
  - exists [], (pos_digits (Pos.size_nat p) (Zpos p) []), [], [].
    rewrite !app_nil_r. repeat split; auto; apply H0.
  - exists [ch_minus], (pos_digits (Pos.size_nat p) (Zpos p) []), [], [].
    rewrite !app_nil_r. repeat split; auto; apply H0.
Qed.

#[export] Instance IntegerNumberFormat : NumberFormat := {
  number_to_string q := int_to_text (to_Z q);
  number_to_string_shape q := int_to_text_shape (to_Z q)
}.

End JsonStringify.
