(* ===== verification/JsonParse.v ===== *)
(** * [JSON.parse]

    The parser that reads back what [JSON.stringify] writes, modelled
    from ECMA-262 (JSON.parse, the JSON grammar of ECMA-404) to state
    the round trip the specification promises for the highlighter's
    output (spec section 8).  It is library code, modelled from its
    specification.

    The parser works on a prefix of its input and returns the rest, in
    the style of a deserializer: [parse_value] reads one value after
    optional whitespace.  Its recursion through arrays and objects is
    bounded by fuel; running out of fuel ([PTimeout]) is kept apart
    from a syntax error ([PFail]), so that the bound can be shown to
    be enough ([JsonParseFacts.parse_value_enough]).

    Objects are built as [JSON.parse] builds them, with
    CreateDataProperty: a repeated key overwrites the value in place,
    and the properties are kept in the order of [[OwnPropertyKeys]]:
    array indices first, ascending, then the other keys in creation
    order.  Numbers are read as exact rationals: the rounding of
    decimal fractions to doubles is not modelled, and [-0] reads as
    [0].  A [\u] escape above [ÿ] is outside the 8-bit text of the
    model and is rejected. *)
From Stdlib Require Import Ascii String List Bool Arith ZArith QArith Lia Permutation.
Import ListNotations.
From S2P Require Import Spec2Rocq JsValue JsonStringify.

Module JsonParse.
Import JsValue JsonStringify.
Local Open Scope nat_scope.

(** JSON whitespace: tab, line feed, carriage return, space. *)
Definition is_json_ws (c : ascii) : bool :=
  (nat_of_ascii c =? 9) || (nat_of_ascii c =? 10) || (nat_of_ascii c =? 13) || (c =c ch_space).

Fixpoint skip_ws (s : text) : text :=
  match s with
  | c :: r => if is_json_ws c then skip_ws r else s
  | [] => []
  end.

(** ** Numbers *)

Definition digit_val (c : ascii) : Z := Z.of_nat (nat_of_ascii c) - 48.

Definition digits_value (ds : text) : Z :=
  fold_left (fun acc c => acc * 10 + digit_val c)%Z ds 0%Z.

(** [m * 10^e] *)
Definition decimal_q (m e : Z) : Q :=
  if (0 <=? e)%Z then inject_Z (m * 10 ^ e) else Qmake m (Z.to_pos (10 ^ (- e))).

(** The integer part: [0] alone, or a non-zero digit and digits. *)
Definition lex_int (s : text) : option (text * text) :=
  match s with
  | c :: r =>
      if c =c "0"%char then Some ([c], r)
      else if is_digit c then let '(ds, r') := span is_digit r in Some (c :: ds, r')
      else None
  | [] => None
  end.

(** The fraction: absent, or [.] and at least one digit. *)
Definition lex_frac (s : text) : option (text * text) :=
  match s with
  | c :: r =>
      if c =c ch_dot then
        match span is_digit r with
        | ([], _) => None
        | (ds, r') => Some (ds, r')
        end
      else Some ([], s)
  | [] => Some ([], [])
  end.

(** The exponent: absent, or [e] or [E], a sign, and digits. *)
Definition lex_exp (s : text) : option (Z * text) :=
  match s with
  | c :: r =>
      if (c =c "e"%char) || (c =c "E"%char) then
        let '(neg, r1) :=
          match r with
          | d :: r' => if d =c ch_minus then (true, r') else if d =c ch_plus then (false, r') else (false, r)
          | [] => (false, r)
          end in
        match span is_digit r1 with
        | ([], _) => None
        | (ds, r2) => Some (if neg then (- digits_value ds)%Z else digits_value ds, r2)
        end
      else Some (0%Z, s)
  | [] => Some (0%Z, [])
  end.

Definition lex_number (s : text) : option (Q * text) :=
  let '(neg, s1) :=
    match s with
    | c :: r => if c =c ch_minus then (true, r) else (false, s)
    | [] => (false, s)
    end in
  match lex_int s1 with
  | None => None
  | Some (ip, s2) =>
      match lex_frac s2 with
      | None => None
      | Some (fd, s3) =>
          match lex_exp s3 with
          | None => None
          | Some (e, s4) =>
              let m := digits_value (ip ++ fd) in
              Some (Qred (decimal_q (if neg then (- m)%Z else m) (e - Z.of_nat (length fd))), s4)
          end
      end
  end.

(** ** Strings *)

Definition hex_val (c : ascii) : option nat :=
  let n := nat_of_ascii c in
  if in_range 48 57 c then Some (n - 48)
  else if in_range 97 102 c then Some (n - 87)
  else if in_range 65 70 c then Some (n - 55)
  else None.

(** The escapes of one character after the backslash. *)
Definition short_escape (e : ascii) : option ascii :=
  if e =c ch_quote then Some ch_quote
  else if e =c ch_bslash then Some ch_bslash
  else if e =c "/"%char then Some "/"%char
  else if e =c "b"%char then Some "008"%char
  else if e =c "f"%char then Some "012"%char
  else if e =c "n"%char then Some ch_nl
  else if e =c "r"%char then Some "013"%char
  else if e =c "t"%char then Some "009"%char
  else None.

Definition cons_fst {A B} (a : A) (r : option (list A * B)) : option (list A * B) :=
  match r with Some (l, b) => Some (a :: l, b) | None => None end.

(** The body of a string after its opening quote, up to and including
    the closing quote; raw control characters are refused. *)
Fixpoint lex_string (s : text) : option (text * text) :=
  match s with
  | [] => None
  | c :: r =>
      if c =c ch_quote then Some ([], r)
      else if c =c ch_bslash then
        match r with
        | e :: r1 =>
            match short_escape e with
            | Some c' => cons_fst c' (lex_string r1)
            | None =>
                if e =c "u"%char then
                  match r1 with
                  | h1 :: h2 :: h3 :: h4 :: r2 =>
                      match hex_val h1, hex_val h2, hex_val h3, hex_val h4 with
                      | Some a, Some b, Some c0, Some d =>
                          let v := ((a * 16 + b) * 16 + c0) * 16 + d in
                          if v <? 256 then cons_fst (ascii_of_nat v) (lex_string r2) else None
                      | _, _, _, _ => None
                      end
                  | _ => None
                  end
                else None
            end
        | [] => None
        end
      else if nat_of_ascii c <? 32 then None
      else cons_fst c (lex_string r)
  end.

(** ** Objects as [JSON.parse] builds them *)

(** CanonicalNumericIndexString restricted to array indices: a digit
    string without leading zero whose value is below [2^32 - 1]. *)
Definition array_index (k : text) : option Z :=
  match k with
  | [] => None
  | c :: r =>
      if forallb is_digit k && (negb (c =c "0"%char) || (match r with [] => true | _ => false end))
      then let v := digits_value k in if (v <? 2 ^ 32 - 1)%Z then Some v else None
      else None
  end.

Definition key_eqb (k k' : text) : bool := if list_eq_dec ascii_dec k k' then true else false.

Definition key_in (k : text) (ps : list (text * jsval)) : bool := existsb (fun p => key_eqb k (fst p)) ps.

Definition update (k : text) (v : jsval) (ps : list (text * jsval)) : list (text * jsval) :=
  map (fun p => if key_eqb k (fst p) then (fst p, v) else p) ps.

(** Whether the key [k'] comes after the array index [i]. *)
Definition after_index (i : Z) (k' : text) : bool :=
  match array_index k' with Some j => (i <? j)%Z | None => true end.

Fixpoint insert_index (k : text) (i : Z) (v : jsval) (ps : list (text * jsval)) : list (text * jsval) :=
  match ps with
  | [] => [(k, v)]
  | p :: ps' => if after_index i (fst p) then (k, v) :: ps else p :: insert_index k i v ps'
  end.

(** CreateDataProperty on an ordinary object. *)
Definition obj_set (k : text) (v : jsval) (ps : list (text * jsval)) : list (text * jsval) :=
  if key_in k ps then update k v ps
  else match array_index k with
       | Some i => insert_index k i v ps
       | None => ps ++ [(k, v)]
       end.

(** ** Values *)

Inductive presult (A : Type) : Type :=
  | PTimeout
  | PFail
  | POk (a : A) (rest : text).
Arguments PTimeout {A}.
Arguments PFail {A}.
Arguments POk {A} a rest.

Definition of_option {A} (o : option (A * text)) : presult A :=
  match o with Some (a, r) => POk a r | None => PFail end.

Fixpoint parse_value (fuel : nat) (s : text) {struct fuel} : presult jsval :=
  match fuel with
  | O => PTimeout
  | S f =>
      match skip_ws s with
      | [] => PFail
      | c :: r =>
          if c =c "{"%char then
            match skip_ws r with
            | d :: r' => if d =c "}"%char then POk (JObject []) r' else parse_members f (d :: r') []
            | [] => PFail
            end
          else if c =c "["%char then
            match skip_ws r with
            | d :: r' =>
                if d =c "]"%char then POk (JArray []) r'
                else match parse_elements f (d :: r') with
                     | POk vs r'' => POk (JArray vs) r''
                     | PFail => PFail
                     | PTimeout => PTimeout
                     end
            | [] => PFail
            end
          else if c =c ch_quote then
            of_option (option_map (fun p => (JString (fst p), snd p)) (lex_string r))
          else match strip_prefix (str "true") (c :: r) with
          | Some r' => POk (JBool true) r'
          | None =>
          match strip_prefix (str "false") (c :: r) with
          | Some r' => POk (JBool false) r'
          | None =>
          match strip_prefix (str "null") (c :: r) with
          | Some r' => POk JNull r'
          | None => of_option (option_map (fun p => (JNumber (Finite (fst p)), snd p)) (lex_number (c :: r)))
          end end end
      end
  end

(** The elements of a non-empty array, through the closing bracket. *)
with parse_elements (fuel : nat) (s : text) {struct fuel} : presult (list jsval) :=
  match fuel with
  | O => PTimeout
  | S f =>
      match parse_value f s with
      | POk v r =>
          match skip_ws r with
          | c :: r' =>
              if c =c ch_comma then
                match parse_elements f r' with
                | POk vs r'' => POk (v :: vs) r''
                | PFail => PFail
                | PTimeout => PTimeout
                end
              else if c =c "]"%char then POk [v] r'
              else PFail
          | [] => PFail
          end
      | PFail => PFail
      | PTimeout => PTimeout
      end
  end

(** The members of a non-empty object, through the closing brace, added
    to [acc] one by one. *)
with parse_members (fuel : nat) (s : text) (acc : list (text * jsval)) {struct fuel} : presult jsval :=
  match fuel with
  | O => PTimeout
  | S f =>
      match skip_ws s with
      | c :: r =>
          if c =c ch_quote then
            match lex_string r with
            | Some (k, r1) =>
                match skip_ws r1 with
                | d :: r2 =>
                    if d =c ch_colon then
                      match parse_value f r2 with
                      | POk v r3 =>
                          let acc' := obj_set k v acc in
                          match skip_ws r3 with
                          | e :: r4 =>
                              if e =c ch_comma then parse_members f r4 acc'
                              else if e =c "}"%char then POk (JObject acc') r4
                              else PFail
                          | [] => PFail
                          end
                      | PFail => PFail
                      | PTimeout => PTimeout
                      end
                    else PFail
                | [] => PFail
                end
            | None => PFail
            end
          else PFail
      | [] => PFail
      end
  end.

(** [JSON.parse(text)]: one value and nothing but whitespace after it;
    a [SyntaxError] otherwise.  Twice the length plus one is enough
    fuel. *)
Definition JSON_parse (s : text) : completion jsval :=
  match parse_value (2 * length s + 1) s with
  | POk v r => match skip_ws r with [] => Returns v | _ => Throws SyntaxError end
  | _ => Throws SyntaxError
  end.

(** ** What a round trip gives back

    [JSON.stringify] drops the properties whose value is [undefined],
    writes [null] for [undefined] array elements and for NaN and the
    infinities; numbers come back reduced. *)
Fixpoint json_norm (v : jsval) : jsval :=
  match v with
  | JNumber (Finite q) => JNumber (Finite (Qred q))
  | JNumber _ => JNull
  | JArray l => JArray (map (fun x => match x with JUndefined => JNull | _ => json_norm x end) l)
  | JObject ps =>
      JObject (flat_map (fun kv => match kv with
                                   | (k, x) => match x with JUndefined => [] | _ => [(k, json_norm x)] end
                                   end) ps)
  | _ => v
  end.

(** The finite numbers of a value, which the number format has to
    print in a way that reads back. *)
Fixpoint numbers (v : jsval) : list Q :=
  match v with
  | JNumber (Finite q) => [q]
  | JArray l => flat_map numbers l
  | JObject ps => flat_map (fun kv => match kv with (_, x) => numbers x end) ps
  | _ => []
  end.

(** The keys of an ordinary object are distinct and in the order of
    [[OwnPropertyKeys]]: array indices first, ascending (strictly, as
    the keys are distinct), then the other keys. *)
Definition key_le (k1 k2 : text) : bool :=
  match array_index k1, array_index k2 with
  | Some a, Some b => (a <=? b)%Z
  | Some _, None => true
  | None, Some _ => false
  | None, None => true
  end.

Fixpoint keys_ordered (ks : list text) : bool :=
  match ks with
  | k1 :: ((k2 :: _) as rest) => key_le k1 k2 && keys_ordered rest
  | _ => true
  end.

Fixpoint keys_distinct (ks : list text) : bool :=
  match ks with
  | k :: rest => negb (existsb (key_eqb k) rest) && keys_distinct rest
  | [] => true
  end.

Fixpoint objects_wf (v : jsval) : bool :=
  match v with
  | JArray l => forallb objects_wf l
  | JObject ps =>
      keys_ordered (map fst ps) && keys_distinct (map fst ps) &&
      forallb (fun p => objects_wf (snd p)) ps
  | _ => true
  end.

End JsonParse.

Module JsonParseFacts.
Import JsValue JsonStringify JsonParse.
Local Open Scope nat_scope.

(** *** Fuel *)

(** The equations of the element and member loops, one step at a time. *)
Lemma parse_elements_S f s :
  parse_elements (S f) s =
      match parse_value f s with
      | POk v r =>
          match skip_ws r with
          | c :: r' =>
              if c =c ch_comma then
                match parse_elements f r' with
                | POk vs r'' => POk (v :: vs) r''
                | PFail => PFail
                | PTimeout => PTimeout
                end
              else if c =c "]"%char then POk [v] r'
              else PFail
          | [] => PFail
          end
      | PFail => PFail
      | PTimeout => PTimeout
      end.
Proof. reflexivity. Qed.

Lemma parse_members_S f s acc :
  parse_members (S f) s acc =
      match skip_ws s with
      | c :: r =>
          if c =c ch_quote then
            match lex_string r with
            | Some (k, r1) =>
                match skip_ws r1 with
                | d :: r2 =>
                    if d =c ch_colon then
                      match parse_value f r2 with
                      | POk v r3 =>
                          let acc' := obj_set k v acc in
                          match skip_ws r3 with
                          | e :: r4 =>
                              if e =c ch_comma then parse_members f r4 acc'
                              else if e =c "}"%char then POk (JObject acc') r4
                              else PFail
                          | [] => PFail
                          end
                      | PFail => PFail
                      | PTimeout => PTimeout
                      end
                    else PFail
                | [] => PFail
                end
            | None => PFail
            end
          else PFail
      | [] => PFail
      end.
Proof. reflexivity. Qed.


Definition not_timeout {A} (r : presult A) : Prop := match r with PTimeout => False | _ => True end.

(** One more unit of fuel changes nothing once the result is known. *)
Lemma parse_fuel_S n :
  (forall s, not_timeout (parse_value n s) -> parse_value (S n) s = parse_value n s) /\
  (forall s, not_timeout (parse_elements n s) -> parse_elements (S n) s = parse_elements n s) /\
  (forall s acc, not_timeout (parse_members n s acc) -> parse_members (S n) s acc = parse_members n s acc).
Proof.
  induction n as [|n (IHv & IHe & IHm)]; [repeat split; intros; contradiction|].
  repeat split.
  - intros s. cbn [parse_value].
    destruct (skip_ws s) as [|c r]; [reflexivity|].
    case_if; [destruct (skip_ws r) as [|d r']; [reflexivity|]; case_if; [reflexivity|];
              intros H; now rewrite IHm by exact H|].
    case_if; [destruct (skip_ws r) as [|d r']; [reflexivity|]; case_if; [reflexivity|];
              destruct (parse_elements n (d :: r')) eqn:Hr; [cbn; intros []| |];
              rewrite IHe by (rewrite Hr; exact I); rewrite Hr; reflexivity|].
    reflexivity.
  - intros s. rewrite (parse_elements_S (S n) s), (parse_elements_S n s).
    destruct (parse_value n s) eqn:Hr; [cbn; intros []| |]; rewrite IHv by (rewrite Hr; exact I);
      rewrite Hr; [reflexivity|].
    destruct (skip_ws rest) as [|c r']; [reflexivity|]. case_if; [|reflexivity].
    destruct (parse_elements n r') eqn:Hr2; [cbn; intros []| |];
      rewrite IHe by (rewrite Hr2; exact I); rewrite Hr2; reflexivity.
  - intros s acc. rewrite (parse_members_S (S n) s acc), (parse_members_S n s acc).
    destruct (skip_ws s) as [|c r]; [reflexivity|]. case_if; [|reflexivity].
    destruct (lex_string r) as [[k r1]|]; [|reflexivity].
    destruct (skip_ws r1) as [|d r2]; [reflexivity|]. case_if; [|reflexivity].
    destruct (parse_value n r2) eqn:Hr; [cbn; intros []| |]; rewrite IHv by (rewrite Hr; exact I);
      rewrite Hr; [reflexivity|].
    destruct (skip_ws rest) as [|e r4]; [reflexivity|]. case_if; [|reflexivity].
    intros H. now rewrite IHm by exact H.
Qed.

Lemma parse_fuel_le n m :
  n <= m ->
  (forall s, not_timeout (parse_value n s) -> parse_value m s = parse_value n s) /\
  (forall s, not_timeout (parse_elements n s) -> parse_elements m s = parse_elements n s) /\
  (forall s acc, not_timeout (parse_members n s acc) -> parse_members m s acc = parse_members n s acc).
Proof.
  induction 1 as [|m Hnm (IHv & IHe & IHm)]; [repeat split; reflexivity|].
  destruct (parse_fuel_S m) as (Sv & Se & Sm). repeat split.
  - intros s H. rewrite Sv; rewrite IHv; auto.
  - intros s H. rewrite Se; rewrite IHe; auto.
  - intros s acc H. rewrite Sm; rewrite IHm; auto.
Qed.

(** *** Every value read consumes input *)

(** Case analysis on the scrutinees of a hypothesis. *)
Ltac break_in H :=
  repeat match type of H with
         | context [match ?x with _ => _ end] =>
             lazymatch x with
             | parse_value _ _ => fail
             | parse_elements _ _ => fail
             | parse_members _ _ _ => fail
             | _ => let E := fresh "E" in destruct x eqn:E
             end
         end; try discriminate.

Lemma skip_ws_length s : length (skip_ws s) <= length s.
Proof. induction s as [|c r IH]; simpl; [lia|]. destruct (is_json_ws c); simpl; lia. Qed.

Lemma span_snd_length f s : length (snd (span f s)) <= length s.
Proof.
  induction s as [|c r IH]; simpl; [lia|]. destruct (f c); [|simpl; lia].
  destruct (span f r) as [x y]; simpl in *; lia.
Qed.

Lemma cons_fst_Some {A B} (a : A) (o : option (list A * B)) l b :
  cons_fst a o = Some (l, b) -> exists l', o = Some (l', b) /\ l = a :: l'.
Proof. destruct o as [[l' b']|]; simpl; intros H; inv H; eauto. Qed.

Lemma lex_string_length s t r : lex_string s = Some (t, r) -> length r < length s.
Proof.
  revert t r. induction s as [s IH] using (induction_ltof1 _ (@length ascii)); unfold ltof in IH.
  intros t r H. destruct s as [|c s]; [discriminate|]. cbn [lex_string] in H.
  break_in H; try (inv H; simpl; lia);
    apply cons_fst_Some in H as (l' & H & ->); apply IH in H; simpl in *; lia.
Qed.

Ltac span_length :=
  repeat match goal with
         | E : span ?f ?x = (_, _) |- _ =>
             let Hl := fresh "Hl" in
             pose proof (span_snd_length f x) as Hl; rewrite E in Hl; simpl in Hl; clear E
         end.

Lemma lex_int_length s ip r : lex_int s = Some (ip, r) -> length r < length s.
Proof.
  destruct s as [|c s]; simpl; [discriminate|].
  destruct (c =c "0"%char); [intros H; inv H; simpl; lia|].
  destruct (is_digit c); [|discriminate].
  destruct (span is_digit s) eqn:E; intros H; inv H. span_length. lia.
Qed.

Lemma lex_frac_length s fd r : lex_frac s = Some (fd, r) -> length r <= length s.
Proof.
  destruct s as [|c s]; simpl; [intros H; inv H; simpl; lia|].
  destruct (c =c ch_dot); [|intros H; inv H; simpl; lia].
  destruct (span is_digit s) as [[|d ds] r'] eqn:E; intros H; inv H. span_length. lia.
Qed.

Lemma lex_exp_length s e r : lex_exp s = Some (e, r) -> length r <= length s.
Proof.
  destruct s as [|c s]; simpl; [intros H; inv H; simpl; lia|].
  destruct ((c =c "e"%char) || (c =c "E"%char)); [|intros H; inv H; simpl; lia].
  assert (Hs : forall neg r1, (neg, r1) = match s with
              | d :: r' => if d =c ch_minus then (true, r') else if d =c ch_plus then (false, r') else (false, s)
              | [] => (false, s) end -> length r1 <= length s).
  { intros neg r1. destruct s as [|d r']; [intros H; inv H; lia|].
    destruct (d =c ch_minus); [intros H; inv H; simpl; lia|].
    destruct (d =c ch_plus); intros H; inv H; simpl; lia. }
  destruct (match s with
            | d :: r' => if d =c ch_minus then (true, r') else if d =c ch_plus then (false, r') else (false, s)
            | [] => (false, s) end) as [neg r1] eqn:E1.
  specialize (Hs neg r1 eq_refl).
  destruct (span is_digit r1) as [[|d ds] r2] eqn:E; intros H; inv H. span_length. lia.
Qed.

Lemma lex_number_length s q r : lex_number s = Some (q, r) -> length r < length s.
Proof.
  unfold lex_number.
  assert (Hs : forall neg s1, (neg, s1) = match s with
              | c :: r => if c =c ch_minus then (true, r) else (false, s)
              | [] => (false, s) end -> length s1 <= length s).
  { intros neg s1. destruct s as [|c r']; [intros H; inv H; lia|].
    destruct (c =c ch_minus); intros H; inv H; simpl; lia. }
  destruct (match s with
            | c :: r => if c =c ch_minus then (true, r) else (false, s)
            | [] => (false, s) end) as [neg s1] eqn:E1.
  specialize (Hs neg s1 eq_refl).
  destruct (lex_int s1) as [[ip s2]|] eqn:Ei; [|discriminate].
  destruct (lex_frac s2) as [[fd s3]|] eqn:Ef; [|discriminate].
  destruct (lex_exp s3) as [[e s4]|] eqn:Ee; [|discriminate].
  intros H; inv H.
  apply lex_int_length in Ei. apply lex_frac_length in Ef. apply lex_exp_length in Ee. lia.
Qed.

Lemma parse_consumes n :
  (forall s v r, parse_value n s = POk v r -> length r < length s) /\
  (forall s vs r, parse_elements n s = POk vs r -> length r < length s) /\
  (forall s acc v r, parse_members n s acc = POk v r -> length r < length s).
Proof.
  induction n as [|n (IHv & IHe & IHm)]; [repeat split; intros; discriminate|].
  repeat split.
  - intros s v r H. pose proof (skip_ws_length s) as Hs. cbn [parse_value] in H.
    destruct (skip_ws s) as [|c r0] eqn:Es; [discriminate|].
    pose proof (skip_ws_length r0) as Hr0.
    break_in H; simpl in Hs;
      try (inv H; simpl in *; lia);
      try (apply IHm in H; simpl in *; lia).
    + destruct (parse_elements n (a :: l)) eqn:Hp; inv H. apply IHe in Hp. simpl in *; lia.
    + destruct (lex_string r0) as [[t r1]|] eqn:Hl; inv H. apply lex_string_length in Hl. lia.
    + match goal with E : strip_prefix ?p (c :: r0) = Some ?r' |- _ =>
        apply strip_prefix_Some, (f_equal (@length ascii)) in E end.
      inv H. rewrite length_app in *. simpl in *. lia.
    + match goal with E : strip_prefix ?p (c :: r0) = Some ?r' |- _ =>
        apply strip_prefix_Some, (f_equal (@length ascii)) in E end.
      inv H. rewrite length_app in *. simpl in *. lia.
    + match goal with E : strip_prefix ?p (c :: r0) = Some ?r' |- _ =>
        apply strip_prefix_Some, (f_equal (@length ascii)) in E end.
      inv H. rewrite length_app in *. simpl in *. lia.
    + destruct (lex_number (c :: r0)) as [[q r1]|] eqn:Hl; inv H.
      apply lex_number_length in Hl. simpl in *. lia.
  - intros s vs r H. rewrite parse_elements_S in H.
    destruct (parse_value n s) as [| |v r1] eqn:Hv; try discriminate. apply IHv in Hv.
    pose proof (skip_ws_length r1) as Hr1.
    destruct (skip_ws r1) as [|c r2]; [discriminate|]. simpl in Hr1.
    break_in H; [|inv H; lia].
    destruct (parse_elements n r2) eqn:He; inv H. apply IHe in He. lia.
  - intros s acc v r H. rewrite parse_members_S in H.
    pose proof (skip_ws_length s) as Hs.
    destruct (skip_ws s) as [|c r0]; [discriminate|]. simpl in Hs.
    destruct (c =c ch_quote); [|discriminate].
    destruct (lex_string r0) as [[k r1]|] eqn:Hk; [|discriminate]. apply lex_string_length in Hk.
    pose proof (skip_ws_length r1) as Hr1.
    destruct (skip_ws r1) as [|d r2]; [discriminate|]. simpl in Hr1.
    destruct (d =c ch_colon); [|discriminate].
    destruct (parse_value n r2) as [| |w r3] eqn:Hv; try discriminate. apply IHv in Hv.
    pose proof (skip_ws_length r3) as Hr3.
    destruct (skip_ws r3) as [|e r4]; [discriminate|]. simpl in Hr3.
    destruct (e =c ch_comma); [apply IHm in H; lia|].
    destruct (e =c "}"%char); [inv H; lia|discriminate].
Qed.

Lemma of_option_not_timeout {A} (o : option (A * text)) : not_timeout (of_option o).
Proof. destruct o as [[]|]; exact I. Qed.

(** Twice the length of the input, plus one, is enough fuel: a call
    consumes a character before it recurses through an array or an
    object, and every element or member consumes one more. *)
Lemma parse_enough n :
  (forall s, 2 * length s + 1 <= n -> not_timeout (parse_value n s)) /\
  (forall s, 2 * length s + 2 <= n -> not_timeout (parse_elements n s)) /\
  (forall s acc, 2 * length s + 2 <= n -> not_timeout (parse_members n s acc)).
Proof.
  induction n as [|n (IHv & IHe & IHm)]; [repeat split; intros; lia|].
  destruct (parse_consumes n) as (Cv & _ & _).
  repeat split.
  - intros s Hn. cbn [parse_value].
    pose proof (skip_ws_length s) as Hs.
    destruct (skip_ws s) as [|c r0]; [exact I|]. simpl in Hs.
    pose proof (skip_ws_length r0) as Hr0.
    case_if.
    { destruct (skip_ws r0) as [|d r']; [exact I|]. simpl in Hr0.
      case_if; [exact I|]. apply IHm. simpl; lia. }
    case_if.
    { destruct (skip_ws r0) as [|d r']; [exact I|]. simpl in Hr0. case_if; [exact I|].
      pose proof (IHe (d :: r') ltac:(simpl; lia)) as He.
      destruct (parse_elements n (d :: r')); [contradiction|exact I|exact I]. }
    case_if; [apply of_option_not_timeout|].
    repeat (destruct (strip_prefix _ _); [exact I|]). apply of_option_not_timeout.
  - intros s Hn. rewrite parse_elements_S.
    pose proof (IHv s ltac:(lia)) as Hv. pose proof (Cv s) as Hc.
    destruct (parse_value n s) as [| |v r1]; [contradiction|exact I|].
    specialize (Hc v r1 eq_refl). pose proof (skip_ws_length r1) as Hr1.
    destruct (skip_ws r1) as [|c r2]; [exact I|]. simpl in Hr1.
    case_if; [|case_if; exact I].
    pose proof (IHe r2 ltac:(lia)) as He.
    destruct (parse_elements n r2); [contradiction|exact I|exact I].
  - intros s acc Hn. rewrite parse_members_S.
    pose proof (skip_ws_length s) as Hs.
    destruct (skip_ws s) as [|c r0]; [exact I|]. simpl in Hs.
    case_if; [|exact I].
    destruct (lex_string r0) as [[k r1]|] eqn:Hk; [|exact I]. apply lex_string_length in Hk.
    pose proof (skip_ws_length r1) as Hr1.
    destruct (skip_ws r1) as [|d r2]; [exact I|]. simpl in Hr1.
    case_if; [|exact I].
    pose proof (IHv r2 ltac:(lia)) as Hv. pose proof (Cv r2) as Hc.
    destruct (parse_value n r2) as [| |w r3]; [contradiction|exact I|].
    specialize (Hc w r3 eq_refl). pose proof (skip_ws_length r3) as Hr3.
    destruct (skip_ws r3) as [|e r4]; [exact I|]. simpl in Hr3.
    case_if; [apply IHm; lia|case_if; exact I].
Qed.

(** *** Strings *)

Lemma ascii_eqb_nat c d : (c =c d) = (nat_of_ascii c =? nat_of_ascii d).
Proof.
  destruct (Ascii.eqb_spec c d) as [->|Hne]; symmetry; [apply Nat.eqb_refl|].
  apply Nat.eqb_neq. intros H. apply Hne.
  rewrite <- (ascii_nat_embedding c), <- (ascii_nat_embedding d). now rewrite H.
Qed.

Lemma hex_val_digit k : k < 16 -> hex_val (hex_digit k) = Some k.
Proof. intros Hk. do 16 (destruct k as [|k]; [reflexivity|]). lia. Qed.

(** The escape [QuoteJSONString] writes for one character reads back as
    that character. *)
Lemma lex_string_quote_char c t : lex_string (quote_char c ++ t) = cons_fst c (lex_string t).
Proof.
  unfold quote_char. set (n := nat_of_ascii c).
  assert (Hc : c = ascii_of_nat n) by (subst n; now rewrite ascii_nat_embedding).
  assert (Hn : n < 256) by apply nat_ascii_bounded.
  clearbody n. subst c.
  destruct (Nat.eqb_spec n 8) as [->|]; [reflexivity|].
  destruct (Nat.eqb_spec n 9) as [->|]; [reflexivity|].
  destruct (Nat.eqb_spec n 10) as [->|]; [reflexivity|].
  destruct (Nat.eqb_spec n 12) as [->|]; [reflexivity|].
  destruct (Nat.eqb_spec n 13) as [->|]; [reflexivity|].
  destruct (Nat.eqb_spec n 34) as [->|]; [reflexivity|].
  destruct (Nat.eqb_spec n 92) as [->|]; [reflexivity|].
  destruct (Nat.ltb_spec n 32).
  - cbn [app lex_string]. cbn - [hex_val hex_digit Nat.div Nat.modulo].
    rewrite !hex_val_digit by (try apply Nat.mod_upper_bound; try apply Nat.Div0.div_lt_upper_bound; lia).
    change (hex_val "0"%char) with (Some 0). cbv iota beta.
    assert (Hv : ((0 * 16 + 0) * 16 + n / 16) * 16 + n mod 16 = n)
      by (pose proof (Nat.div_mod_eq n 16); lia).
    rewrite Hv.
    replace (n <=? 255) with true by (symmetry; apply Nat.leb_le; lia). reflexivity.
  - cbn [app lex_string].
    rewrite (ascii_eqb_nat (ascii_of_nat n) ch_quote), (ascii_eqb_nat (ascii_of_nat n) ch_bslash).
    rewrite (nat_ascii_embedding n Hn).
    change (nat_of_ascii ch_quote) with 34. change (nat_of_ascii ch_bslash) with 92.
    replace (n =? 34) with false by (symmetry; apply Nat.eqb_neq; lia).
    replace (n =? 92) with false by (symmetry; apply Nat.eqb_neq; lia).
    replace (n <? 32) with false by (symmetry; apply Nat.ltb_ge; lia). reflexivity.
Qed.

Lemma lex_string_quoted s t : lex_string (flat_map quote_char s ++ ch_quote :: t) = Some (s, t).
Proof.
  induction s as [|c s IH]; [reflexivity|].
  cbn [flat_map]. rewrite <- app_assoc, lex_string_quote_char, IH. reflexivity.
Qed.

(** *** Integers *)

(** What may follow a number without being read as part of it. *)
Definition number_delimited (r : text) : bool :=
  match r with
  | c :: _ => negb (is_digit c || (c =c ch_dot) || (c =c "e"%char) || (c =c "E"%char) ||
                    (c =c ch_plus) || (c =c ch_minus))
  | [] => true
  end.

Lemma delimited_tail r :
  number_delimited r = true ->
  lex_frac r = Some ([], r) /\ lex_exp r = Some (0%Z, r) /\ head_is is_digit r = false.
Proof.
  destruct r as [|c r]; [auto|]. simpl.
  destruct (is_digit c), (c =c ch_dot), (c =c "e"%char), (c =c "E"%char); simpl; try discriminate.
  auto.
Qed.

Lemma digits_value_snoc l c : digits_value (l ++ [c]) = (digits_value l * 10 + digit_val c)%Z.
Proof. unfold digits_value. now rewrite fold_left_app. Qed.

Lemma digit_val_char d : (0 <= d <= 9)%Z -> digit_val (digit_char d) = d.
Proof.
  intros Hd. unfold digit_val, digit_char.
  assert (H : 48 + Z.to_nat d < 256) by lia. rewrite nat_ascii_embedding by exact H. lia.
Qed.

Lemma pos_lt_pow10 p : (Zpos p < 10 ^ Z.of_nat (Pos.size_nat p))%Z.
Proof.
  assert (H2 : (Zpos p < 2 ^ Z.of_nat (Pos.size_nat p))%Z).
  { induction p as [p IH|p IH|]; cbn [Pos.size_nat];
      [rewrite Pos2Z.inj_xI|rewrite Pos2Z.inj_xO|reflexivity];
      rewrite Nat2Z.inj_succ, Z.pow_succ_r by lia; lia. }
  eapply Z.lt_le_trans; [exact H2|]. apply Z.pow_le_mono_l. lia.
Qed.

(** [pos_digits] writes the decimal digits of a positive number, the
    first one non-zero, before the accumulator. *)
Lemma pos_digits_spec f n acc :
  (0 < n < 10 ^ Z.of_nat f)%Z ->
  exists c ds, pos_digits f n acc = c :: ds ++ acc /\ is_digit c = true /\ (c =c "0"%char) = false /\
               forallb is_digit ds = true /\ digits_value (c :: ds) = n.
Proof.
  revert n acc. induction f as [|f IH]; intros n acc Hn; [simpl in Hn; lia|].
  rewrite Nat2Z.inj_succ, Z.pow_succ_r in Hn by lia. cbn [pos_digits].
  pose proof (Z.mod_pos_bound n 10 ltac:(lia)) as Hm.
  destruct (Z.ltb_spec n 10) as [Hlt|Hge].
  - exists (digit_char (n mod 10)), []. rewrite Z.mod_small by lia.
    rewrite Z.mod_small in Hm by lia. refine (conj eq_refl (conj _ (conj _ (conj eq_refl _)))).
    + now rewrite <- (Z.mod_small n 10), digit_char_digit by lia.
    + rewrite ascii_eqb_nat. unfold digit_char.
      assert (H48 : 48 + Z.to_nat n < 256) by lia. rewrite nat_ascii_embedding by exact H48.
      change (nat_of_ascii "0"%char) with 48. apply Nat.eqb_neq. lia.
    + unfold digits_value. cbn [fold_left]. rewrite digit_val_char; lia.
  - destruct (IH (n / 10)%Z (digit_char (n mod 10) :: acc)) as (c & ds & E & Hc & H0 & Hds & Hv).
    { split; [apply Z.div_str_pos; lia|]. apply Z.div_lt_upper_bound; lia. }
    exists c, (ds ++ [digit_char (n mod 10)]). rewrite E, <- app_assoc.
    refine (conj eq_refl (conj Hc (conj H0 (conj _ _)))).
    + rewrite forallb_app, Hds. cbn [forallb andb]. now rewrite digit_char_digit.
    + change (c :: ds ++ [digit_char (n mod 10)]) with ((c :: ds) ++ [digit_char (n mod 10)]).
      rewrite digits_value_snoc, Hv, digit_val_char by lia.
      pose proof (Z.div_mod n 10 ltac:(lia)). lia.
Qed.

Lemma lex_number_digits (neg : bool) c ds r :
  is_digit c = true -> (c =c "0"%char) = false -> forallb is_digit ds = true ->
  number_delimited r = true ->
  lex_number ((if neg then [ch_minus] else @nil ascii) ++ c :: ds ++ r) =
  Some (Qred (inject_Z (if neg then (- digits_value (c :: ds))%Z else digits_value (c :: ds))), r).
Proof.
  intros Hc H0 Hds Hr. destruct (delimited_tail r Hr) as (Hf & He & Hh).
  assert (Hl : lex_int (c :: ds ++ r) = Some (c :: ds, r)).
  { unfold lex_int. rewrite H0, Hc. now rewrite span_all_app by assumption. }
  assert (Hm : (c =c ch_minus) = false).
  { destruct (Ascii.eqb_spec c ch_minus) as [->|]; [discriminate|reflexivity]. }
  unfold lex_number. destruct neg; cbn [app];
    [change (ch_minus =c ch_minus) with true|rewrite Hm]; cbv iota beta;
    rewrite Hl, Hf, He, app_nil_r; cbn [length]; unfold decimal_q; simpl; rewrite Z.mul_1_r; reflexivity.
Qed.

(** [Number::toString] of an integer reads back as that integer. *)
Lemma lex_number_int_to_text z r :
  number_delimited r = true -> lex_number (int_to_text z ++ r) = Some (Qred (inject_Z z), r).
Proof.
  intros Hr. destruct z as [|p|p].
  - destruct (delimited_tail r Hr) as (Hf & He & _).
    unfold lex_number. simpl. rewrite Hf, He. reflexivity.
  - destruct (pos_digits_spec (Pos.size_nat p) (Zpos p) [] ltac:(split; [lia|apply pos_lt_pow10]))
      as (c & ds & E & Hc & H0 & Hds & Hv).
    simpl int_to_text. rewrite E, app_nil_r.
    pose proof (lex_number_digits false c ds r Hc H0 Hds Hr) as L. cbn [app] in L.
    cbn [app]. rewrite L. now rewrite Hv.
  - destruct (pos_digits_spec (Pos.size_nat p) (Zpos p) [] ltac:(split; [lia|apply pos_lt_pow10]))
      as (c & ds & E & Hc & H0 & Hds & Hv).
    simpl int_to_text. rewrite E, app_nil_r.
    pose proof (lex_number_digits true c ds r Hc H0 Hds Hr) as L. cbn [app] in L.
    cbn [app]. rewrite L. now rewrite Hv.
Qed.

(** *** Whitespace and fuel in compositions *)

Lemma skip_ws_ws w s : forallb is_json_ws w = true -> skip_ws (w ++ s) = skip_ws s.
Proof.
  induction w as [|c w IH]; [reflexivity|]. cbn [forallb]. intros H.
  apply andb_true_iff in H as [Hc Hw]. simpl. rewrite Hc. auto.
Qed.

Lemma skip_ws_stop c s : is_json_ws c = false -> skip_ws (c :: s) = c :: s.
Proof. intros H. simpl. now rewrite H. Qed.

Lemma indent_ws n : forallb is_json_ws (indent n) = true.
Proof. unfold indent. induction (4 * n) as [|k IH]; [reflexivity|]. exact IH. Qed.

Lemma layout_ws n : forallb is_json_ws (ch_nl :: indent n) = true.
Proof. exact (indent_ws n). Qed.

Lemma parse_value_ws n w s :
  forallb is_json_ws w = true -> parse_value n (w ++ s) = parse_value n s.
Proof. intros H. destruct n; [reflexivity|]. cbn [parse_value]. now rewrite skip_ws_ws. Qed.

Lemma parse_elements_ws n w s :
  forallb is_json_ws w = true -> parse_elements n (w ++ s) = parse_elements n s.
Proof. intros H. destruct n; [reflexivity|]. rewrite !parse_elements_S. now rewrite parse_value_ws. Qed.

Lemma parse_members_ws n w s acc :
  forallb is_json_ws w = true -> parse_members n (w ++ s) acc = parse_members n s acc.
Proof. intros H. destruct n; [reflexivity|]. rewrite !parse_members_S. now rewrite skip_ws_ws. Qed.

Lemma parse_value_more n m s v r :
  parse_value n s = POk v r -> n <= m -> parse_value m s = POk v r.
Proof. intros H Hle. destruct (parse_fuel_le n m Hle) as (Hv & _ & _). rewrite Hv; [exact H|rewrite H; exact I]. Qed.

Lemma parse_elements_more n m s vs r :
  parse_elements n s = POk vs r -> n <= m -> parse_elements m s = POk vs r.
Proof. intros H Hle. destruct (parse_fuel_le n m Hle) as (_ & He & _). rewrite He; [exact H|rewrite H; exact I]. Qed.

Lemma parse_members_more n m s acc v r :
  parse_members n s acc = POk v r -> n <= m -> parse_members m s acc = POk v r.
Proof. intros H Hle. destruct (parse_fuel_le n m Hle) as (_ & _ & Hm). rewrite Hm; [exact H|rewrite H; exact I]. Qed.

(** A text that reads back as a value whatever follows it, unless a
    continuation of a number follows. *)
Definition reads_back (t : text) (w : jsval) : Prop :=
  forall r, number_delimited r = true -> exists n, parse_value n (t ++ r) = POk w r.

(** *** Objects built in key order *)

Lemma key_le_trans a b c : key_le a b = true -> key_le b c = true -> key_le a c = true.
Proof.
  unfold key_le. destruct (array_index a), (array_index b), (array_index c); try discriminate; auto.
  rewrite !Z.leb_le. lia.
Qed.

Lemma keys_ordered_app_l l1 l2 : keys_ordered (l1 ++ l2) = true -> keys_ordered l1 = true.
Proof.
  induction l1 as [|a l1 IH]; [reflexivity|].
  destruct l1 as [|b l1]; [reflexivity|]. cbn [app keys_ordered].
  intros H. apply andb_true_iff in H as [H1 H2]. rewrite H1. now apply IH.
Qed.

Lemma keys_distinct_app_l l1 l2 : keys_distinct (l1 ++ l2) = true -> keys_distinct l1 = true.
Proof.
  induction l1 as [|a l1 IH]; [reflexivity|]. cbn [app keys_distinct].
  intros H. apply andb_true_iff in H as [H1 H2]. rewrite IH by exact H2.
  rewrite existsb_app in H1. destruct (existsb (key_eqb a) l1); [discriminate|reflexivity].
Qed.

Lemma key_eqb_true k k' : key_eqb k k' = true <-> k = k'.
Proof. unfold key_eqb. destruct (list_eq_dec ascii_dec k k'); split; congruence. Qed.

Lemma keys_distinct_last l k : keys_distinct (l ++ [k]) = true -> ~ In k l.
Proof.
  induction l as [|a l IH]; [intros _ []|]. cbn [app keys_distinct].
  intros H [<-|Hin]; apply andb_true_iff in H as [H1 H2]; [|exact (IH H2 Hin)].
  rewrite existsb_app in H1. simpl in H1.
  assert (E : key_eqb a a = true) by now apply key_eqb_true. rewrite E, orb_true_r in H1. discriminate.
Qed.

(** In an ordered list, every key before an array index is a smaller
    array index. *)
Lemma keys_ordered_before_index l k i :
  keys_ordered (l ++ [k]) = true -> array_index k = Some i ->
  forall k', In k' l -> exists j, array_index k' = Some j /\ (j <= i)%Z.
Proof.
  intros Ho Hk. induction l as [|a l IH]; [intros _ []|].
  cbn [app] in Ho.
  assert (Hl : keys_ordered (l ++ [k]) = true /\ key_le a (hd k (l ++ [k])) = true).
  { destruct l as [|b l]; cbn [app keys_ordered hd] in *; apply andb_true_iff in Ho as [H1 H2]; auto. }
  destruct Hl as [Hl Hle]. specialize (IH Hl).
  assert (Ha : exists j, array_index a = Some j /\ (j <= i)%Z).
  { destruct l as [|b l]; cbn [app hd] in Hle.
    - unfold key_le in Hle. rewrite Hk in Hle. destruct (array_index a) as [j|]; [|discriminate].
      apply Z.leb_le in Hle. eauto.
    - destruct (IH b (or_introl eq_refl)) as (j & Hb & Hj). unfold key_le in Hle. rewrite Hb in Hle.
      destruct (array_index a) as [j'|]; [|discriminate]. apply Z.leb_le in Hle. exists j'. split; [reflexivity|lia]. }
  intros k' [<-|Hin]; [exact Ha|exact (IH k' Hin)].
Qed.

(** CreateDataProperty of a new key that comes last in key order
    appends the property. *)
Lemma obj_set_last k w acc :
  keys_ordered (map fst acc ++ [k]) = true -> keys_distinct (map fst acc ++ [k]) = true ->
  obj_set k w acc = acc ++ [(k, w)].
Proof.
  intros Ho Hd. apply keys_distinct_last in Hd.
  assert (Hin : key_in k acc = false).
  { unfold key_in. apply not_true_iff_false. intros H. apply existsb_exists in H as ([k' v'] & Hp & Hk).
    apply key_eqb_true in Hk. simpl in Hk. subst k'. apply Hd. apply in_map_iff. exists (k, v'). auto. }
  unfold obj_set. rewrite Hin. destruct (array_index k) as [i|] eqn:Hi; [|reflexivity].
  pose proof (keys_ordered_before_index _ _ _ Ho Hi) as Hb. clear Ho Hd Hin.
  induction acc as [|[k' v'] acc IH]; [reflexivity|]. cbn [insert_index fst].
  destruct (Hb k' (or_introl eq_refl)) as (j & Hj & Hji). unfold after_index. rewrite Hj.
  replace (i <? j)%Z with false by (symmetry; apply Z.ltb_ge; lia).
  rewrite IH; [reflexivity|]. intros k'' Hk''. apply Hb. now right.
Qed.

(** *** The array and object layouts read back *)

Definition item_sep (d : nat) : text := ch_comma :: ch_nl :: indent (S d).

Lemma layout_close_delimited d cl r : number_delimited (ch_nl :: indent d ++ cl :: r) = true.
Proof. reflexivity. Qed.

Lemma skip_ws_close d cl r : is_json_ws cl = false -> skip_ws (ch_nl :: indent d ++ cl :: r) = cl :: r.
Proof. intros H. change (ch_nl :: indent d ++ cl :: r) with ((ch_nl :: indent d) ++ cl :: r).
  rewrite skip_ws_ws by apply layout_ws. now apply skip_ws_stop. Qed.

Lemma parse_elements_join d ts ws r :
  Forall2 reads_back ts ws -> ts <> [] ->
  exists n, parse_elements n (join (item_sep d) ts ++ ch_nl :: indent d ++ "]"%char :: r) = POk ws r.
Proof.
  induction 1 as [|t w ts ws Ht Hall IH]; [congruence|]. intros _.
  destruct ts as [|t' ts].
  - inversion Hall; subst. cbn [join].
    destruct (Ht (ch_nl :: indent d ++ "]"%char :: r) (layout_close_delimited d _ r)) as (n & Hn).
    exists (S n). rewrite parse_elements_S, Hn, skip_ws_close by reflexivity. reflexivity.
  - destruct (IH ltac:(discriminate)) as (n2 & Hn2).
    set (rest := join (item_sep d) (t' :: ts) ++ ch_nl :: indent d ++ "]"%char :: r).
    destruct (Ht (item_sep d ++ rest) eq_refl) as (n1 & Hn1).
    exists (S (Nat.max n1 n2)).
    change (join (item_sep d) (t :: t' :: ts)) with (t ++ item_sep d ++ join (item_sep d) (t' :: ts)).
    rewrite <- !app_assoc. fold rest.
    rewrite parse_elements_S, (parse_value_more _ _ _ _ _ Hn1) by lia.
    unfold item_sep. cbn [app]. rewrite skip_ws_stop by reflexivity. cbn - [indent rest].
    change (ch_nl :: indent (S d) ++ rest) with ((ch_nl :: indent (S d)) ++ rest).
    rewrite parse_elements_ws by apply layout_ws.
    now rewrite (parse_elements_more _ _ _ _ _ Hn2) by lia.
Qed.

Definition member_text (k t : text) : text := (quote_json k ++ [ch_colon]) ++ ch_space :: t.

Lemma parse_member_step n k t w rest acc :
  parse_value n (t ++ rest) = POk w rest ->
  parse_members (S n) (member_text k t ++ rest) acc =
  match skip_ws rest with
  | e :: r4 =>
      if e =c ch_comma then parse_members n r4 (obj_set k w acc)
      else if e =c "}"%char then POk (JObject (obj_set k w acc)) r4
      else PFail
  | [] => PFail
  end.
Proof.
  intros H.
  assert (E : member_text k t ++ rest =
              ch_quote :: flat_map quote_char k ++ ch_quote :: ch_colon :: ([ch_space] ++ t ++ rest))
    by (unfold member_text, quote_json; cbn [app]; now rewrite <- !app_assoc).
  rewrite parse_members_S, E.
  rewrite skip_ws_stop by reflexivity. cbv iota beta. change (ch_quote =c ch_quote) with true.
  cbv iota beta. rewrite lex_string_quoted, skip_ws_stop by reflexivity.
  change (ch_colon =c ch_colon) with true. cbv iota beta.
  rewrite parse_value_ws by reflexivity. now rewrite H.
Qed.

Definition item_key (i : text * text * jsval) : text := fst (fst i).
Definition item_text (i : text * text * jsval) : text := snd (fst i).
Definition item_value (i : text * text * jsval) : jsval := snd i.

Lemma parse_members_join d items acc r :
  Forall (fun i => reads_back (item_text i) (item_value i)) items -> items <> [] ->
  keys_ordered (map fst acc ++ map item_key items) = true ->
  keys_distinct (map fst acc ++ map item_key items) = true ->
  exists n, parse_members n (join (item_sep d) (map (fun i => member_text (item_key i) (item_text i)) items)
                             ++ ch_nl :: indent d ++ "}"%char :: r) acc
            = POk (JObject (acc ++ map (fun i => (item_key i, item_value i)) items)) r.
Proof.
  intros Hall. revert acc. induction Hall as [|i items Hi Hall IH]; [congruence|]. intros acc _ Ho Hd.
  cbn [map] in Ho, Hd.
  assert (Hlast : obj_set (item_key i) (item_value i) acc = acc ++ [(item_key i, item_value i)]).
  { apply obj_set_last.
    - apply (keys_ordered_app_l _ (map item_key items)). now rewrite <- app_assoc.
    - apply (keys_distinct_app_l _ (map item_key items)). now rewrite <- app_assoc. }
  destruct items as [|i' items].
  - cbn [map join].
    destruct (Hi (ch_nl :: indent d ++ "}"%char :: r) (layout_close_delimited d _ r)) as (n & Hn).
    exists (S n). rewrite parse_member_step with (w := item_value i) by exact Hn.
    rewrite skip_ws_close by reflexivity. cbv iota beta. rewrite Hlast. reflexivity.
  - destruct (IH (acc ++ [(item_key i, item_value i)]) ltac:(discriminate)) as (n2 & Hn2);
      [rewrite map_app, <- app_assoc; exact Ho|rewrite map_app, <- app_assoc; exact Hd|].
    set (rest := join (item_sep d) (map (fun i0 => member_text (item_key i0) (item_text i0)) (i' :: items))
                   ++ ch_nl :: indent d ++ "}"%char :: r).
    destruct (Hi (item_sep d ++ rest) eq_refl) as (n1 & Hn1).
    exists (S (Nat.max n1 n2)).
    assert (E : join (item_sep d) (map (fun i0 => member_text (item_key i0) (item_text i0)) (i :: i' :: items))
                  ++ ch_nl :: indent d ++ "}"%char :: r =
                member_text (item_key i) (item_text i) ++ item_sep d ++ rest)
      by (unfold rest; cbn [map join]; now rewrite <- !app_assoc).
    rewrite E.
    rewrite parse_member_step with (w := item_value i)
      by exact (parse_value_more n1 (Nat.max n1 n2) _ _ _ Hn1 ltac:(lia)).
    unfold item_sep. cbn [app]. rewrite skip_ws_stop by reflexivity. cbv iota beta.
    change (ch_comma =c ch_comma) with true. cbv iota beta.
    change (ch_nl :: indent (S d) ++ rest) with ((ch_nl :: indent (S d)) ++ rest).
    rewrite parse_members_ws by apply layout_ws. rewrite Hlast.
    rewrite (parse_members_more _ _ _ _ _ _ Hn2) by lia. now rewrite <- app_assoc.
Qed.

(** *** Values *)

(** The characters a serialized value starts with, and those a number
    starts with. *)
Definition value_start (c : ascii) : bool :=
  is_digit c || (c =c ch_minus) || (c =c ch_quote) || (c =c "["%char) || (c =c "{"%char) ||
  (c =c "t"%char) || (c =c "f"%char) || (c =c "n"%char).

Definition num_start (c : ascii) : bool := is_digit c || (c =c ch_minus).

Lemma value_start_stop c :
  value_start c = true -> is_json_ws c = false /\ (c =c "]"%char) = false /\ (c =c "}"%char) = false.
Proof. destruct c as [[] [] [] [] [] [] [] []]; vm_compute; intros H; try discriminate; auto. Qed.

Lemma num_start_cases c :
  num_start c = true ->
  is_json_ws c = false /\ (c =c "{"%char) = false /\ (c =c "["%char) = false /\ (c =c ch_quote) = false /\
  ("t"%char =c c) = false /\ ("f"%char =c c) = false /\ ("n"%char =c c) = false.
Proof. destruct c as [[] [] [] [] [] [] [] []]; vm_compute; intros H; try discriminate; auto 8. Qed.

Lemma num_start_value_start c : num_start c = true -> value_start c = true.
Proof. unfold num_start, value_start. intros H. rewrite !orb_true_iff in *. tauto. Qed.

Lemma parse_value_num n c s :
  num_start c = true ->
  parse_value (S n) (c :: s) = of_option (option_map (fun p => (JNumber (Finite (fst p)), snd p)) (lex_number (c :: s))).
Proof.
  intros Hc. destruct (num_start_cases c Hc) as (Hw & Ho & Ha & Hq & Ht & Hf & Hn).
  cbn [parse_value]. rewrite skip_ws_stop by exact Hw. rewrite Ho, Ha, Hq.
  change (strip_prefix (str "true") (c :: s)) with (if "t"%char =c c then strip_prefix (str "rue") s else None).
  change (strip_prefix (str "false") (c :: s)) with (if "f"%char =c c then strip_prefix (str "alse") s else None).
  change (strip_prefix (str "null") (c :: s)) with (if "n"%char =c c then strip_prefix (str "ull") s else None).
  now rewrite Ht, Hf, Hn.
Qed.

Lemma reads_back_null : reads_back (str "null") JNull.
Proof. intros r _. exists 1. reflexivity. Qed.

Lemma reads_back_bool (b : bool) : reads_back (if b then str "true" else str "false") (JBool b).
Proof. intros r _. exists 1. destruct b; reflexivity. Qed.

Lemma reads_back_string s : reads_back (quote_json s) (JString s).
Proof.
  intros r _. exists 1.
  assert (E : quote_json s ++ r = ch_quote :: (flat_map quote_char s ++ ch_quote :: r))
    by (unfold quote_json; cbn [app]; now rewrite <- app_assoc).
  rewrite E. cbn [parse_value]. rewrite skip_ws_stop by reflexivity. change (ch_quote =c "{"%char) with false. change (ch_quote =c "["%char) with false.
  change (ch_quote =c ch_quote) with true. cbv iota beta. now rewrite lex_string_quoted.
Qed.

Section RoundTrip.
Context {NF : NumberFormat}.

(** The number format prints [q] in a way [lex_number] reads back. *)
Definition number_roundtrips (q : Q) : Prop :=
  forall r, number_delimited r = true -> lex_number (number_to_string q ++ r) = Some (Qred q, r).

Lemma number_text_start q : exists c t', number_to_string q = c :: t' /\ num_start c = true.
Proof.
  destruct (number_to_string_shape q) as (sg & ds & fr & ex & E & Hsg & [Hne Hds] & _ & _).
  rewrite E. destruct Hsg as [->| ->]; [destruct ds as [|c ds]; [congruence|]|].
  - cbn [forallb] in Hds. apply andb_true_iff in Hds as [Hc _].
    do 2 eexists. split; [reflexivity|]. unfold num_start. now rewrite Hc.
  - do 2 eexists. split; reflexivity.
Qed.

Lemma reads_back_number q : number_roundtrips q -> reads_back (number_to_string q) (JNumber (Finite (Qred q))).
Proof.
  intros H r Hr. exists 1. destruct (number_text_start q) as (c & t' & E & Hc).
  rewrite E. cbn [app]. rewrite parse_value_num by exact Hc.
  change (c :: t' ++ r) with ((c :: t') ++ r). rewrite <- E, (H r Hr). reflexivity.
Qed.

Lemma serialize_None d v : serialize (fun _ t => t) d v = None -> v = JUndefined.
Proof. destruct v as [| | |[]| | |]; simpl; congruence. Qed.

Lemma serialize_head d v t :
  serialize (fun _ t => t) d v = Some t -> exists c t', t = c :: t' /\ value_start c = true.
Proof.
  destruct v as [| |b|[|neg|q]|s|l|ps]; cbn [serialize]; intros H; inv H;
    try (do 2 eexists; split; reflexivity).
  - destruct b; do 2 eexists; split; reflexivity.
  - destruct (number_text_start q) as (c & t' & E & Hc). rewrite E.
    do 2 eexists. split; [reflexivity|]. now apply num_start_value_start.
  - unfold layout. destruct (map _ l); do 2 eexists; split; reflexivity.
  - unfold layout. destruct (flat_map _ ps); do 2 eexists; split; reflexivity.
Qed.

(** What the induction on values carries. *)
Definition serial_rt (v : jsval) : Prop :=
  forall d t, serialize (fun _ t => t) d v = Some t -> objects_wf v = true ->
  (forall q, In q (numbers v) -> number_roundtrips q) -> reads_back t (json_norm v).

(** After the opening bracket and its line break, the parser is at the
    first item. *)
Lemma skip_ws_open d t0 rest :
  (exists c t', t0 = c :: t' /\ value_start c = true) ->
  exists c x, skip_ws (ch_nl :: indent (S d) ++ t0 ++ rest) = c :: x /\ c :: x = t0 ++ rest /\
              (c =c "]"%char) = false /\ (c =c "}"%char) = false.
Proof.
  intros (c & t' & -> & Hc). destruct (value_start_stop c Hc) as (Hw & Hb & Hr).
  exists c, (t' ++ rest). change (ch_nl :: indent (S d) ++ (c :: t') ++ rest) with ((ch_nl :: indent (S d)) ++ c :: t' ++ rest).
  rewrite skip_ws_ws by apply layout_ws. rewrite skip_ws_stop by exact Hw. auto.
Qed.

(** An array layout reads back once its items do. *)
Lemma parse_layout_array d items ws r :
  (exists c t', hd [] items = c :: t' /\ value_start c = true) ->
  (exists n, parse_elements n (join (item_sep d) items ++ ch_nl :: indent d ++ "]"%char :: r) = POk ws r) ->
  exists n, parse_value n (layout "["%char "]"%char d items ++ r) = POk (JArray ws) r.
Proof.
  intros Hh (n & Hn). exists (S n). destruct items as [|t0 items]; [destruct Hh as (c & t' & [=] & _)|].
  cbn [hd] in Hh. unfold layout. fold (item_sep d). cbn [app]. rewrite <- !app_assoc. cbn [app].
  cbn [parse_value]. rewrite skip_ws_stop by reflexivity.
  change ("["%char =c "{"%char) with false. change ("["%char =c "["%char) with true. cbv iota beta.
  destruct items as [|t1 items].
  - cbn [join] in Hn |- *. rewrite <- !app_assoc. cbn [app].
    destruct (skip_ws_open d t0 (ch_nl :: indent d ++ "]"%char :: r) Hh) as (c & x & Ew & Ex & Hb & _).
    rewrite Ew, Hb, Ex, Hn. reflexivity.
  - change (join (item_sep d) (t0 :: t1 :: items)) with (t0 ++ item_sep d ++ join (item_sep d) (t1 :: items)) in Hn |- *.
    repeat rewrite <- app_assoc in Hn |- *. cbn [app]. repeat rewrite <- app_assoc. cbn [app].
    destruct (skip_ws_open d t0 (item_sep d ++ join (item_sep d) (t1 :: items) ++ ch_nl :: indent d ++ "]"%char :: r) Hh)
      as (c & x & Ew & Ex & Hb & _).
    rewrite Ew, Hb, Ex, Hn. reflexivity.
Qed.

Lemma reads_back_array l :
  Forall serial_rt l -> serial_rt (JArray l).
Proof.
  intros IH d t Hs Hwf Hn.
  set (f := fun x => match serialize (fun _ t => t) (S d) x with Some t => t | None => str "null" end).
  set (g := fun x => match x with JUndefined => JNull | _ => json_norm x end).
  assert (Ht : t = layout "["%char "]"%char d (map f l)) by (cbn [serialize] in Hs; inv Hs; reflexivity).
  subst t. change (json_norm (JArray l)) with (JArray (map g l)).
  cbn [objects_wf numbers] in Hwf, Hn.
  assert (Hall : Forall2 reads_back (map f l) (map g l)).
  { induction IH as [|x l Hx IH' IHl]; [constructor|]. cbn [forallb] in Hwf.
    apply andb_true_iff in Hwf as [Hwx Hwl]. cbn [map]. constructor.
    - unfold f, g. destruct (serialize (fun _ t => t) (S d) x) as [tx|] eqn:Es.
      + replace (match x with JUndefined => JNull | _ => json_norm x end) with (json_norm x)
          by (destruct x; try reflexivity; discriminate).
        apply (Hx (S d)); auto. intros q Hq. apply Hn. cbn [flat_map]. apply in_or_app. now left.
      + apply serialize_None in Es. subst x. exact reads_back_null.
    - apply IHl; auto. intros q Hq. apply Hn. cbn [flat_map]. apply in_or_app. now right. }
  intros r Hr. destruct l as [|x0 l]; [exists 1; reflexivity|].
  apply parse_layout_array.
  - cbn [map hd]. unfold f. destruct (serialize (fun _ t => t) (S d) x0) as [t0|] eqn:E0.
    + exact (serialize_head _ _ _ E0).
    + do 2 eexists. split; reflexivity.
  - exact (parse_elements_join d _ _ r Hall ltac:(discriminate)).
Qed.

(** An object layout reads back once its members do. *)
Lemma parse_layout_object d items v r :
  (exists c t', hd [] items = c :: t' /\ value_start c = true) ->
  (exists n, parse_members n (join (item_sep d) items ++ ch_nl :: indent d ++ "}"%char :: r) [] = POk v r) ->
  exists n, parse_value n (layout "{"%char "}"%char d items ++ r) = POk v r.
Proof.
  intros Hh (n & Hn). exists (S n). destruct items as [|t0 items]; [destruct Hh as (c & t' & [=] & _)|].
  cbn [hd] in Hh. unfold layout. fold (item_sep d). cbn [app]. repeat rewrite <- app_assoc. cbn [app].
  cbn [parse_value]. rewrite skip_ws_stop by reflexivity.
  change ("{"%char =c "{"%char) with true. cbv iota beta.
  destruct items as [|t1 items].
  - cbn [join] in Hn |- *. repeat rewrite <- app_assoc. cbn [app].
    destruct (skip_ws_open d t0 (ch_nl :: indent d ++ "}"%char :: r) Hh) as (c & x & Ew & Ex & _ & Hb).
    rewrite Ew, Hb, Ex, Hn. reflexivity.
  - change (join (item_sep d) (t0 :: t1 :: items)) with (t0 ++ item_sep d ++ join (item_sep d) (t1 :: items)) in Hn |- *.
    repeat rewrite <- app_assoc in Hn |- *. cbn [app]. repeat rewrite <- app_assoc. cbn [app].
    destruct (skip_ws_open d t0 (item_sep d ++ join (item_sep d) (t1 :: items) ++ ch_nl :: indent d ++ "}"%char :: r) Hh)
      as (c & x & Ew & Ex & _ & Hb).
    rewrite Ew, Hb, Ex, Hn. reflexivity.
Qed.

(** The members [JSON.stringify] writes: those whose value is not
    [undefined], with the text of the value. *)
Definition kept_members (d : nat) (ps : list (text * jsval)) : list (text * text * jsval) :=
  flat_map (fun kv => match serialize (fun _ t => t) (S d) (snd kv) with
                      | Some t => [(fst kv, t, json_norm (snd kv))]
                      | None => []
                      end) ps.

Definition defined (kv : text * jsval) : bool := match snd kv with JUndefined => false | _ => true end.

Lemma serialize_object_text d ps :
  serialize (fun _ t => t) d (JObject ps) =
  Some (layout "{"%char "}"%char d (map (fun i => member_text (item_key i) (item_text i)) (kept_members d ps))).
Proof.
  cbn [serialize]. do 2 f_equal. unfold kept_members.
  induction ps as [|[k x] ps IH]; [reflexivity|]. cbn [flat_map]. rewrite map_app, <- IH.
  cbn [fst snd]. destruct (serialize (fun _ t => t) (S d) x); reflexivity.
Qed.

Lemma serialize_defined d v : v <> JUndefined -> exists t, serialize (fun _ t => t) d v = Some t.
Proof. destruct v as [| | |[]| | |]; simpl; try congruence; eauto. Qed.

Lemma json_norm_object d ps :
  json_norm (JObject ps) = JObject (map (fun i => (item_key i, item_value i)) (kept_members d ps)).
Proof.
  cbn [json_norm]. f_equal. unfold kept_members.
  induction ps as [|[k x] ps IH]; [reflexivity|]. cbn [flat_map]. rewrite map_app, <- IH.
  destruct x eqn:Ex; cbn [snd];
    try (destruct (serialize_defined (S d) x ltac:(subst; discriminate)) as (t & Ht); subst x; rewrite Ht);
    reflexivity.
Qed.

Lemma kept_keys d ps : map item_key (kept_members d ps) = map fst (filter defined ps).
Proof.
  unfold kept_members. induction ps as [|[k x] ps IH]; [reflexivity|]. cbn [flat_map filter].
  rewrite map_app, IH. unfold defined. cbn [snd fst].
  destruct x eqn:Ex;
    try (destruct (serialize_defined (S d) x ltac:(subst; discriminate)) as (t & Ht); subst x; rewrite Ht);
    reflexivity.
Qed.

Lemma keys_ordered_cons_le a l : keys_ordered (a :: l) = true -> forall b, In b l -> key_le a b = true.
Proof.
  revert a. induction l as [|b l IH]; [intros _ _ _ []|]. intros a H c Hc. cbn [keys_ordered] in H.
  apply andb_true_iff in H as [Hab Hl]. destruct Hc as [<-|Hc]; [exact Hab|].
  eapply key_le_trans; [exact Hab|]. now apply IH.
Qed.

Lemma keys_ordered_filter (f : text * jsval -> bool) ps :
  keys_ordered (map fst ps) = true -> keys_ordered (map fst (filter f ps)) = true.
Proof.
  induction ps as [|p ps IH]; [reflexivity|]. intros H.
  assert (Hps : keys_ordered (map fst ps) = true)
    by (cbn [map keys_ordered] in H; destruct (map fst ps); [reflexivity|]; apply andb_true_iff in H; apply H).
  cbn [filter]. destruct (f p); [|now apply IH].
  cbn [map]. specialize (IH Hps). destruct (map fst (filter f ps)) as [|b l] eqn:Ef; [reflexivity|].
  change (keys_ordered (fst p :: b :: l)) with (key_le (fst p) b && keys_ordered (b :: l)).
  rewrite IH, andb_true_r. apply (keys_ordered_cons_le _ _ H).
  assert (Hb : In b (map fst (filter f ps))) by (rewrite Ef; now left).
  apply in_map_iff in Hb as (q & <- & Hq). apply filter_In in Hq as [Hq _]. now apply in_map.
Qed.

Lemma keys_distinct_filter (f : text * jsval -> bool) ps :
  keys_distinct (map fst ps) = true -> keys_distinct (map fst (filter f ps)) = true.
Proof.
  induction ps as [|p ps IH]; [reflexivity|]. cbn [map keys_distinct filter].
  intros H. apply andb_true_iff in H as [H1 H2]. destruct (f p); [|now apply IH].
  cbn [map keys_distinct]. rewrite (IH H2), andb_true_r.
  apply negb_true_iff. apply negb_true_iff in H1. apply not_true_iff_false. intros Hx.
  apply existsb_exists in Hx as (k & Hk & Hkk). apply in_map_iff in Hk as (q & <- & Hq).
  apply filter_In in Hq as [Hq _]. apply not_true_iff_false in H1. apply H1.
  apply existsb_exists. exists (fst q). split; [now apply in_map|exact Hkk].
Qed.

Lemma reads_back_object ps :
  Forall (fun kv => serial_rt (snd kv)) ps -> serial_rt (JObject ps).
Proof.
  intros IH d t Hs Hwf Hn. rewrite serialize_object_text in Hs. inv Hs.
  rewrite (json_norm_object d ps).
  cbn [objects_wf numbers] in Hwf, Hn. apply andb_true_iff in Hwf as [Hk Hv].
  apply andb_true_iff in Hk as [Ho Hd].
  assert (Hall : Forall (fun i => reads_back (item_text i) (item_value i)) (kept_members d ps)).
  { clear Ho Hd. unfold kept_members. revert Hv Hn.
    induction IH as [|[k x] ps Hx IH' IHl]; intros Hv Hn; [constructor|].
    cbn [forallb] in Hv. apply andb_true_iff in Hv as [Hvx Hvl]. cbn [flat_map snd] in *.
    apply Forall_app. split.
    - destruct (serialize (fun _ t => t) (S d) x) as [tx|] eqn:Es; constructor; [|constructor].
      apply (Hx (S d)); auto. intros q Hq. apply Hn. apply in_or_app. now left.
    - apply IHl; [exact Hvl|]. intros q Hq. apply Hn. apply in_or_app. now right. }
  intros r Hr. destruct (kept_members d ps) as [|i0 items] eqn:Ek.
  - exists 1. reflexivity.
  - apply parse_layout_object.
    + cbn [map hd]. unfold member_text, quote_json. do 2 eexists. split; reflexivity.
    + rewrite <- Ek. rewrite <- Ek in Hall.
      destruct (parse_members_join d (kept_members d ps) [] r Hall ltac:(rewrite Ek; discriminate))
        as (n & Hn'); cbn [map app]; rewrite ?kept_keys;
        [apply keys_ordered_filter, Ho|apply keys_distinct_filter, Hd|].
      exists n. exact Hn'.
Qed.

Lemma serialize_reads_back v : serial_rt v.
Proof.
  induction v as [| |b|[|neg|q]|s|l IH|ps IH] using jsval_ind'; intros d t Hs Hw Hn; cbn [serialize] in Hs;
    try discriminate; inv Hs.
  - exact reads_back_null.
  - apply reads_back_bool.
  - exact reads_back_null.
  - exact reads_back_null.
  - apply reads_back_number, Hn. now left.
  - apply reads_back_string.
  - apply (reads_back_array l IH d); auto.
  - apply (reads_back_object ps IH d); auto.
Qed.

End RoundTrip.

Lemma parse_value_agree n m s :
  not_timeout (parse_value n s) -> not_timeout (parse_value m s) -> parse_value n s = parse_value m s.
Proof.
  intros Hn Hm.
  destruct (parse_fuel_le n (Nat.max n m) ltac:(lia)) as (Hn' & _ & _).
  destruct (parse_fuel_le m (Nat.max n m) ltac:(lia)) as (Hm' & _ & _).
  now rewrite <- (Hn' s Hn), (Hm' s Hm).
Qed.

Lemma parse_value_bound s : not_timeout (parse_value (2 * length s + 1) s).
Proof. destruct (parse_enough (2 * length s + 1)) as (H & _ & _). apply H. lia. Qed.

(** What [JSON_parse] reads from a whole text that a prefix parse reads. *)
Lemma JSON_parse_POk n s v :
  parse_value n s = POk v [] -> JSON_parse s = Returns v.
Proof.
  intros H. unfold JSON_parse.
  rewrite (parse_value_agree _ n s (parse_value_bound s)) by (rewrite H; exact I).
  now rewrite H.
Qed.

Lemma JSON_parse_stringify_gen {NF : NumberFormat} v t :
  JSON_stringify v = Some t -> objects_wf v = true ->
  (forall q, In q (numbers v) -> number_roundtrips q) ->
  JSON_parse t = Returns (json_norm v).
Proof.
  intros Hs Hw Hn. destruct (serialize_reads_back v 0 t Hs Hw Hn [] eq_refl) as (n & Hp).
  rewrite app_nil_r in Hp. exact (JSON_parse_POk _ _ _ Hp).
Qed.

(** The integer format prints every integral number so that it reads
    back. *)
Lemma int_number_roundtrips q :
  is_integer (Finite q) = true -> @number_roundtrips IntegerNumberFormat q.
Proof.
  intros Hi r Hr. cbn [number_to_string IntegerNumberFormat].
  rewrite lex_number_int_to_text by exact Hr. do 2 f_equal. apply Qred_complete.
  unfold is_integer in Hi. apply Z.eqb_eq in Hi. unfold to_Z, Qeq. simpl.
  apply Z.div_exact in Hi; [|lia]. lia.
Qed.

(** *** The objects [JSON.parse] builds are ordinary objects *)

Lemma keys_distinct_NoDup l : keys_distinct l = true <-> NoDup l.
Proof.
  induction l as [|a l IH]; cbn [keys_distinct]; [split; [constructor|reflexivity]|].
  rewrite andb_true_iff, negb_true_iff, IH. split.
  - intros [H1 H2]. constructor; [|exact H2]. intros Hin. apply not_true_iff_false in H1. apply H1.
    apply existsb_exists. exists a. split; [exact Hin|]. now apply key_eqb_true.
  - intros H. inversion H as [|? ? Hn Hd]; subst. split; [|exact Hd].
    apply not_true_iff_false. intros Hx. apply existsb_exists in Hx as (b & Hb & Hab).
    apply key_eqb_true in Hab. subst b. contradiction.
Qed.

Lemma keys_ordered_cons x l :
  keys_ordered (x :: l) = (match l with [] => true | y :: _ => key_le x y end) && keys_ordered l.
Proof. destruct l; reflexivity. Qed.

Lemma keys_ordered_snoc l k :
  keys_ordered l = true -> array_index k = None -> keys_ordered (l ++ [k]) = true.
Proof.
  intros Ho Hk. induction l as [|a l IH]; [reflexivity|]. cbn [app].
  rewrite keys_ordered_cons in Ho |- *. apply andb_true_iff in Ho as [H1 H2].
  rewrite (IH H2), andb_true_r. destruct l as [|b l]; [|exact H1].
  cbn [app]. unfold key_le. rewrite Hk. now destruct (array_index a).
Qed.

Lemma insert_index_perm k i v acc : Permutation (insert_index k i v acc) ((k, v) :: acc).
Proof.
  induction acc as [|p acc IH]; cbn [insert_index]; [reflexivity|].
  destruct (after_index i (fst p)); [reflexivity|].
  eapply perm_trans; [apply perm_skip, IH|apply perm_swap].
Qed.

Lemma insert_index_hd k i v acc :
  hd_error (map fst (insert_index k i v acc)) = Some k \/
  hd_error (map fst (insert_index k i v acc)) = hd_error (map fst acc).
Proof. destruct acc as [|p acc]; cbn [insert_index]; [now left|]. destruct (after_index i (fst p)); auto. Qed.

Lemma insert_index_ordered k i v acc :
  array_index k = Some i -> keys_ordered (map fst acc) = true ->
  keys_ordered (map fst (insert_index k i v acc)) = true.
Proof.
  intros Hk. induction acc as [|p acc IH]; intros Ho; [reflexivity|].
  cbn [insert_index]. cbn [map] in Ho. rewrite keys_ordered_cons in Ho. apply andb_true_iff in Ho as [H1 H2].
  destruct (after_index i (fst p)) eqn:Ea; cbn [map]; cbn [fst].
  - rewrite keys_ordered_cons, (keys_ordered_cons (fst p)), H1, H2. cbn [andb].
    unfold after_index in Ea. unfold key_le. rewrite Hk.
    destruct (array_index (fst p)); [|reflexivity]. rewrite andb_true_r.
    apply Z.leb_le. apply Z.ltb_lt in Ea. lia.
  - rewrite keys_ordered_cons, (IH H2), andb_true_r.
    unfold after_index in Ea. destruct (array_index (fst p)) as [j|] eqn:Ej; [|discriminate].
    apply Z.ltb_ge in Ea.
    destruct (insert_index_hd k i v acc) as [E|E];
      destruct (insert_index k i v acc) as [|[k' v'] l'] eqn:Ei; cbn [map hd_error fst] in E |- *;
      try reflexivity; try discriminate.
    + inv E. unfold key_le. rewrite Ej, Hk. now apply Z.leb_le.
    + destruct acc as [|[k'' v''] acc]; cbn [map hd_error fst] in E, H1; [discriminate|]. inv E. exact H1.
Qed.

Lemma obj_set_wf k v acc :
  objects_wf (JObject acc) = true -> objects_wf v = true -> objects_wf (JObject (obj_set k v acc)) = true.
Proof.
  cbn [objects_wf]. intros H Hv. apply andb_true_iff in H as [H Hvals]. apply andb_true_iff in H as [Ho Hd].
  unfold obj_set. destruct (key_in k acc) eqn:Hin.
  - assert (Hk : map fst (update k v acc) = map fst acc)
      by (unfold update; rewrite map_map; apply map_ext; intros p; now destruct (key_eqb k (fst p))).
    rewrite Hk, Ho, Hd. cbn [andb]. apply forallb_forall. intros p Hp. unfold update in Hp.
    apply in_map_iff in Hp as (p0 & <- & Hp0). destruct (key_eqb k (fst p0)); [exact Hv|].
    rewrite forallb_forall in Hvals. exact (Hvals p0 Hp0).
  - assert (Hnin : ~ In k (map fst acc)).
    { intros Hx. apply in_map_iff in Hx as (p & Hp & Hx). apply not_true_iff_false in Hin. apply Hin.
      apply existsb_exists. exists p. split; [exact Hx|]. apply key_eqb_true. now symmetry. }
    assert (Hnd : NoDup (k :: map fst acc)) by (constructor; [exact Hnin|now apply keys_distinct_NoDup]).
    destruct (array_index k) as [i|] eqn:Hi.
    + pose proof (insert_index_perm k i v acc) as Hp.
      rewrite (insert_index_ordered k i v acc Hi Ho). cbn [andb].
      apply andb_true_iff. split.
      * apply keys_distinct_NoDup. eapply Permutation_NoDup; [|exact Hnd].
        symmetry. exact (Permutation_map fst Hp).
      * apply forallb_forall. intros p Hpin. apply (Permutation_in _ Hp) in Hpin.
        destruct Hpin as [<-|Hpin]; [exact Hv|]. rewrite forallb_forall in Hvals. exact (Hvals p Hpin).
    + rewrite map_app. cbn [map fst]. rewrite (keys_ordered_snoc _ _ Ho Hi). cbn [andb].
      rewrite forallb_app, Hvals. cbn [forallb snd]. rewrite Hv. cbn [andb].
      rewrite andb_true_r. apply keys_distinct_NoDup.
      exact (Permutation_NoDup (Permutation_cons_append _ _) Hnd).
Qed.

Lemma parse_wf n :
  (forall s v r, parse_value n s = POk v r -> objects_wf v = true) /\
  (forall s vs r, parse_elements n s = POk vs r -> forallb objects_wf vs = true) /\
  (forall s acc v r, parse_members n s acc = POk v r -> objects_wf (JObject acc) = true ->
                     objects_wf v = true).
Proof.
  induction n as [|n (IHv & IHe & IHm)]; [repeat split; intros; discriminate|].
  repeat split.
  - intros s v r H. cbn [parse_value] in H.
    destruct (skip_ws s) as [|c r0]; [discriminate|].
    destruct (c =c "{"%char).
    { destruct (skip_ws r0) as [|d r']; [discriminate|]. destruct (d =c "}"%char); [now inv H|].
      exact (IHm _ _ _ _ H eq_refl). }
    destruct (c =c "["%char).
    { destruct (skip_ws r0) as [|d r']; [discriminate|]. destruct (d =c "]"%char); [now inv H|].
      destruct (parse_elements n (d :: r')) as [| |vs r''] eqn:He; inv H. exact (IHe _ _ _ He). }
    destruct (c =c ch_quote).
    { destruct (lex_string r0) as [[t r1]|]; inv H. reflexivity. }
    destruct (strip_prefix (str "true") (c :: r0)); [now inv H|].
    destruct (strip_prefix (str "false") (c :: r0)); [now inv H|].
    destruct (strip_prefix (str "null") (c :: r0)); [now inv H|].
    destruct (lex_number (c :: r0)) as [[q r1]|]; inv H. reflexivity.
  - intros s vs r H. rewrite parse_elements_S in H.
    destruct (parse_value n s) as [| |v r1] eqn:Hv; try discriminate. apply IHv in Hv.
    destruct (skip_ws r1) as [|c r2]; [discriminate|].
    destruct (c =c ch_comma).
    + destruct (parse_elements n r2) as [| |vs' r''] eqn:He; inv H. cbn [forallb].
      now rewrite Hv, (IHe _ _ _ He).
    + destruct (c =c "]"%char); inv H. cbn [forallb]. now rewrite Hv.
  - intros s acc v r H Hacc. rewrite parse_members_S in H.
    destruct (skip_ws s) as [|c r0]; [discriminate|]. destruct (c =c ch_quote); [|discriminate].
    destruct (lex_string r0) as [[k r1]|]; [|discriminate].
    destruct (skip_ws r1) as [|d r2]; [discriminate|]. destruct (d =c ch_colon); [|discriminate].
    destruct (parse_value n r2) as [| |w r3] eqn:Hw; try discriminate. apply IHv in Hw.
    pose proof (obj_set_wf k w acc Hacc Hw) as Hacc'.
    destruct (skip_ws r3) as [|e r4]; [discriminate|].
    destruct (e =c ch_comma); [exact (IHm _ _ _ _ H Hacc')|].
    destruct (e =c "}"%char); inv H. exact Hacc'.
Qed.

End JsonParseFacts.

Module JsonParseProps.
Import JsValue JsonStringify JsonParse JsonParseFacts.
Local Open Scope nat_scope.

(** A value with a key that is an array index, a property whose value
    is [undefined], an [undefined] array element, a negative number, a
    string with a quote, a line break and a control character. *)
Definition example_value : jsval :=
  JObject [(str "7", JArray [JNumber (of_Z 1); JUndefined; JNumber (of_Z (-20))]);
           (str "name", JString (str "a" ++ [ch_quote; ch_nl; "001"%char] ++ str "b"));
           (str "gone", JUndefined);
           (str "ok", JBool true); (str "none", JNull); (str "empty", JObject [])].

(** Round trip: what [JSON.stringify] writes, [JSON.parse] reads
    back as the same value up to what stringify drops (properties with
    value [undefined]) or replaces by [null] ([undefined] elements,
    NaN, the infinities), for every value whose objects are ordinary
    (distinct keys in [[OwnPropertyKeys]] order) and whose numbers are
    integers. *)
Theorem JSON_parse_stringify v t :
  @JSON_stringify IntegerNumberFormat v = Some t ->
  objects_wf v = true ->
  forallb (fun q => is_integer (Finite q)) (numbers v) = true ->
  JSON_parse t = Returns (json_norm v).
Proof.
  intros Hs Hw Hi. apply (JSON_parse_stringify_gen v t Hs Hw).
  intros q Hq. apply int_number_roundtrips. rewrite forallb_forall in Hi. exact (Hi q Hq).
Qed.

Lemma JSON_parse_stringify_witness :
  let t := match @JSON_stringify IntegerNumberFormat example_value with Some t => t | None => [] end in
  @JSON_stringify IntegerNumberFormat example_value = Some t /\
  objects_wf example_value = true /\
  forallb (fun q => is_integer (Finite q)) (numbers example_value) = true /\
  JSON_parse t = Returns (json_norm example_value).
Proof.
  intros t.
  assert (Hs : @JSON_stringify IntegerNumberFormat example_value = Some t) by (vm_compute; reflexivity).
  assert (Hw : objects_wf example_value = true) by (vm_compute; reflexivity).
  assert (Hi : forallb (fun q => is_integer (Finite q)) (numbers example_value) = true) by (vm_compute; reflexivity).
  exact (conj Hs (conj Hw (conj Hi (JSON_parse_stringify example_value t Hs Hw Hi)))).
Defined.

(** Termination: [JSON.parse]'s recursion through arrays and
    objects never runs out of its fuel of twice the length of the text
    plus one, and any larger fuel gives the same result. *)
Theorem parse_value_terminates s n :
  2 * length s + 1 <= n ->
  not_timeout (parse_value n s) /\ parse_value n s = parse_value (2 * length s + 1) s.
Proof.
  intros Hn. destruct (parse_enough n) as (Hv & _ & _).
  assert (H : not_timeout (parse_value n s)) by (apply Hv; exact Hn).
  split; [exact H|]. exact (parse_value_agree n _ s H (parse_value_bound s)).
Qed.

Lemma parse_value_terminates_witness :
  2 * length (str "[[[[1]]]]") + 1 <= 19 /\
  not_timeout (parse_value 19 (str "[[[[1]]]]")) /\
  parse_value 19 (str "[[[[1]]]]") = parse_value (2 * length (str "[[[[1]]]]") + 1) (str "[[[[1]]]]").
Proof.
  assert (H : 2 * length (str "[[[[1]]]]") + 1 <= 19) by (vm_compute; lia).
  exact (conj H (parse_value_terminates (str "[[[[1]]]]") 19 H)).
Defined.

(** Every value [JSON.parse] returns is made of ordinary objects:
    however often a key is repeated in the text, the keys of each object
    are distinct, array indices come first in ascending order and the
    other keys follow in the order of their first appearance. *)
Theorem JSON_parse_wf s v : JSON_parse s = Returns v -> objects_wf v = true.
Proof.
  unfold JSON_parse. destruct (parse_value (2 * length s + 1) s) as [| |w r] eqn:H; try discriminate.
  destruct (skip_ws r); [|discriminate]. intros E. inv E.
  destruct (parse_wf (2 * length s + 1)) as (Hv & _ & _). exact (Hv _ _ _ H).
Qed.

Lemma JSON_parse_wf_witness :
  JSON_parse (str "{" ++ [ch_quote] ++ str "b" ++ [ch_quote] ++ str ":1," ++
              [ch_quote] ++ str "2" ++ [ch_quote] ++ str ":2," ++
              [ch_quote] ++ str "b" ++ [ch_quote] ++ str ":3}") =
    Returns (JObject [(str "2", JNumber (of_Z 2)); (str "b", JNumber (of_Z 3))]) /\
  objects_wf (JObject [(str "2", JNumber (of_Z 2)); (str "b", JNumber (of_Z 3))]) = true.
Proof.
  assert (H : JSON_parse (str "{" ++ [ch_quote] ++ str "b" ++ [ch_quote] ++ str ":1," ++
              [ch_quote] ++ str "2" ++ [ch_quote] ++ str ":2," ++
              [ch_quote] ++ str "b" ++ [ch_quote] ++ str ":3}") =
    Returns (JObject [(str "2", JNumber (of_Z 2)); (str "b", JNumber (of_Z 3))])) by (vm_compute; reflexivity).
  exact (conj H (JSON_parse_wf _ _ H)).
Defined.

End JsonParseProps.
