(* ===== verification/Zod.v ===== *)
(** * The zod validators used by the schemas

    The schemas of src/src/lib/types are zod 4 objects.  This file
    models the part of zod they use, from zod's documented behaviour:
    [z.string()], [z.boolean()], [z.int().positive()], [z.enum],
    [z.nullable], [z.array], [z.object] and [z.url()].  A validator maps
    an untyped value to a typed value or to the list of issues found,
    each with the path of the offending field; an object or array
    collects the issues of all its fields and elements.  zod is library
    code, so everything here is modelled from its specification; the
    URL parser that [z.url()] calls is a parameter ([UrlParser]). *)
From Stdlib Require Import Ascii String List Bool Arith ZArith QArith Lia.
Import ListNotations.
From S2P Require Import Spec2Rocq JsValue.

Module Zod.
Import JsValue.

Inductive path_seg : Type :=
  | PKey (k : text)
  | PIdx (i : nat).

Inductive issue_code : Type :=
  | InvalidType (expected : text)
  | TooSmall
  | TooBig
  | InvalidValue
  | InvalidFormat (format : text).

Record issue : Type := mk_issue { path : list path_seg; code : issue_code }.

(** [safeParse]: the typed value, or the issues. *)
Inductive result (A : Type) : Type :=
  | Ok (a : A)
  | Err (issues : list issue).
Arguments Ok {A} a.
Arguments Err {A} issues.

Definition validator (A : Type) : Type := jsval -> result A.

Definition prefix_issue (seg : path_seg) (i : issue) : issue :=
  mk_issue (seg :: path i) (code i).

(** The issues of a nested validator are reported under the field's or
    the element's path segment. *)
Definition under {A} (seg : path_seg) (r : result A) : result A :=
  match r with
  | Ok a => Ok a
  | Err es => Err (map (prefix_issue seg) es)
  end.

Definition fail {A} (c : issue_code) : result A := Err [mk_issue [] c].

(** Applicative combination: both sides are checked and their issues
    are concatenated in order. *)
Definition ap {A B} (rf : result (A -> B)) (ra : result A) : result B :=
  match rf, ra with
  | Ok f, Ok a => Ok (f a)
  | Ok _, Err e => Err e
  | Err e, Ok _ => Err e
  | Err e1, Err e2 => Err (e1 ++ e2)
  end.

Declare Scope zod_scope.
Delimit Scope zod_scope with zod.
Notation "f <*> x" := (ap f x) (at level 50, left associativity) : zod_scope.
Open Scope zod_scope.

(** [z.string()] *)
Definition z_string : validator text :=
  fun v => match v with JString s => Ok s | _ => fail (InvalidType (str "string")) end.

(** [z.boolean()] *)
Definition z_boolean : validator bool :=
  fun v => match v with JBool b => Ok b | _ => fail (InvalidType (str "boolean")) end.

(** The checks of a number schema.  A check reports issues, each with
    its [continue] flag; after an issue without it the remaining checks
    are skipped. *)
Definition check : Type := Q -> list (issue_code * bool).

Fixpoint run_checks (cs : list check) (q : Q) : list issue_code :=
  match cs with
  | [] => []
  | c :: cs' =>
      let res := c q in
      map fst res ++ (if forallb snd res then run_checks cs' q else [])
  end.

(** The [safeint] format of [z.int()]: a non-integer is an invalid type
    and aborts; an integer outside the safe range is too big or too
    small and lets the later checks run. *)
Definition safeint_check : check :=
  fun q =>
    if negb (is_integer (Finite q)) then [(InvalidType (str "int"), false)]
    else if is_safe_integer (Finite q) then []
    else if (0 <? Qnum q)%Z then [(TooBig, true)] else [(TooSmall, true)].

(** [.positive()]: greater than zero. *)
Definition positive_check : check :=
  fun q => if (0 <? Qnum q)%Z then [] else [(TooSmall, true)].

(** [z.int().positive()]: the number type (finite, not NaN), then the
    checks; the output is the integer. *)
Definition z_int_positive : validator Z :=
  fun v =>
    match v with
    | JNumber (Finite q) =>
        match run_checks [safeint_check; positive_check] q with
        | [] => Ok (to_Z q)
        | cs => Err (map (mk_issue []) cs)
        end
    | _ => fail (InvalidType (str "number"))
    end.

(** [z.enum([...])]: the value is one of the listed strings. *)
Fixpoint enum_lookup {A} (vals : list (text * A)) (s : text) : option A :=
  match vals with
  | [] => None
  | (k, a) :: vs => if list_eq_dec ascii_dec k s then Some a else enum_lookup vs s
  end.

Definition z_enum {A} (vals : list (text * A)) : validator A :=
  fun v =>
    match v with
    | JString s => match enum_lookup vals s with Some a => Ok a | None => fail InvalidValue end
    | _ => fail InvalidValue
    end.

(** [z.nullable(p)] *)
Definition z_nullable {A} (p : validator A) : validator (option A) :=
  fun v => match v with JNull => Ok None | _ => match p v with Ok a => Ok (Some a) | Err e => Err e end end.

(** [z.array(p)]: every element, under its index. *)
Fixpoint array_items {A} (p : validator A) (i : nat) (l : list jsval) : result (list A) :=
  match l with
  | [] => Ok []
  | x :: xs => Ok cons <*> under (PIdx i) (p x) <*> array_items p (S i) xs
  end.

Definition z_array {A} (p : validator A) : validator (list A) :=
  fun v => match v with JArray l => array_items p 0 l | _ => fail (InvalidType (str "array")) end.

(** A field of [z.object({...})]: the property's value, [undefined]
    when it is missing, checked under the key. *)
Definition field {A} (k : text) (p : validator A) (ps : list (text * jsval)) : result A :=
  under (PKey k) (p (get k ps)).

(** [z.object({...})]: a plain object, whose fields the body checks;
    keys outside the shape are dropped. *)
Definition z_object {A} (body : list (text * jsval) -> result A) : validator A :=
  fun v => match v with JObject ps => body ps | _ => fail (InvalidType (str "object")) end.

(** [z.url()] calls the WHATWG URL parser, which is a parameter: it
    accepts a string, giving the value to output, or rejects it.
    Parsing its own output again accepts it unchanged. *)
Class UrlParser := {
  url_parse : text -> option text;
  url_parse_idem : forall s t, url_parse s = Some t -> url_parse t = Some t
}.

Definition z_url {U : UrlParser} : validator text :=
  fun v =>
    match v with
    | JString s => match url_parse s with Some t => Ok t | None => fail (InvalidFormat (str "url")) end
    | _ => fail (InvalidType (str "string"))
    end.

(** ** The contract between a schema and its clients

    A schema parses untyped values into a type, its values have an
    encoding back into untyped values, and [valid] is the invariant its
    outputs satisfy.  The laws say that parsing is sound (every output
    is valid) and that valid values survive encoding and re-parsing
    unchanged.  The object schemas that contain other schemas are
    proved against this interface. *)
Class Schema (A : Type) := {
  parse : validator A;
  encode : A -> jsval;
  valid : A -> Prop
}.

Class SchemaLaws (A : Type) `{Schema A} := {
  parse_encode : forall a, valid a -> parse (encode a) = Ok a;
  parse_valid : forall v a, parse v = Ok a -> valid a
}.

(** A parser for the witnesses: absolute URLs of the web schemes, kept
    as written. *)
Definition url_schemes : list text :=
  [str "http://"; str "https://"; str "ws://"; str "wss://"].

Definition scheme_url_parse (s : text) : option text :=
  if existsb (fun p => match strip_prefix p s with Some (_ :: _) => true | _ => false end) url_schemes
  then Some s else None.

Definition scheme_url_parser : UrlParser.
Proof.
  refine {| url_parse := scheme_url_parse |}.
  intros s t. unfold scheme_url_parse. destruct existsb eqn:E; intros H; inv H. now rewrite E.
Defined.

End Zod.

Module ZodFacts.
Import JsValue Zod.

Lemma ap_Ok_inv {A B} (rf : result (A -> B)) (ra : result A) b :
  ap rf ra = Ok b -> exists f a, rf = Ok f /\ ra = Ok a /\ b = f a.
Proof. destruct rf, ra; simpl; intros H; inv H; eauto. Qed.

(** The issues of either side are among the issues of the combination. *)
Lemma ap_Err_l {A B} (rf : result (A -> B)) (ra : result A) e :
  rf = Err e -> exists E, ap rf ra = Err E /\ incl e E.
Proof. intros ->. destruct ra; simpl; eexists; split; eauto using incl_refl, incl_appl. Qed.

Lemma ap_Err_r {A B} (rf : result (A -> B)) (ra : result A) e :
  ra = Err e -> exists E, ap rf ra = Err E /\ incl e E.
Proof. intros ->. destruct rf; simpl; eexists; split; eauto using incl_refl, incl_appr. Qed.

Lemma ap_Err_any {A B} (rf : result (A -> B)) (ra : result A) :
  (exists e, rf = Err e) \/ (exists e, ra = Err e) -> exists E, ap rf ra = Err E.
Proof. intros [[e ->]|[e ->]]; [destruct ra|destruct rf]; simpl; eauto. Qed.

Lemma under_Ok {A} seg (r : result A) a : under seg r = Ok a <-> r = Ok a.
Proof. destruct r; simpl; split; intros H; inv H; reflexivity. Qed.

Lemma get_hd k v ps : get k ((k, v) :: ps) = v.
Proof. simpl. now destruct (list_eq_dec ascii_dec k k). Qed.

Lemma get_tl k k' v ps : k' <> k -> get k ((k', v) :: ps) = get k ps.
Proof. intros H. simpl. now destruct (list_eq_dec ascii_dec k' k). Qed.

Lemma get_app_notin k ps extra :
  ~ In k (map fst extra) -> get k (ps ++ extra) = get k ps.
Proof.
  intros Hk. induction ps as [|[k' v] ps IH]; simpl.
  - induction extra as [|[k'' v'] extra IHe]; simpl in *; [reflexivity|].
    destruct (list_eq_dec ascii_dec k'' k); [tauto|]. apply IHe. tauto.
  - now rewrite IH.
Qed.

(** *** Reported issues

    [reports r e]: the result is an error and lists every issue of [e].
    Issues propagate through [ap] on both sides and through [under]. *)
Definition reports {A} (r : result A) (e : list issue) : Prop :=
  exists E, r = Err E /\ incl e E.

Lemma reports_Err {A} (r : result A) e : r = Err e -> reports r e.
Proof. intros ->. exists e. split; [reflexivity|apply incl_refl]. Qed.

Lemma reports_ap_l {A B} (rf : result (A -> B)) (ra : result A) e :
  reports rf e -> reports (ap rf ra) e.
Proof.
  intros (E & HE & I). destruct (ap_Err_l rf ra E HE) as (E' & H' & I').
  exists E'. split; [exact H'|]. eapply incl_tran; eauto.
Qed.

Lemma reports_ap_r {A B} (rf : result (A -> B)) (ra : result A) e :
  reports ra e -> reports (ap rf ra) e.
Proof.
  intros (E & HE & I). destruct (ap_Err_r rf ra E HE) as (E' & H' & I').
  exists E'. split; [exact H'|]. eapply incl_tran; eauto.
Qed.

Lemma reports_under {A} seg (r : result A) e :
  reports r e -> reports (under seg r) (map (prefix_issue seg) e).
Proof.
  intros (E & -> & I). exists (map (prefix_issue seg) E). split; [reflexivity|].
  intros i Hi. apply in_map_iff in Hi as (j & <- & Hj). apply in_map, I, Hj.
Qed.

Lemma reports_app {A} (r : result A) e1 e2 :
  reports r e1 -> reports r e2 -> reports (A := A) r (e1 ++ e2).
Proof.
  intros (E1 & H1 & I1) (E2 & H2 & I2). rewrite H1 in H2. inv H2.
  exists E2. split; [reflexivity|]. now apply incl_app.
Qed.

Lemma reports_field_nested {A} k (p : validator A) ps e :
  reports (p (get k ps)) e -> reports (field k p ps) (map (prefix_issue (PKey k)) e).
Proof. apply reports_under. Qed.

Lemma reports_field {A} k (p : validator A) ps e :
  p (get k ps) = Err e -> reports (field k p ps) (map (prefix_issue (PKey k)) e).
Proof. intros H. apply reports_field_nested, reports_Err, H. Qed.

(** *** [z.int().positive()] *)

Lemma to_Z_inject z : to_Z (inject_Z z) = z.
Proof. unfold to_Z. simpl. apply Z.div_1_r. Qed.

Lemma z_int_positive_Ok v z :
  z_int_positive v = Ok z <->
  exists q, v = JNumber (Finite q) /\ is_safe_integer (Finite q) = true /\
            (0 < Qnum q)%Z /\ z = to_Z q.
Proof.
  split.
  - destruct v as [| | |[| |q]| | |]; simpl; try discriminate.
    unfold safeint_check, positive_check.
    destruct (is_integer (Finite q)) eqn:Hi; simpl; [|discriminate].
    destruct (is_safe_integer (Finite q)) eqn:Hs; simpl;
      destruct (0 <? Qnum q)%Z eqn:Hp; simpl; try discriminate.
    intros H; inv H. exists q. repeat split; auto. now apply Z.ltb_lt.
  - intros (q & -> & Hs & Hp & ->). simpl. unfold safeint_check, positive_check.
    assert (Hi : is_integer (Finite q) = true)
      by (unfold is_safe_integer in Hs; apply andb_true_iff in Hs; tauto).
    rewrite Hi, Hs. apply Z.ltb_lt in Hp. rewrite Hp. reflexivity.
Qed.

Lemma is_safe_integer_of_Z z :
  is_safe_integer (of_Z z) = (Z.abs z <=? MAX_SAFE_INTEGER)%Z.
Proof.
  unfold is_safe_integer, is_integer, of_Z. simpl.
  rewrite Z.mod_1_r, to_Z_inject. reflexivity.
Qed.

Lemma z_int_positive_of_Z z :
  (0 < z <= MAX_SAFE_INTEGER)%Z -> z_int_positive (JNumber (of_Z z)) = Ok z.
Proof.
  intros Hz. apply z_int_positive_Ok. exists (inject_Z z).
  repeat split.
  - change (Finite (inject_Z z)) with (of_Z z). rewrite is_safe_integer_of_Z.
    apply Z.leb_le. lia.
  - simpl. lia.
  - now rewrite to_Z_inject.
Qed.

Lemma z_int_positive_range v z :
  z_int_positive v = Ok z -> (0 < z <= MAX_SAFE_INTEGER)%Z.
Proof.
  intros H. apply z_int_positive_Ok in H as (q & -> & Hs & Hp & ->).
  unfold is_safe_integer, is_integer in Hs. apply andb_true_iff in Hs as [Hi Hs].
  apply Z.eqb_eq in Hi. apply Z.leb_le in Hs. unfold to_Z in *.
  pose proof (Z.div_mod (Qnum q) (Zpos (Qden q)) ltac:(lia)) as Hdm.
  rewrite Hi, Z.add_0_r in Hdm. split; [|lia].
  destruct (Z.le_gt_cases (Qnum q / Zpos (Qden q)) 0); [|lia].
  assert (Zpos (Qden q) * (Qnum q / Zpos (Qden q)) <= 0)%Z by nia. lia.
Qed.

Lemma z_int_positive_accepts n :
  (exists z, z_int_positive (JNumber n) = Ok z) <->
  is_safe_integer n && num_gt_zero n = true.
Proof.
  split.
  - intros [z H]. apply z_int_positive_Ok in H as (q & E & Hs & Hp & _). inv E.
    rewrite Hs. simpl. now apply Z.ltb_lt.
  - intros H. apply andb_true_iff in H as [Hs Hp].
    destruct n as [|neg|q]; try discriminate.
    exists (to_Z q). apply z_int_positive_Ok. exists q. repeat split; auto.
    now apply Z.ltb_lt.
Qed.

(** An integer above the safe range is reported as too big. *)
Lemma z_int_positive_unsafe z :
  (MAX_SAFE_INTEGER < z)%Z ->
  z_int_positive (JNumber (of_Z z)) = Err [mk_issue [] TooBig].
Proof.
  intros Hz. pose proof (is_safe_integer_of_Z z) as Hs.
  unfold z_int_positive, of_Z in *. cbn [run_checks].
  unfold safeint_check, positive_check. rewrite Hs.
  assert (Hi : is_integer (Finite (inject_Z z)) = true)
    by (unfold is_integer; simpl; now rewrite Z.mod_1_r).
  rewrite Hi. simpl Qnum.
  replace (Z.abs z <=? MAX_SAFE_INTEGER)%Z with false by (symmetry; apply Z.leb_gt; lia).
  replace (0 <? z)%Z with true by (symmetry; apply Z.ltb_lt; unfold MAX_SAFE_INTEGER in Hz; lia).
  reflexivity.
Qed.

Lemma enum_lookup_In {A} (vals : list (text * A)) s a :
  enum_lookup vals s = Some a -> In (s, a) vals.
Proof.
  induction vals as [|[k b] vs IH]; simpl; [discriminate|].
  destruct (list_eq_dec ascii_dec k s) as [<-|]; [intros H; inv H; auto|eauto].
Qed.

Lemma z_enum_Ok {A} (vals : list (text * A)) v a :
  z_enum vals v = Ok a -> exists s, v = JString s /\ In (s, a) vals.
Proof.
  unfold z_enum. destruct v; try discriminate.
  destruct (enum_lookup vals s) eqn:E; intros H; inv H. eauto using enum_lookup_In.
Qed.

Lemma z_enum_cases {A} (vals : list (text * A)) v :
  (exists a, z_enum vals v = Ok a) \/ z_enum vals v = Err [mk_issue [] InvalidValue].
Proof.
  unfold z_enum, fail. destruct v; auto. destruct (enum_lookup vals s); eauto.
Qed.

(** *** Arrays *)

Lemma array_items_encode {A} `{Schema A} (l : list A) i :
  (forall a, In a l -> parse (encode a) = Ok a) ->
  array_items parse i (map encode l) = Ok l.
Proof.
  revert i. induction l as [|a l IH]; intros i Hl; [reflexivity|].
  simpl. rewrite Hl by (now left). rewrite IH by (intros; apply Hl; now right).
  reflexivity.
Qed.

Lemma array_items_Ok {A} (p : validator A) i l xs :
  array_items p i l = Ok xs -> Forall2 (fun v a => p v = Ok a) l xs.
Proof.
  revert i xs. induction l as [|v l IH]; intros i xs H; cbn [array_items] in H.
  - inv H. constructor.
  - apply ap_Ok_inv in H as (f & r & Hf & Hr & ->).
    apply ap_Ok_inv in Hf as (c & a & Hc & Ha & ->). inv Hc.
    apply under_Ok in Ha. constructor; eauto.
Qed.

(** An element that fails is reported under its index. *)
Lemma array_items_Err {A} (p : validator A) i l j v e :
  nth_error l j = Some v -> p v = Err e ->
  exists E, array_items p i l = Err E /\ incl (map (prefix_issue (PIdx (i + j))) e) E.
Proof.
  revert i j. induction l as [|x l IH]; intros i j Hj Hv; [destruct j; discriminate|].
  destruct j as [|j]; simpl in Hj.
  - inv Hj. simpl. rewrite Hv, Nat.add_0_r. simpl.
    destruct (array_items p (S i) l); eexists; split; eauto using incl_refl, incl_appl.
  - destruct (IH (S i) j Hj Hv) as [E [HE Hinc]]. cbn [array_items]. rewrite HE.
    replace (i + S j)%nat with (S i + j)%nat by lia.
    destruct (under (PIdx i) (p x)) as [a|e1]; simpl;
      eexists; split; eauto using incl_appr.
Qed.

Lemma z_array_encode {A} `{SchemaLaws A} (l : list A) :
  Forall valid l -> z_array parse (JArray (map encode l)) = Ok l.
Proof.
  intros Hl. apply array_items_encode. intros a Ha.
  apply parse_encode. rewrite Forall_forall in Hl. auto.
Qed.

Lemma z_array_valid {A} `{SchemaLaws A} v (l : list A) :
  z_array parse v = Ok l -> Forall valid l.
Proof.
  destruct v; try discriminate. intros Hv. apply array_items_Ok in Hv.
  induction Hv; constructor; eauto using parse_valid.
Qed.

(** The issues of an element, however deep, are reported under its
    index. *)
Lemma reports_array {A} (p : validator A) l j v e :
  nth_error l j = Some v -> reports (p v) e ->
  reports (z_array p (JArray l)) (map (prefix_issue (PIdx j)) e).
Proof.
  intros Hj (E & HE & I). destruct (array_items_Err p 0 l j v E Hj HE) as (E' & H' & I').
  exists E'. split; [exact H'|]. eapply incl_tran; [|exact I']. now apply incl_map.
Qed.

(** *** Acceptance of the primitives, declaratively

    What each primitive validator accepts, as a relation between the
    untyped value and the output. *)

(** A JavaScript number that is the safe positive integer [z]. *)
Definition int_rep (v : jsval) (z : Z) : Prop :=
  exists q, v = JNumber (Finite q) /\ (q == inject_Z z)%Q /\ (0 < z <= MAX_SAFE_INTEGER)%Z.

Lemma z_int_positive_iff v z : z_int_positive v = Ok z <-> int_rep v z.
Proof.
  unfold int_rep. split.
  - intros H. pose proof (z_int_positive_range _ _ H) as Hr.
    apply z_int_positive_Ok in H as (q & -> & Hs & Hp & ->).
    exists q. split; [reflexivity|]. split; [|exact Hr].
    unfold is_safe_integer, is_integer in Hs. apply andb_true_iff in Hs as [Hi _].
    apply Z.eqb_eq in Hi. unfold Qeq, to_Z. cbn [Qnum Qden inject_Z]. rewrite Z.mul_1_r.
    pose proof (Z.div_mod (Qnum q) (Zpos (Qden q)) ltac:(lia)). lia.
  - intros (q & -> & Hq & Hz). apply z_int_positive_Ok. exists q. unfold Qeq in Hq. cbn [Qnum Qden inject_Z] in Hq.
    rewrite Z.mul_1_r in Hq. unfold is_safe_integer, is_integer, to_Z.
    rewrite Hq, Z_mod_mult, Z_div_mult by lia. cbn. repeat split.
    + apply Z.leb_le. change MAX_SAFE_INTEGER with 9007199254740991%Z in Hz. lia.
    + lia.
Qed.

Lemma z_array_iff {A} (p : validator A) v l :
  z_array p v = Ok l <-> exists vs, v = JArray vs /\ Forall2 (fun x a => p x = Ok a) vs l.
Proof.
  split.
  - destruct v as [| | | | |vs|]; try discriminate. intros H. exists vs. split; [reflexivity|].
    exact (array_items_Ok p 0 vs l H).
  - intros (vs & -> & H). cbn. generalize 0%nat. induction H as [|x a vs l Hx _ IH]; intros i; [reflexivity|].
    cbn [array_items]. rewrite Hx, IH. reflexivity.
Qed.

Lemma z_url_iff {U : UrlParser} v t :
  z_url v = Ok t <-> exists s, v = JString s /\ url_parse s = Some t.
Proof.
  split.
  - destruct v; try discriminate. unfold z_url. destruct (url_parse s) eqn:E; intros H; inv H. eauto.
  - intros (s & -> & E). unfold z_url. now rewrite E.
Qed.

Lemma z_string_iff v s : z_string v = Ok s <-> v = JString s.
Proof. destruct v; split; intros H; inv H; reflexivity. Qed.

Lemma z_boolean_iff v b : z_boolean v = Ok b <-> v = JBool b.
Proof. destruct v; split; intros H; inv H; reflexivity. Qed.

Lemma ap_Ok_iff {A B} (rf : result (A -> B)) (ra : result A) b :
  ap rf ra = Ok b <-> exists f a, rf = Ok f /\ ra = Ok a /\ b = f a.
Proof. split; [apply ap_Ok_inv|]. intros (f & a & -> & -> & ->). reflexivity. Qed.

Lemma field_Ok {A} k (p : validator A) ps a : field k p ps = Ok a <-> p (get k ps) = Ok a.
Proof. apply under_Ok. Qed.

(** Inverting a successful object validation into its fields. *)
Ltac ap_inv H :=
  lazymatch type of H with
  | ap _ _ = Ok _ =>
      let H1 := fresh "Hap" in let H2 := fresh "Hfield" in
      apply ap_Ok_inv in H as (? & ? & H1 & H2 & ->); ap_inv H1
  | Ok _ = Ok _ => inv H
  end.

(** Property reads on a literal object: evaluate the key comparisons,
    leaving the values untouched. *)
Ltac get_simpl :=
  repeat match goal with
         | |- context [get ?k ((?k, ?v) :: ?ps)] => rewrite (get_hd k v ps)
         | |- context [get ?k ((?k', ?v) :: ?ps)] => rewrite (get_tl k k' v ps) by discriminate
         end.

Ltac fields_Ok :=
  repeat match goal with
         | H : field _ _ _ = Ok _ |- _ => unfold field in H; apply under_Ok in H
         end.

End ZodFacts.
