(* ===== verification/Media.v ===== *)
(** * [MediaSchema] (src/src/lib/types/media.ts)

    A media item: a positive integer key, a type from a closed
    enumeration and a source string. *)
From Stdlib Require Import Ascii String List Bool Arith ZArith Lia.
Import ListNotations.
From S2P Require Import Spec2Rocq JsValue Zod.

Module Media.
Import JsValue Zod ZodFacts.

(** [z.enum(["image", "video/mp4"])], line 5. *)
Inductive media_type := Image | VideoMp4.

Definition media_type_values : list (text * media_type) :=
  [(str "image", Image); (str "video/mp4", VideoMp4)].

(** [Media = z.infer<typeof MediaSchema>], line 9. *)
Record Media := mkMedia { pk : Z; type : media_type; src : text }.

(** [MediaSchema], lines 3-7. *)
Definition MediaSchema : validator Media :=
  z_object (fun ps =>
    Ok mkMedia
      <*> field (str "pk") z_int_positive ps
      <*> field (str "type") (z_enum media_type_values) ps
      <*> field (str "src") z_string ps).

(** The payload a valid media item comes from. *)
Definition media_type_name (t : media_type) : text :=
  match t with Image => str "image" | VideoMp4 => str "video/mp4" end.

Definition encode_media (m : Media) : jsval :=
  JObject [(str "pk", JNumber (of_Z (pk m)));
           (str "type", JString (media_type_name (type m)));
           (str "src", JString (src m))].

Definition valid_media (m : Media) : Prop := (0 < pk m <= MAX_SAFE_INTEGER)%Z.

#[export] Instance MediaSchemaI : Schema Media :=
  { parse := MediaSchema; encode := encode_media; valid := valid_media }.

End Media.

Module MediaFacts.
Import JsValue Zod ZodFacts Media.

Lemma enum_media_type t : z_enum media_type_values (JString (media_type_name t)) = Ok t.
Proof. destruct t; reflexivity. Qed.

Lemma MediaSchema_Ok v m :
  MediaSchema v = Ok m ->
  exists ps, v = JObject ps /\
    z_int_positive (get (str "pk") ps) = Ok (pk m) /\
    z_enum media_type_values (get (str "type") ps) = Ok (type m) /\
    z_string (get (str "src") ps) = Ok (src m).
Proof.
  destruct v; try discriminate. unfold MediaSchema, z_object. intros H.
  apply ap_Ok_inv in H as (f3 & s & H3 & Hs & ->).
  apply ap_Ok_inv in H3 as (f2 & t & H2 & Ht & ->).
  apply ap_Ok_inv in H2 as (f1 & k & H1 & Hk & ->). inv H1.
  unfold field in *. apply under_Ok in Hk, Ht, Hs. eexists; eauto.
Qed.

#[export] Instance MediaSchemaLaws : SchemaLaws Media.
Proof.
  constructor.
  - intros [k t s] Hv. cbn [parse encode MediaSchemaI].
    unfold MediaSchema, z_object, encode_media, field. cbn [pk type src].
    replace (get (str "pk") _) with (JNumber (of_Z k)) by reflexivity.
    replace (get (str "type") _) with (JString (media_type_name t)) by reflexivity.
    replace (get (str "src") _) with (JString s) by reflexivity.
    rewrite z_int_positive_of_Z, enum_media_type by exact Hv. reflexivity.
  - intros v m H. apply MediaSchema_Ok in H as (ps & _ & Hk & _).
    eapply z_int_positive_range; eauto.
Qed.

End MediaFacts.

Module MediaProps.
Import JsValue Zod ZodFacts Media MediaFacts.

Definition media_payload (n : number) (t : media_type) (s : text) : jsval :=
  JObject [(str "pk", JNumber n); (str "type", JString (media_type_name t)); (str "src", JString s)].

Lemma MediaSchema_payload n t s :
  MediaSchema (media_payload n t s) =
  Ok (fun k => mkMedia k t s) <*> under (PKey (str "pk")) (z_int_positive (JNumber n)).
Proof.
  unfold MediaSchema, z_object, media_payload, field. get_simpl.
  rewrite enum_media_type. unfold z_string.
  destruct (z_int_positive (JNumber n)); reflexivity.
Qed.

(** C4: A positive-integer field accepts exactly the safe integers
    greater than zero: it rejects zero, negative numbers, fractions,
    NaN and the infinities, and integers beyond
    [Number.MAX_SAFE_INTEGER]. *)
Theorem MediaSchema_pk_accepts n t s :
  (exists m, MediaSchema (media_payload n t s) = Ok m) <->
  is_safe_integer n && num_gt_zero n = true.
Proof.
  rewrite <- z_int_positive_accepts, MediaSchema_payload.
  destruct (z_int_positive (JNumber n)) as [z|e]; simpl; split.
  - eauto.
  - intros _. eauto.
  - intros [m H]; discriminate.
  - intros [z H]; discriminate.
Qed.

(** C16: An integer key above [Number.MAX_SAFE_INTEGER] is rejected with
    a [too_big] issue at [pk], although the specification accepts every
    integer from 1 on. *)
Theorem MediaSchema_rejects_unsafe_pk z t s :
  (MAX_SAFE_INTEGER < z)%Z ->
  MediaSchema (media_payload (of_Z z) t s) = Err [mk_issue [PKey (str "pk")] TooBig].
Proof.
  intros Hz. rewrite MediaSchema_payload, z_int_positive_unsafe by exact Hz. reflexivity.
Qed.

Lemma MediaSchema_rejects_unsafe_pk_witness :
  (MAX_SAFE_INTEGER < 2 ^ 53)%Z /\
  MediaSchema (media_payload (of_Z (2 ^ 53)) Image (str "a.png")) =
  Err [mk_issue [PKey (str "pk")] TooBig].
Proof.
  split; [reflexivity|].
  apply (MediaSchema_rejects_unsafe_pk (2 ^ 53) Image (str "a.png")). reflexivity.
Defined.

(** C3: The media type is a closed set: a payload whose [type] is
    anything but the strings [image] and [video/mp4] is rejected, with
    an [invalid_value] issue at [type]. *)
Theorem MediaSchema_type_closed ps :
  (forall t, get (str "type") ps <> JString (media_type_name t)) ->
  exists E, MediaSchema (JObject ps) = Err E /\
            In (mk_issue [PKey (str "type")] InvalidValue) E.
Proof.
  intros Hne. unfold MediaSchema, z_object.
  destruct (z_enum_cases media_type_values (get (str "type") ps)) as [[t Ht]|Ht].
  - exfalso. apply z_enum_Ok in Ht as (s & Eg & Hin).
    destruct Hin as [Hin|[Hin|[]]]; inv Hin; [exact (Hne Image Eg)|exact (Hne VideoMp4 Eg)].
  - destruct (ap_Err_r (Ok mkMedia <*> field (str "pk") z_int_positive ps)
               (field (str "type") (z_enum media_type_values) ps)
               [mk_issue [PKey (str "type")] InvalidValue]) as [E1 [H1 I1]].
    { unfold field. now rewrite Ht. }
    destruct (ap_Err_l (Ok mkMedia <*> field (str "pk") z_int_positive ps
                         <*> field (str "type") (z_enum media_type_values) ps)
               (field (str "src") z_string ps) E1 H1) as [E2 [H2 I2]].
    exists E2. split; [exact H2|]. apply I2, I1. now left.
Qed.

Lemma MediaSchema_type_closed_witness :
  (forall t, get (str "type") [(str "pk", JNumber (of_Z 1)); (str "type", JString (str "video/webm"))]
             <> JString (media_type_name t)) /\
  exists E, MediaSchema (JObject [(str "pk", JNumber (of_Z 1)); (str "type", JString (str "video/webm"))]) = Err E /\
            In (mk_issue [PKey (str "type")] InvalidValue) E.
Proof.
  assert (H : forall t, get (str "type") [(str "pk", JNumber (of_Z 1)); (str "type", JString (str "video/webm"))]
             <> JString (media_type_name t)) by (intros []; discriminate).
  split; [exact H|]. apply MediaSchema_type_closed, H.
Defined.

(** C17: The key field is [pk]: a payload without it, such as one that
    names its key [id] as the specification does, is rejected with an
    [invalid_type] issue at [pk]. *)
Theorem MediaSchema_requires_pk ps :
  get (str "pk") ps = JUndefined ->
  reports (MediaSchema (JObject ps)) [mk_issue [PKey (str "pk")] (InvalidType (str "number"))].
Proof.
  intros H. unfold MediaSchema, z_object. do 2 apply reports_ap_l. apply reports_ap_r.
  apply (reports_field (str "pk") z_int_positive ps [mk_issue [] (InvalidType (str "number"))]).
  now rewrite H.
Qed.

Lemma MediaSchema_requires_pk_witness :
  reports (MediaSchema (JObject [(str "id", JNumber (of_Z 1)); (str "type", JString (str "image"));
                                 (str "src", JString (str "a.png"))]))
          [mk_issue [PKey (str "pk")] (InvalidType (str "number"))].
Proof. apply MediaSchema_requires_pk. reflexivity. Defined.

End MediaProps.
