(* ===== verification/Kiosk.v ===== *)
(** * [MessageSchema], [ConversationSchema], [KioskSchema]
    (src/src/lib/types/kiosk.ts)

    A kiosk owns a list of media and a list of conversations, each of
    which owns a list of messages, and names the two backend endpoints.
    Each schema is a [Schema] instance; a schema that contains another
    one is proved against that one's [SchemaLaws] only. *)
From Stdlib Require Import Ascii String List Bool Arith ZArith Lia.
Import ListNotations.
From S2P Require Import Spec2Rocq JsValue Zod Media.

Module Message.
Import JsValue Zod.

(** The field [text] of the source is [msg_text] here: [text] names the
    type of strings in this development. *)
Record Message := mkMessage { pk : Z; msg_text : text; is_usr_msg : bool }.

(** [MessageSchema], lines 5-9. *)
Definition MessageSchema : validator Message :=
  z_object (fun ps =>
    Ok mkMessage
      <*> field (str "pk") z_int_positive ps
      <*> field (str "text") z_string ps
      <*> field (str "is_usr_msg") z_boolean ps).

Definition encode_message (m : Message) : jsval :=
  JObject [(str "pk", JNumber (of_Z (pk m)));
           (str "text", JString (msg_text m));
           (str "is_usr_msg", JBool (is_usr_msg m))].

Definition valid_message (m : Message) : Prop := (0 < pk m <= MAX_SAFE_INTEGER)%Z.

#[export] Instance MessageSchemaI : Schema Message :=
  { parse := MessageSchema; encode := encode_message; valid := valid_message }.

End Message.

Module Conversation.
Import JsValue Zod Message.

(** [Conversation = z.infer<typeof ConversationSchema>], line 31. *)
Record Conversation := mkConversation { pk : Z; messages : list Message }.

(** [ConversationSchema], lines 11-14. *)
Definition ConversationSchema : validator Conversation :=
  z_object (fun ps =>
    Ok mkConversation
      <*> field (str "pk") z_int_positive ps
      <*> field (str "messages") (z_array MessageSchema) ps).

Definition encode_conversation (c : Conversation) : jsval :=
  JObject [(str "pk", JNumber (of_Z (pk c)));
           (str "messages", JArray (map encode_message (messages c)))].

Definition valid_conversation (c : Conversation) : Prop :=
  (0 < pk c <= MAX_SAFE_INTEGER)%Z /\ Forall valid_message (messages c).

#[export] Instance ConversationSchemaI : Schema Conversation :=
  { parse := ConversationSchema; encode := encode_conversation; valid := valid_conversation }.

End Conversation.

Module Kiosk.
Import JsValue Zod Media Message Conversation.

Record Backend := mkBackend { websocket : text; api : text }.

(** [KioskType = z.infer<typeof KioskSchema>], line 30. *)
Record Kiosk := mkKiosk {
  id : Z;
  name : text;
  image_duration_ms : Z;
  media : list Media;
  chat_placeholder : text;
  conversations : list Conversation;
  backend : Backend
}.

Section WithUrl.
Context {U : UrlParser}.

(** The [backend] object, lines 24-27. *)
Definition BackendSchema : validator Backend :=
  z_object (fun ps =>
    Ok mkBackend
      <*> field (str "websocket") z_url ps
      <*> field (str "api") z_url ps).

(** [KioskSchema], lines 16-28. *)
Definition KioskSchema : validator Kiosk :=
  z_object (fun ps =>
    Ok mkKiosk
      <*> field (str "id") z_int_positive ps
      <*> field (str "name") z_string ps
      <*> field (str "image_duration_ms") z_int_positive ps
      <*> field (str "media") (z_array MediaSchema) ps
      <*> field (str "chat_placeholder") z_string ps
      <*> field (str "conversations") (z_array ConversationSchema) ps
      <*> field (str "backend") BackendSchema ps).

Definition encode_backend (b : Backend) : jsval :=
  JObject [(str "websocket", JString (websocket b)); (str "api", JString (api b))].

Definition encode_kiosk (k : Kiosk) : jsval :=
  JObject [(str "id", JNumber (of_Z (id k)));
           (str "name", JString (name k));
           (str "image_duration_ms", JNumber (of_Z (image_duration_ms k)));
           (str "media", JArray (map encode_media (media k)));
           (str "chat_placeholder", JString (chat_placeholder k));
           (str "conversations", JArray (map encode_conversation (conversations k)));
           (str "backend", encode_backend (backend k))].

(** Both endpoints are URLs that the parser accepts as they are. *)
Definition valid_backend (b : Backend) : Prop :=
  url_parse (websocket b) = Some (websocket b) /\ url_parse (api b) = Some (api b).

Definition valid_kiosk (k : Kiosk) : Prop :=
  (0 < id k <= MAX_SAFE_INTEGER)%Z /\
  (0 < image_duration_ms k <= MAX_SAFE_INTEGER)%Z /\
  Forall valid_media (media k) /\
  Forall valid_conversation (conversations k) /\
  valid_backend (backend k).

#[export] Instance KioskSchemaI : Schema Kiosk :=
  { parse := KioskSchema; encode := encode_kiosk; valid := valid_kiosk }.

End WithUrl.

End Kiosk.

Module KioskFacts.
Import JsValue Zod ZodFacts Media MediaFacts Message Conversation Kiosk.

#[export] Instance MessageSchemaLaws : SchemaLaws Message.
Proof.
  constructor.
  - intros [k t b] Hv. cbn [parse encode MessageSchemaI].
    unfold MessageSchema, z_object, encode_message, field. get_simpl. cbn [pk msg_text is_usr_msg].
    rewrite z_int_positive_of_Z by exact Hv. reflexivity.
  - intros v m H. destruct v; try discriminate.
    cbn [parse MessageSchemaI] in H. unfold MessageSchema, z_object in H.
    ap_inv H. fields_Ok. eapply z_int_positive_range; eauto.
Qed.

#[export] Instance ConversationSchemaLaws : SchemaLaws Conversation.
Proof.
  constructor.
  - intros [k ms] [Hk Hms]. cbn [parse encode ConversationSchemaI].
    unfold ConversationSchema, z_object, encode_conversation, field. get_simpl.
    cbn [Conversation.pk messages].
    rewrite z_int_positive_of_Z by exact Hk.
    change (z_array MessageSchema (JArray (map encode_message ms)))
      with (z_array (@parse Message _) (JArray (map (@encode Message _) ms))).
    rewrite z_array_encode by exact Hms. reflexivity.
  - intros v c H. destruct v; try discriminate.
    cbn [parse ConversationSchemaI] in H. unfold ConversationSchema, z_object in H.
    ap_inv H. fields_Ok. cbn [valid ConversationSchemaI valid_conversation Conversation.pk messages].
    split; [eapply z_int_positive_range; eauto|].
    match goal with H : z_array MessageSchema _ = Ok _ |- _ =>
      exact (@z_array_valid Message MessageSchemaI _ _ _ H) end.
Qed.

Section WithUrl.
Context {U : UrlParser}.

Lemma z_url_Ok v t : z_url v = Ok t -> url_parse t = Some t.
Proof.
  destruct v; try discriminate. unfold z_url.
  destruct (url_parse s) eqn:E; intros H; inv H. eapply url_parse_idem; eauto.
Qed.

Lemma BackendSchema_encode b : valid_backend b -> BackendSchema (encode_backend b) = Ok b.
Proof.
  intros [Hw Ha]. destruct b as [w a].
  unfold BackendSchema, z_object, encode_backend, field. get_simpl. cbn [websocket api] in *.
  unfold z_url. rewrite Hw, Ha. reflexivity.
Qed.

Lemma BackendSchema_valid v b : BackendSchema v = Ok b -> valid_backend b.
Proof.
  destruct v; try discriminate. unfold BackendSchema, z_object. intros H.
  ap_inv H. fields_Ok. split; eapply z_url_Ok; eauto.
Qed.

#[export] Instance KioskSchemaLaws : SchemaLaws Kiosk.
Proof.
  constructor.
  - intros [i n d ms cp cs b] (Hi & Hd & Hms & Hcs & Hb). cbn [parse encode KioskSchemaI].
    unfold KioskSchema, z_object, encode_kiosk, field. get_simpl.
    cbn [id name image_duration_ms media chat_placeholder conversations backend].
    rewrite !z_int_positive_of_Z by assumption.
    change (z_array MediaSchema (JArray (map encode_media ms)))
      with (z_array (@parse Media _) (JArray (map (@encode Media _) ms))).
    change (z_array ConversationSchema (JArray (map encode_conversation cs)))
      with (z_array (@parse Conversation _) (JArray (map (@encode Conversation _) cs))).
    rewrite !z_array_encode by assumption. rewrite BackendSchema_encode by exact Hb.
    reflexivity.
  - intros v k H. destruct v; try discriminate.
    cbn [parse KioskSchemaI] in H. unfold KioskSchema, z_object in H. ap_inv H. fields_Ok.
    cbn [valid KioskSchemaI valid_kiosk id name image_duration_ms media chat_placeholder
         conversations backend].
    refine (conj _ (conj _ (conj _ (conj _ _)))); try (eapply z_int_positive_range; eassumption).
    + match goal with H : z_array MediaSchema _ = Ok _ |- _ =>
        exact (@z_array_valid Media MediaSchemaI _ _ _ H) end.
    + match goal with H : z_array ConversationSchema _ = Ok _ |- _ =>
        exact (@z_array_valid Conversation ConversationSchemaI _ _ _ H) end.
    + eapply BackendSchema_valid; eassumption.
Qed.

End WithUrl.

End KioskFacts.

Module KioskProps.
Import JsValue Zod ZodFacts Media MediaFacts MediaProps Message Conversation Kiosk KioskFacts.

(** The keys of the [KioskSchema] shape. *)
Definition kiosk_keys : list text :=
  [str "id"; str "name"; str "image_duration_ms"; str "media"; str "chat_placeholder";
   str "conversations"; str "backend"].

(** A kiosk configuration payload as the backend sends it, with one key
    outside the shape. *)
Definition example_kiosk_props : list (text * jsval) :=
  [(str "id", JNumber (of_Z 7)); (str "name", JString (str "Lobby"));
           (str "image_duration_ms", JNumber (of_Z 5000));
           (str "media", JArray [media_payload (of_Z 1) Image (str "a.png");
                                 media_payload (of_Z 2) VideoMp4 (str "b.mp4")]);
           (str "chat_placeholder", JString (str "Ask me"));
           (str "conversations",
             JArray [JObject [(str "pk", JNumber (of_Z 1));
                              (str "messages", JArray [JObject [(str "pk", JNumber (of_Z 1));
                                                               (str "text", JString (str "hi"));
                                                               (str "is_usr_msg", JBool true)]])]]);
           (str "backend", JObject [(str "websocket", JString (str "ws://k"));
                                    (str "api", JString (str "http://k"))])].

Definition example_kiosk_payload : jsval :=
  JObject (example_kiosk_props ++ [(str "theme", JString (str "dark"))]).

Definition example_kiosk : Kiosk :=
  mkKiosk 7 (str "Lobby") 5000
    [mkMedia 1 Image (str "a.png"); mkMedia 2 VideoMp4 (str "b.mp4")]
    (str "Ask me") [mkConversation 1 [mkMessage 1 (str "hi") true]]
    (mkBackend (str "ws://k") (str "http://k")).

Section WithUrl.
Context {U : UrlParser}.

(** C2: Validation is sound: a validated kiosk has positive safe
    integer identifiers and durations at every level, and both backend
    endpoints are URLs the parser accepts unchanged. *)
Theorem KioskSchema_sound v k : KioskSchema v = Ok k -> valid_kiosk k.
Proof. exact (@parse_valid Kiosk _ _ v k). Qed.

(** C12: An error in the [j]-th media item is reported, with every one of
    its issues, under the path [media.j]. *)
Theorem KioskSchema_media_error ps l j mv e :
  get (str "media") ps = JArray l -> nth_error l j = Some mv -> MediaSchema mv = Err e ->
  reports (KioskSchema (JObject ps))
          (map (prefix_issue (PKey (str "media"))) (map (prefix_issue (PIdx j)) e)).
Proof.
  intros Hg Hj He. unfold KioskSchema, z_object.
  do 3 apply reports_ap_l. apply reports_ap_r. apply reports_field_nested.
  rewrite Hg. exact (reports_array _ _ _ _ _ Hj (reports_Err _ _ He)).
Qed.

(** C22: An error in the [j]-th message of the [i]-th conversation is
    reported, with every one of its issues, under the path
    [conversations.i.messages.j]: issues keep their full path through
    two levels of nested arrays. *)
Theorem KioskSchema_message_error ps cs i c ms j m e :
  get (str "conversations") ps = JArray cs -> nth_error cs i = Some (JObject c) ->
  get (str "messages") c = JArray ms -> nth_error ms j = Some m -> MessageSchema m = Err e ->
  reports (KioskSchema (JObject ps))
          (map (prefix_issue (PKey (str "conversations")))
             (map (prefix_issue (PIdx i))
                (map (prefix_issue (PKey (str "messages"))) (map (prefix_issue (PIdx j)) e)))).
Proof.
  intros Hcs Hi Hms Hj He. unfold KioskSchema, z_object.
  apply reports_ap_l, reports_ap_r, reports_field_nested. rewrite Hcs.
  apply (reports_array _ _ _ _ _ Hi). unfold ConversationSchema, z_object.
  apply reports_ap_r, reports_field_nested. rewrite Hms.
  exact (reports_array _ _ _ _ _ Hj (reports_Err _ _ He)).
Qed.

(** C13: Errors accumulate: when both the identifier and the backend
    object are wrong, the issues of both are reported. *)
Theorem KioskSchema_reports_all ps e1 e2 :
  z_int_positive (get (str "id") ps) = Err e1 ->
  BackendSchema (get (str "backend") ps) = Err e2 ->
  reports (KioskSchema (JObject ps))
          (map (prefix_issue (PKey (str "id"))) e1 ++ map (prefix_issue (PKey (str "backend"))) e2).
Proof.
  intros H1 H2. unfold KioskSchema, z_object. apply reports_app.
  - do 6 apply reports_ap_l. apply reports_ap_r. now apply reports_field.
  - apply reports_ap_r. now apply reports_field.
Qed.

(** C14: Keys outside the shape are ignored: appending properties with
    other names does not change the outcome of validation. *)
Theorem KioskSchema_ignores_unknown_keys ps extra :
  (forall k, In k (map fst extra) -> ~ In k kiosk_keys) ->
  KioskSchema (JObject (ps ++ extra)) = KioskSchema (JObject ps).
Proof.
  intros Hx. assert (G : forall k, In k kiosk_keys -> get k (ps ++ extra) = get k ps)
    by (intros k Hk; apply get_app_notin; intros Hin; exact (Hx k Hin Hk)).
  unfold KioskSchema, z_object, field.
  rewrite !G by (unfold kiosk_keys; simpl; intuition). reflexivity.
Qed.

End WithUrl.

Lemma KioskSchema_sound_witness :
  @KioskSchema scheme_url_parser example_kiosk_payload = Ok example_kiosk /\
  @valid_kiosk scheme_url_parser example_kiosk.
Proof.
  assert (H : @KioskSchema scheme_url_parser example_kiosk_payload = Ok example_kiosk)
    by (vm_compute; reflexivity).
  split; [exact H|]. exact (KioskSchema_sound example_kiosk_payload example_kiosk H).
Defined.

Lemma KioskSchema_media_error_witness :
  reports (@KioskSchema scheme_url_parser
             (JObject [(str "media", JArray [media_payload (of_Z 1) Image (str "a.png");
                                             JObject [(str "pk", JNumber (of_Z 2));
                                                      (str "type", JString (str "gif"))]])]))
          (map (prefix_issue (PKey (str "media")))
             (map (prefix_issue (PIdx 1))
                [mk_issue [PKey (str "type")] InvalidValue;
                 mk_issue [PKey (str "src")] (InvalidType (str "string"))])).
Proof.
  apply (KioskSchema_media_error _ [media_payload (of_Z 1) Image (str "a.png");
                                     JObject [(str "pk", JNumber (of_Z 2));
                                              (str "type", JString (str "gif"))]] 1
           (JObject [(str "pk", JNumber (of_Z 2)); (str "type", JString (str "gif"))]));
    vm_compute; reflexivity.
Defined.

Definition example_bad_conversation : jsval :=
  JObject [(str "pk", JNumber (of_Z 1));
           (str "messages", JArray [JObject [(str "pk", JNumber (of_Z 1));
                                             (str "text", JString (str "hi"));
                                             (str "is_usr_msg", JBool true)];
                                    JObject [(str "pk", JNumber (of_Z 2));
                                             (str "text", JNumber (of_Z 3))]])].

Lemma KioskSchema_message_error_witness :
  reports (@KioskSchema scheme_url_parser
             (JObject [(str "conversations", JArray [example_bad_conversation])]))
          (map (prefix_issue (PKey (str "conversations")))
             (map (prefix_issue (PIdx 0))
                (map (prefix_issue (PKey (str "messages")))
                   (map (prefix_issue (PIdx 1))
                      [mk_issue [PKey (str "text")] (InvalidType (str "string"));
                       mk_issue [PKey (str "is_usr_msg")] (InvalidType (str "boolean"))])))).
Proof.
  apply (KioskSchema_message_error _ [example_bad_conversation] 0
           [(str "pk", JNumber (of_Z 1));
            (str "messages", JArray [JObject [(str "pk", JNumber (of_Z 1));
                                              (str "text", JString (str "hi"));
                                              (str "is_usr_msg", JBool true)];
                                     JObject [(str "pk", JNumber (of_Z 2));
                                              (str "text", JNumber (of_Z 3))]])]
           [JObject [(str "pk", JNumber (of_Z 1)); (str "text", JString (str "hi"));
                     (str "is_usr_msg", JBool true)];
            JObject [(str "pk", JNumber (of_Z 2)); (str "text", JNumber (of_Z 3))]] 1
           (JObject [(str "pk", JNumber (of_Z 2)); (str "text", JNumber (of_Z 3))]));
    vm_compute; reflexivity.
Defined.

Lemma KioskSchema_reports_all_witness :
  reports (@KioskSchema scheme_url_parser
             (JObject [(str "id", JNumber (of_Z 0));
                       (str "backend", JObject [(str "websocket", JString (str "ftp://k"))])]))
          (map (prefix_issue (PKey (str "id"))) [mk_issue [] TooSmall] ++
           map (prefix_issue (PKey (str "backend")))
             [mk_issue [PKey (str "websocket")] (InvalidFormat (str "url"));
              mk_issue [PKey (str "api")] (InvalidType (str "string"))]).
Proof. apply KioskSchema_reports_all; vm_compute; reflexivity. Defined.

Lemma KioskSchema_ignores_unknown_keys_witness :
  @KioskSchema scheme_url_parser example_kiosk_payload =
  @KioskSchema scheme_url_parser (JObject example_kiosk_props).
Proof.
  apply KioskSchema_ignores_unknown_keys.
  intros k [<-|[]]. vm_compute. intros H. repeat destruct H as [H|H]; try discriminate. exact H.
Defined.

(** The kiosk [k] with the media item [m] added in front. *)
Definition add_media (m : Media) (k : Kiosk) : Kiosk :=
  mkKiosk (id k) (name k) (image_duration_ms k) (m :: media k) (chat_placeholder k)
    (conversations k) (backend k).

(** C31: Validation does not make media identifiers unique, although
    the specification describes a media item as having a positive
    unique identifier (section 2).  Whenever a kiosk is accepted, the
    kiosk with one of its media items listed twice is accepted too,
    and its media items no longer have distinct [pk]s. *)
Theorem KioskSchema_duplicate_media {U : UrlParser} v k m :
  KioskSchema v = Ok k -> In m (media k) ->
  KioskSchema (encode_kiosk (add_media m k)) = Ok (add_media m k) /\
  ~ NoDup (map Media.pk (media (add_media m k))).
Proof.
  intros H Hm. pose proof (@parse_valid Kiosk _ _ v k H) as (Hi & Hd & Hms & Hcs & Hb). split.
  - assert (Hv : valid_kiosk (add_media m k)).
    { refine (conj Hi (conj Hd (conj _ (conj Hcs Hb)))). cbn [add_media media].
      constructor; [rewrite Forall_forall in Hms; exact (Hms m Hm)|exact Hms]. }
    exact (@parse_encode Kiosk _ _ _ Hv).
  - cbn [add_media media map]. intros Hnd. inversion Hnd as [|? ? Hn _]. apply Hn, in_map, Hm.
Qed.

Lemma KioskSchema_duplicate_media_witness :
  @KioskSchema scheme_url_parser example_kiosk_payload = Ok example_kiosk /\
  In (mkMedia 1 Image (str "a.png")) (media example_kiosk) /\
  @KioskSchema scheme_url_parser (encode_kiosk (add_media (mkMedia 1 Image (str "a.png")) example_kiosk)) =
    Ok (add_media (mkMedia 1 Image (str "a.png")) example_kiosk) /\
  ~ NoDup (map Media.pk (media (add_media (mkMedia 1 Image (str "a.png")) example_kiosk))).
Proof.
  assert (H : @KioskSchema scheme_url_parser example_kiosk_payload = Ok example_kiosk)
    by (vm_compute; reflexivity).
  assert (Hm : In (mkMedia 1 Image (str "a.png")) (media example_kiosk)) by (left; reflexivity).
  exact (conj H (conj Hm (KioskSchema_duplicate_media _ _ _ H Hm))).
Defined.

End KioskProps.
