(* ===== verification/Announcement.v ===== *)
(** * [AnnouncementSchema] (src/src/lib/types/announcement.ts)

    A title and a text with a display duration that is a positive
    integer or [null].  [z.nullable] accepts [null] but not a missing
    property, which reads as [undefined]. *)
From Stdlib Require Import Ascii String List Bool Arith ZArith QArith Lia.
Import ListNotations.
From S2P Require Import Spec2Rocq JsValue Zod.

Module Announcement.
Import JsValue Zod.

(** [Announcement = z.infer<typeof AnnouncementSchema>], line 9. *)
Record Announcement := mkAnnouncement {
  title : text; ann_text : text; duration_ms : option Z
}.

(** [AnnouncementSchema], lines 3-7. *)
Definition AnnouncementSchema : validator Announcement :=
  z_object (fun ps =>
    Ok mkAnnouncement
      <*> field (str "title") z_string ps
      <*> field (str "text") z_string ps
      <*> field (str "duration_ms") (z_nullable z_int_positive) ps).

Definition encode_duration (d : option Z) : jsval :=
  match d with None => JNull | Some n => JNumber (of_Z n) end.

Definition encode_announcement (a : Announcement) : jsval :=
  JObject [(str "title", JString (title a)); (str "text", JString (ann_text a));
           (str "duration_ms", encode_duration (duration_ms a))].

Definition valid_announcement (a : Announcement) : Prop :=
  match duration_ms a with None => True | Some n => (0 < n <= MAX_SAFE_INTEGER)%Z end.

#[export] Instance AnnouncementSchemaI : Schema Announcement :=
  { parse := AnnouncementSchema; encode := encode_announcement; valid := valid_announcement }.

End Announcement.

Module AnnouncementFacts.
Import JsValue Zod ZodFacts Announcement.

Lemma z_nullable_Ok {A} (p : validator A) v o :
  z_nullable p v = Ok o <-> (v = JNull /\ o = None) \/ (exists a, v <> JNull /\ p v = Ok a /\ o = Some a).
Proof.
  unfold z_nullable. split.
  - destruct v; try (left; split; [reflexivity|]; congruence);
      destruct (p _) eqn:E; intros H; inv H; right; eexists; repeat split; eauto; discriminate.
  - intros [[-> ->]|(a & Hn & Hp & ->)]; [reflexivity|].
    destruct v; try (rewrite Hp; reflexivity). congruence.
Qed.

#[export] Instance AnnouncementSchemaLaws : SchemaLaws Announcement.
Proof.
  constructor.
  - intros [t x d] Hd. cbn [parse encode AnnouncementSchemaI].
    unfold AnnouncementSchema, z_object, encode_announcement, field. get_simpl.
    cbn [title ann_text duration_ms] in *. unfold valid_announcement in Hd.
    destruct d as [n|]; [|reflexivity]. cbn [encode_duration z_nullable].
    rewrite z_int_positive_of_Z by exact Hd. reflexivity.
  - intros v a H. destruct v; try discriminate.
    cbn [parse AnnouncementSchemaI] in H. unfold AnnouncementSchema, z_object in H.
    ap_inv H. fields_Ok. unfold valid_announcement. cbn [duration_ms].
    match goal with Hf : z_nullable _ _ = Ok _ |- _ => apply z_nullable_Ok in Hf; destruct Hf as [[_ ->]|(n & _ & Hn & ->)] end; [exact I|]. eapply z_int_positive_range; eauto.
Qed.

End AnnouncementFacts.

Module AnnouncementProps.
Import JsValue Zod ZodFacts Announcement AnnouncementFacts.

Definition announcement_payload (t x : text) (d : jsval) : jsval :=
  JObject [(str "title", JString t); (str "text", JString x); (str "duration_ms", d)].

(** C5: The duration accepts exactly [null] and the safe integers
    greater than zero: [null] and [1500] validate, [-1], [0], [1.5] and
    strings do not. *)
Theorem AnnouncementSchema_duration t x d :
  (exists a, AnnouncementSchema (announcement_payload t x d) = Ok a) <->
  d = JNull \/ exists n, d = JNumber n /\ is_safe_integer n && num_gt_zero n = true.
Proof.
  unfold AnnouncementSchema, z_object, announcement_payload, field. get_simpl. unfold z_string.
  cbn [under ap]. split.
  - intros [a Ha]. destruct (z_nullable z_int_positive d) as [o|] eqn:E; [|discriminate].
    apply z_nullable_Ok in E as [[-> _]|(z & Hn & Hz & _)]; [now left|right].
    destruct d; try discriminate. eexists; split; [reflexivity|].
    apply z_int_positive_accepts. eauto.
  - intros [->|(n & -> & Hn)]; [eexists; reflexivity|].
    apply z_int_positive_accepts in Hn as [z Hz]. cbn [z_nullable]. rewrite Hz.
    eexists; reflexivity.
Qed.

(** C15: A missing duration is not accepted: [z.nullable] admits [null]
    only, so an announcement without a [duration_ms] property is
    rejected with an [invalid_type] issue at [duration_ms]. *)
Theorem AnnouncementSchema_rejects_absent_duration ps :
  get (str "duration_ms") ps = JUndefined ->
  reports (AnnouncementSchema (JObject ps))
          [mk_issue [PKey (str "duration_ms")] (InvalidType (str "number"))].
Proof.
  intros H. unfold AnnouncementSchema, z_object. apply reports_ap_r.
  apply (reports_field (str "duration_ms") (z_nullable z_int_positive) ps
           [mk_issue [] (InvalidType (str "number"))]).
  now rewrite H.
Qed.

Lemma AnnouncementSchema_rejects_absent_duration_witness :
  reports (AnnouncementSchema (JObject [(str "title", JString (str "Closing"));
                                        (str "text", JString (str "at six"))]))
          [mk_issue [PKey (str "duration_ms")] (InvalidType (str "number"))].
Proof. apply AnnouncementSchema_rejects_absent_duration. reflexivity. Defined.

End AnnouncementProps.
