(* ===== verification/SchemaModel.v ===== *)
(** * The data model the schemas accept (spec section 3)

    The data model of the specification, stated declaratively as a
    relation between an untyped payload and the typed value it stands
    for.  Each relation describes the payload field by field: a safe
    positive integer ([int_rep], any rational equal to the integer), a
    string, an element of the enumeration, an array of payloads of the
    element type, or a nested object.  Properties outside the shape are
    not constrained.  The theorems show that each schema of
    types/media.ts, types/kiosk.ts and types/announcement.ts accepts a
    payload, with a given output, exactly when the payload stands for
    that output.  Validation is thus neither stricter nor looser than
    the data model. *)
From Stdlib Require Import Ascii String List Bool Arith ZArith QArith Lia.
Import ListNotations.
From S2P Require Import Spec2Rocq JsValue Zod Media Kiosk Announcement.

Module SchemaModel.
Import JsValue Zod ZodFacts Media MediaFacts Message Conversation Kiosk Announcement.

(** An array of payloads, each standing for the element at its index. *)
Definition list_rep {A} (rep : jsval -> A -> Prop) (v : jsval) (l : list A) : Prop :=
  exists vs, v = JArray vs /\ Forall2 rep vs l.

Definition media_rep (v : jsval) (m : Media) : Prop :=
  exists ps, v = JObject ps /\
    int_rep (get (str "pk") ps) (Media.pk m) /\
    get (str "type") ps = JString (media_type_name (type m)) /\
    get (str "src") ps = JString (src m).

Definition message_rep (v : jsval) (m : Message) : Prop :=
  exists ps, v = JObject ps /\
    int_rep (get (str "pk") ps) (Message.pk m) /\
    get (str "text") ps = JString (msg_text m) /\
    get (str "is_usr_msg") ps = JBool (is_usr_msg m).

Definition conversation_rep (v : jsval) (c : Conversation) : Prop :=
  exists ps, v = JObject ps /\
    int_rep (get (str "pk") ps) (Conversation.pk c) /\
    list_rep message_rep (get (str "messages") ps) (messages c).

Section WithUrl.
Context {U : UrlParser}.

(** A string the URL parser accepts, giving [t]. *)
Definition url_rep (v : jsval) (t : text) : Prop :=
  exists s, v = JString s /\ url_parse s = Some t.

Definition backend_rep (v : jsval) (b : Backend) : Prop :=
  exists ps, v = JObject ps /\
    url_rep (get (str "websocket") ps) (websocket b) /\
    url_rep (get (str "api") ps) (api b).

Definition kiosk_rep (v : jsval) (k : Kiosk) : Prop :=
  exists ps, v = JObject ps /\
    int_rep (get (str "id") ps) (id k) /\
    get (str "name") ps = JString (name k) /\
    int_rep (get (str "image_duration_ms") ps) (image_duration_ms k) /\
    list_rep media_rep (get (str "media") ps) (media k) /\
    get (str "chat_placeholder") ps = JString (chat_placeholder k) /\
    list_rep conversation_rep (get (str "conversations") ps) (conversations k) /\
    backend_rep (get (str "backend") ps) (backend k).

End WithUrl.

(** [null] for no duration, or a safe positive integer. *)
Definition duration_rep (v : jsval) (d : option Z) : Prop :=
  match d with None => v = JNull | Some z => int_rep v z end.

Definition announcement_rep (v : jsval) (a : Announcement) : Prop :=
  exists ps, v = JObject ps /\
    get (str "title") ps = JString (title a) /\
    get (str "text") ps = JString (ann_text a) /\
    duration_rep (get (str "duration_ms") ps) (duration_ms a).

(** ** Each schema accepts exactly its data model *)

Lemma media_type_iff v t : z_enum media_type_values v = Ok t <-> v = JString (media_type_name t).
Proof.
  split; [|intros ->; apply enum_media_type].
  destruct v; try discriminate. unfold z_enum. cbn [media_type_values enum_lookup].
  destruct (list_eq_dec ascii_dec (str "image") s) as [<-|_]; [intros H; inv H; reflexivity|].
  destruct (list_eq_dec ascii_dec (str "video/mp4") s) as [<-|_]; [intros H; inv H; reflexivity|].
  discriminate.
Qed.

Lemma z_array_rep {A} (p : validator A) (rep : jsval -> A -> Prop) :
  (forall x a, p x = Ok a <-> rep x a) -> forall v l, z_array p v = Ok l <-> list_rep rep v l.
Proof.
  intros Hp v l. rewrite z_array_iff. unfold list_rep.
  split; intros (vs & -> & F); exists vs; split; auto;
    (eapply Forall2_impl; [|exact F]); intros x a; apply Hp.
Qed.

(** The accepted fields, as their data model; an array field through
    the relation [Ha] of its element schema. *)
Ltac field_reps :=
  repeat match goal with
  | H : z_int_positive _ = Ok _ |- _ => apply z_int_positive_iff in H
  | H : z_string _ = Ok _ |- _ => apply z_string_iff in H
  | H : z_boolean _ = Ok _ |- _ => apply z_boolean_iff in H
  | H : z_url _ = Ok _ |- _ => apply z_url_iff in H
  | H : z_enum media_type_values _ = Ok _ |- _ => apply media_type_iff in H
  | H : z_array ?p _ = Ok _, Ha : forall v l, z_array ?p v = Ok l <-> _ |- _ => apply Ha in H
  | H : ?S _ = Ok _, Hs : forall v a, ?S v = Ok a <-> _ |- _ => apply Hs in H
  end.

(** The fields of a payload that follows the data model are accepted. *)
Ltac rep_fields :=
  repeat match goal with
  | H : int_rep ?v ?z |- context [z_int_positive ?v] => rewrite (proj2 (z_int_positive_iff v z) H)
  | H : ?v = JString ?s |- context [z_string ?v] => rewrite (proj2 (z_string_iff v s) H)
  | H : ?v = JBool ?b |- context [z_boolean ?v] => rewrite (proj2 (z_boolean_iff v b) H)
  | H : ?v = JString (media_type_name ?t) |- context [z_enum media_type_values ?v] =>
      rewrite (proj2 (media_type_iff v t) H)
  | H : url_rep ?v ?t |- context [z_url ?v] => rewrite (proj2 (z_url_iff v t) H)
  | H : list_rep _ ?v ?l, Ha : forall v l, z_array ?p v = Ok l <-> _ |- context [z_array ?p ?v] =>
      rewrite (proj2 (Ha v l) H)
  | H : _ ?v ?a, Hs : forall v a, ?S v = Ok a <-> _ |- context [?S ?v] => rewrite (proj2 (Hs v a) H)
  end.

(** An object schema accepts exactly the payloads whose fields follow
    the data model: its fields are checked one by one, and the output
    record is made of their outputs. *)
Tactic Notation "schema_iff" reference(S) :=
  split;
  [ let H := fresh "H" in let ps := fresh "ps" in
    match goal with |- _ ?v = Ok _ -> _ => destruct v as [| | | | | |ps]; try discriminate end;
    intros H; unfold S, z_object in H; ap_inv H; fields_Ok; field_reps;
    exists ps; repeat split; assumption
  | let ps := fresh "ps" in let Hs := fresh "Hs" in
    intros (ps & -> & Hs);
    repeat match type of Hs with _ /\ _ => let H := fresh "Hf" in destruct Hs as [H Hs] end;
    unfold S, z_object, field; rep_fields;
    match goal with |- _ = Ok ?r => destruct r; reflexivity end ].

Lemma MediaSchema_iff v m : MediaSchema v = Ok m <-> media_rep v m.
Proof. schema_iff MediaSchema. Qed.

Lemma MessageSchema_iff v m : MessageSchema v = Ok m <-> message_rep v m.
Proof. schema_iff MessageSchema. Qed.

Lemma ConversationSchema_iff v c : ConversationSchema v = Ok c <-> conversation_rep v c.
Proof.
  pose proof (z_array_rep MessageSchema message_rep MessageSchema_iff) as Ha.
  schema_iff ConversationSchema.
Qed.

Section WithUrl.
Context {U : UrlParser}.

Lemma BackendSchema_iff v b : BackendSchema v = Ok b <-> backend_rep v b.
Proof. schema_iff BackendSchema. Qed.

End WithUrl.

Lemma z_nullable_int_iff v d : z_nullable z_int_positive v = Ok d <-> duration_rep v d.
Proof.
  unfold z_nullable, duration_rep. destruct v; destruct d; cbn [int_rep];
    rewrite <- ?z_int_positive_iff; try (split; intros H; inv H; reflexivity);
    try (split; intros H; [discriminate H|inv H]); try (destruct (z_int_positive _); split; intros H; inv H; reflexivity).
Qed.

Module SchemaModelProps.

(** C27: Validation of a kiosk is exactly its data model: for every URL
    parser, [KioskSchema] accepts a payload with output [k] if and only
    if the payload stands for [k].  Its identifier and image duration
    are numbers equal to safe positive integers.  Its name and
    placeholder are strings.  Its media and conversations are arrays of
    payloads standing for the items.  Its backend is an object of two
    URLs the parser accepts.  Other properties may be present and are
    ignored. *)
Theorem KioskSchema_iff {U : UrlParser} v k : KioskSchema v = Ok k <-> kiosk_rep v k.
Proof.
  pose proof (z_array_rep MediaSchema media_rep MediaSchema_iff) as Ha1.
  pose proof (z_array_rep ConversationSchema conversation_rep ConversationSchema_iff) as Ha2.
  pose proof BackendSchema_iff as Hb. schema_iff KioskSchema.
Qed.

(** C28: Validation of an announcement is exactly its data model:
    [AnnouncementSchema] accepts a payload with output [a] if and only
    if the title and the text are strings and the duration is [null]
    for no duration, or a number equal to a safe positive integer. *)
Theorem AnnouncementSchema_iff v a : AnnouncementSchema v = Ok a <-> announcement_rep v a.
Proof. pose proof z_nullable_int_iff as Hd. schema_iff AnnouncementSchema. Qed.

End SchemaModelProps.

End SchemaModel.
