(* ===== verification/SensorData.v ===== *)
(** * Sensor readings (src/src/lib/types/sensorData.ts,
      src/src/lib/utils/generateSensorData.ts)

    [generateSensorData] reads the clock ([new Date()]) and draws six
    integers with [faker.number.int], in the order of the object
    literal.  Faker's [number.int] computes
    [Math.floor(real * delta + min)] in IEEE doubles from a draw
    [real = k / 2^b] of its randomizer, so the double arithmetic is
    modelled exactly: every value in that computation is a multiple of
    [2^-53], and [Double] keeps it as an integer count of such units
    with round-to-nearest-even to 53 significant bits.  Rounding is
    monotone and fixes representable values, which bounds every draw
    to [min, max+1] at any resolution of the randomizer. *)
From Stdlib Require Import List Bool ZArith Lia.
Import ListNotations.
From S2P Require Import Spec2Rocq JsValue.

Open Scope Z_scope.

Module Double.

(** Rounding a nonnegative count of units to 53 significant bits, ties
    to even. *)
Definition round_pos (n : Z) : Z :=
  let s := Z.log2 n - 52 in
  if s <=? 0 then n
  else
    let q := n / 2 ^ s in
    let r := n mod 2 ^ s in
    let h := 2 ^ (s - 1) in
    (if r <? h then q else if h <? r then q + 1 else if Z.even q then q else q + 1) * 2 ^ s.

Definition round_units (n : Z) : Z := if n <? 0 then - round_pos (- n) else round_pos n.

(** [x * y] and [x + y] on doubles; [Math.floor]. *)
Definition fmul (x y : Z) : Z := round_units (x * y / 2 ^ 53).
Definition fadd (x y : Z) : Z := round_units (x + y).
Definition of_int (z : Z) : Z := z * 2 ^ 53.
Definition floor (x : Z) : Z := x / 2 ^ 53.

End Double.

Module Faker.
Import Double.

(** Faker's randomizer: [next()] gives [k / 2^next_bits] for an integer
    [0 <= k < 2^next_bits] ([genrandReal2] has 32 bits,
    [genrandRes53] has 53). *)
Class Randomizer := {
  rstate : Type;
  next_bits : Z;
  next : rstate -> Z * rstate;
  next_bits_range : 0 <= next_bits <= 53;
  next_range : forall s, 0 <= fst (next s) < 2 ^ next_bits
}.

(** A scripted randomizer of resolution [b]: the draws are given in
    advance, reduced to [b] bits, and [0] once they run out. *)
Definition scripted (b : Z) (Hb : 0 <= b <= 53) : Randomizer.
Proof.
  refine {| rstate := list Z; next_bits := b;
            next := fun l => match l with k :: r => (k mod 2 ^ b, r) | [] => (0, []) end |}.
  - exact Hb.
  - intros [|k l]; simpl; [lia|]. apply Z.mod_pos_bound. lia.
Defined.

Definition scripted32 : Randomizer := scripted 32 ltac:(lia).
Definition scripted53 : Randomizer := scripted 53 ltac:(lia).

(** Throwing code over the randomizer's state: [None] is a thrown
    [FakerError]. *)
Definition M {R : Randomizer} (A : Type) : Type := rstate -> option (A * rstate).
Definition ret {R : Randomizer} {A} (a : A) : M A := fun s => Some (a, s).
Definition bind {R : Randomizer} {A B} (m : M A) (f : A -> M B) : M B :=
  fun s => match m s with Some (a, s') => f a s' | None => None end.
Definition throw {R : Randomizer} {A} : M A := fun _ => None.

Declare Scope faker_scope.
Notation "x <- m ;; k" := (bind m (fun x => k)) (at level 100, m at next level, right associativity) : faker_scope.
Open Scope faker_scope.

(** The argument of [number.int]: a number is [{ max }]. *)
Inductive int_arg := IntMax (max : Z) | IntOpts (min max : Z).

Definition arg_bounds (a : int_arg) : Z * Z :=
  match a with IntMax mx => (0, mx) | IntOpts mn mx => (mn, mx) end.

(** [faker.number.int] with [multipleOf = 1] and integer bounds, so that
    [effectiveMin = min] and [effectiveMax = max]. *)
Definition number_int {R : Randomizer} (a : int_arg) : M Z :=
  let (mn, mx) := arg_bounds a in
  if mn =? mx then ret mn
  else if mx <? mn then throw
  else fun s =>
    let (k, s') := next s in
    let real := k * 2 ^ (53 - next_bits) in
    let delta := mx - mn + 1 in
    Some (floor (fadd (fmul real (of_int delta)) (of_int mn)), s').

End Faker.

Module Sensor.
Import JsValue Faker.

(** [SensorData], sensorData.ts lines 1-10; the random fields are the
    integers [number.int] returns, [time] is the clock in
    milliseconds. *)
Record SensorData := mkSensorData {
  kiosk : number; time : Z;
  temperature : Z; humidity : Z; pressure : Z;
  air_quality : Z; current : Z; voltage : Z
}.

Section Gen.
Context {R : Randomizer}.

Record env := mkEnv { now : Z; rng : rstate }.

(** [generateSensorData], generateSensorData.ts lines 5-16. *)
Definition generateSensorData (kiosk_id : number) (e : env) : option (SensorData * env) :=
  let t := now e in
  let gen :=
    (temp <- number_int (IntMax 100);;
     hum <- number_int (IntOpts 30 60);;
     pres <- number_int (IntMax 100);;
     aq <- number_int (IntMax 10);;
     cur <- number_int (IntMax 10);;
     volt <- number_int (IntMax 12);;
     ret (mkSensorData kiosk_id t temp hum pres aq cur volt)) in
  match gen (rng e) with
  | Some (d, s') => Some (d, mkEnv (now e) s')
  | None => None
  end.

End Gen.

End Sensor.

Module SensorFacts.
Import JsValue Double Faker Sensor.

(** A value with at most 53 significant bits is a double: rounding
    keeps it. *)
Lemma round_pos_exact m t :
  0 <= m < 2 ^ 53 -> 0 <= t -> round_pos (m * 2 ^ t) = m * 2 ^ t.
Proof.
  intros Hm Ht. unfold round_pos.
  destruct (Z.eq_dec m 0) as [->|Hm0]; [now rewrite Z.mul_0_l|].
  replace (Z.log2 (m * 2 ^ t)) with (Z.log2 m + t) by (rewrite Z.log2_mul_pow2; lia).
  assert (Hl : Z.log2 m < 53) by (apply Z.log2_lt_pow2; lia).
  destruct (Z.leb_spec (Z.log2 m + t - 52) 0) as [|Hs]; [reflexivity|].
  set (s := Z.log2 m + t - 52) in *.
  assert (E : m * 2 ^ t = (m * 2 ^ (t - s)) * 2 ^ s)
    by (rewrite <- Z.mul_assoc, <- Z.pow_add_r by lia; do 2 f_equal; lia).
  assert (Hp : 2 ^ s <> 0) by (apply Z.pow_nonzero; lia).
  rewrite E, Z.mod_mul, Z.div_mul by exact Hp.
  replace (0 <? 2 ^ (s - 1)) with true by (symmetry; apply Z.ltb_lt, Z.pow_pos_nonneg; lia).
  reflexivity.
Qed.

Lemma round_units_exact m t :
  0 <= m < 2 ^ 53 -> 0 <= t -> round_units (m * 2 ^ t) = m * 2 ^ t.
Proof.
  intros Hm Ht. unfold round_units.
  replace (m * 2 ^ t <? 0) with false
    by (symmetry; apply Z.ltb_ge, Z.mul_nonneg_nonneg; [lia|apply Z.pow_nonneg; lia]).
  now apply round_pos_exact.
Qed.

Lemma fmul_of_int x d : fmul x (of_int d) = round_units (x * d).
Proof. unfold fmul, of_int. rewrite Z.mul_assoc, Z.div_mul by (apply Z.pow_nonzero; lia). reflexivity. Qed.

(** *** Rounding never crosses a double

    Round-to-nearest of a nonnegative value lies between the two
    multiples of the spacing around it, and a double is a multiple of
    the spacing of every smaller value; so rounding a value below a
    double gives at most that double, and above a double at least it. *)

Lemma round_pos_bounds n :
  0 <= n -> 0 < Z.log2 n - 52 ->
  let s := Z.log2 n - 52 in
  (n / 2 ^ s) * 2 ^ s <= round_pos n <= (n / 2 ^ s + 1) * 2 ^ s /\
  (n mod 2 ^ s = 0 -> round_pos n = n).
Proof.
  intros Hn Hs s. unfold round_pos. fold s.
  replace (s <=? 0) with false by (symmetry; apply Z.leb_gt; lia).
  assert (Hp : 0 < 2 ^ s) by (apply Z.pow_pos_nonneg; lia).
  assert (Hh : 0 < 2 ^ (s - 1)) by (apply Z.pow_pos_nonneg; lia).
  split.
  - destruct (_ <? _); [|destruct (_ <? _); [|destruct (Z.even _)]]; nia.
  - intros Hr. rewrite Hr. replace (0 <? 2 ^ (s - 1)) with true by (symmetry; apply Z.ltb_lt; lia).
    pose proof (Z.div_mod n (2 ^ s) ltac:(lia)). lia.
Qed.

(** A double is a multiple of [2^s] for every [s] up to its own
    spacing exponent. *)
Lemma double_multiple d s :
  0 <= d -> round_pos d = d -> 0 <= s <= Z.log2 d - 52 -> d mod 2 ^ s = 0.
Proof.
  intros Hd Hr Hs. destruct (Z.eq_dec s 0) as [->|Hs0]; [apply Z.mod_1_r|].
  set (sd := Z.log2 d - 52) in *.
  assert (Hm : d mod 2 ^ sd = 0).
  { destruct (round_pos_bounds d Hd ltac:(lia)) as [_ _]. unfold round_pos in Hr. fold sd in Hr.
    replace (sd <=? 0) with false in Hr by (symmetry; apply Z.leb_gt; lia).
    rewrite <- Hr. apply Z.mod_mul. apply Z.pow_nonzero; lia. }
  replace sd with (s + (sd - s)) in Hm by lia. rewrite Z.pow_add_r in Hm by lia.
  assert (Hne : 2 ^ s * 2 ^ (sd - s) <> 0) by (apply Z.neq_mul_0; split; apply Z.pow_nonzero; lia).
  assert (Hne' : 2 ^ s <> 0) by (apply Z.pow_nonzero; lia).
  apply (proj1 (Z.mod_divide _ _ Hne)) in Hm. apply (proj2 (Z.mod_divide _ _ Hne')).
  eapply Z.divide_trans; [|exact Hm]. apply Z.divide_factor_l.
Qed.

Lemma round_pos_le n d :
  0 <= n <= d -> round_pos d = d -> round_pos n <= d.
Proof.
  intros Hn Hd. destruct (Z.leb_spec (Z.log2 n - 52) 0) as [Hs|Hs].
  { unfold round_pos. replace (Z.log2 n - 52 <=? 0) with true by (symmetry; apply Z.leb_le; lia). lia. }
  destruct (round_pos_bounds n ltac:(lia) Hs) as [[Hlo Hhi] Hex].
  set (s := Z.log2 n - 52) in *.
  assert (Hp : 0 < 2 ^ s) by (apply Z.pow_pos_nonneg; lia).
  assert (Hmd : d mod 2 ^ s = 0).
  { apply double_multiple; try lia. pose proof (Z.log2_le_mono n d ltac:(lia)). lia. }
  destruct (Z.eq_dec (n mod 2 ^ s) 0) as [H0|H0]; [rewrite (Hex H0); lia|].
  assert (Hq : n / 2 ^ s < d / 2 ^ s).
  { pose proof (Z.div_mod n (2 ^ s) ltac:(lia)). pose proof (Z.div_mod d (2 ^ s) ltac:(lia)).
    pose proof (Z.mod_pos_bound n (2 ^ s) Hp). nia. }
  pose proof (Z.div_mod d (2 ^ s) ltac:(lia)). nia.
Qed.

Lemma round_pos_ge n d :
  0 <= d <= n -> round_pos d = d -> d <= round_pos n.
Proof.
  intros Hn Hd. destruct (Z.leb_spec (Z.log2 n - 52) 0) as [Hs|Hs].
  { unfold round_pos. replace (Z.log2 n - 52 <=? 0) with true by (symmetry; apply Z.leb_le; lia). lia. }
  assert (Hn0 : 0 < n)
    by (destruct (Z.ltb_spec 0 n) as [|Hle]; [lia|rewrite (Z.log2_nonpos n Hle) in Hs; lia]).
  destruct (round_pos_bounds n ltac:(lia) Hs) as [[Hlo Hhi] _].
  set (s := Z.log2 n - 52) in *.
  assert (Hp : 0 < 2 ^ s) by (apply Z.pow_pos_nonneg; lia).
  enough (d <= n / 2 ^ s * 2 ^ s) by lia.
  pose proof (Z.log2_le_mono d n ltac:(lia)) as Hl.
  destruct (Z.eq_dec (Z.log2 d) (Z.log2 n)) as [E|E].
  - assert (Hmd : d mod 2 ^ s = 0) by (apply double_multiple; lia).
    pose proof (Z.div_mod d (2 ^ s) ltac:(lia)).
    assert (d / 2 ^ s <= n / 2 ^ s) by (apply Z.div_le_mono; lia). nia.
  - (* [d] lies below the binade of [n], which starts at a multiple of [2^s] *)
    assert (Hpow : 2 ^ Z.log2 n <= n) by apply (Z.log2_spec n Hn0).
    assert (Hd2 : d < 2 ^ Z.log2 n).
    { destruct (Z.eq_dec d 0) as [->|Hd0]; [apply Z.pow_pos_nonneg; lia|].
      eapply Z.lt_le_trans; [apply (Z.log2_spec d ltac:(lia))|]. apply Z.pow_le_mono_r; lia. }
    assert (Hm : 2 ^ Z.log2 n = 2 ^ (Z.log2 n - s) * 2 ^ s) by (rewrite <- Z.pow_add_r by lia; f_equal; lia).
    assert (2 ^ (Z.log2 n - s) <= n / 2 ^ s) by (apply Z.div_le_lower_bound; lia).
    nia.
Qed.

Lemma round_units_le n d : 0 <= n <= d -> round_pos d = d -> round_units n <= d.
Proof.
  intros Hn Hd. unfold round_units. replace (n <? 0) with false by (symmetry; apply Z.ltb_ge; lia).
  now apply round_pos_le.
Qed.

Lemma round_units_ge n d : 0 <= d <= n -> round_pos d = d -> d <= round_units n.
Proof.
  intros Hn Hd. unfold round_units. replace (n <? 0) with false by (symmetry; apply Z.ltb_ge; lia).
  now apply round_pos_ge.
Qed.

(** The double just below [delta * 2^53], for [2^m < delta < 2^(m+1)]. *)
Lemma double_below δ m :
  0 <= m <= 51 -> 2 ^ m < δ < 2 ^ (m + 1) ->
  round_pos (δ * 2 ^ 53 - 2 ^ (m + 1)) = δ * 2 ^ 53 - 2 ^ (m + 1).
Proof.
  intros Hm Hδ.
  replace (δ * 2 ^ 53 - 2 ^ (m + 1)) with ((δ * 2 ^ (52 - m) - 1) * 2 ^ (m + 1))
    by (rewrite Z.mul_sub_distr_r, <- Z.mul_assoc, <- Z.pow_add_r by lia;
        replace (52 - m + (m + 1)) with 53 by lia; ring).
  assert (E : 2 ^ (52 - m) * 2 ^ (m + 1) = 2 ^ 53) by (rewrite <- Z.pow_add_r by lia; f_equal; lia).
  assert (1 <= 2 ^ (52 - m)) by (apply (Z.pow_le_mono_r 2 0); lia).
  apply round_pos_exact; [|lia]. rewrite <- E. nia.
Qed.

(** Below [delta * 2^53], where [2^m < delta < 2^(m+1)], the doubles
    are [2^(m+1)] apart.  A value at least [delta] below [delta * 2^53]
    is nearer to the double under it than to [delta * 2^53], and
    rounds to at most that double. *)
Lemma round_pos_below δ m x :
  0 <= m <= 51 -> 2 ^ m < δ < 2 ^ (m + 1) -> 0 <= x <= δ * 2 ^ 53 - δ ->
  round_pos x <= δ * 2 ^ 53 - 2 ^ (m + 1).
Proof.
  intros Hm Hδ Hx. set (W := 2 ^ (m + 1)). set (A := 2 ^ (52 - m)).
  assert (HWA : W * A = 2 ^ 53) by (unfold W, A; rewrite <- Z.pow_add_r by lia; f_equal; lia).
  assert (HW : W = 2 * 2 ^ m) by (unfold W; rewrite Z.pow_add_r by lia; lia).
  assert (HA : 2 <= A) by (unfold A; change 2 with (2 ^ 1) at 1; apply Z.pow_le_mono_r; lia).
  assert (HP : 1 <= 2 ^ m) by (apply (Z.pow_le_mono_r 2 0); lia).
  assert (Hd : δ * 2 ^ 53 - W = (δ * A - 1) * W) by (rewrite <- HWA; ring).
  assert (Hdd : round_pos (δ * 2 ^ 53 - W) = δ * 2 ^ 53 - W) by exact (double_below δ m Hm Hδ).
  destruct (Z.le_gt_cases x (δ * 2 ^ 53 - W)) as [Hle|Hgt].
  - apply round_pos_le; [lia|exact Hdd].
  - (* [x] is in the binade [2^(53+m), 2^(54+m)) with spacing [2^(m+1)] *)
    assert (Hlog : Z.log2 x = 53 + m).
    { apply Z.log2_unique; [lia|]. rewrite Z.pow_add_r by lia.
      replace (2 ^ Z.succ (53 + m)) with (2 ^ 53 * W) by (unfold W; rewrite <- Z.pow_add_r by lia; f_equal; lia).
      assert (HT : 2 * W <= 2 ^ 53) by (rewrite <- HWA; nia).
      assert ((2 ^ m + 1) * 2 ^ 53 <= δ * 2 ^ 53) by (apply Z.mul_le_mono_nonneg_r; lia).
      assert (δ * 2 ^ 53 <= (W - 1) * 2 ^ 53) by (apply Z.mul_le_mono_nonneg_r; lia).
      clearbody W A. nia. }
    unfold round_pos. rewrite Hlog. replace (53 + m - 52) with (m + 1) by lia. fold W.
    replace (m + 1 <=? 0) with false by (symmetry; apply Z.leb_gt; lia).
    replace (m + 1 - 1) with m by lia.
    assert (Hq : x / W = δ * A - 1).
    { symmetry. apply (Z.div_unique_pos x W _ (x - (δ * 2 ^ 53 - W))); [|rewrite Hd; ring].
      rewrite <- HWA in *. nia. }
    assert (Hr : x mod W = x - (δ * 2 ^ 53 - W)).
    { symmetry. apply (Z.mod_unique_pos x W (δ * A - 1)); [|rewrite Hd; ring]. rewrite <- HWA in *. nia. }
    rewrite Hq, Hr. replace (x - (δ * 2 ^ 53 - W) <? 2 ^ m) with true
      by (symmetry; apply Z.ltb_lt; rewrite <- HWA in *; nia).
    rewrite <- Hd. lia.
Qed.

(** An integer below [2^53] is a double. *)
Lemma of_int_double m : 0 <= m < 2 ^ 53 -> round_pos (of_int m) = of_int m.
Proof. intros Hm. unfold of_int. apply round_pos_exact; lia. Qed.

Section Draws.
Context {R : Randomizer}.

Lemma bind_step {A B} (m : M A) (f : A -> M B) s a s' :
  m s = Some (a, s') -> bind m f s = f a s'.
Proof. unfold bind. now intros ->. Qed.

(** When [(max + 1) * 2^b <= 2^53] no product or sum rounds, and
    [number.int] is [min + floor(k * (max - min + 1) / 2^b)] of the draw
    [k]. *)
Lemma number_int_exact a mn mx s :
  arg_bounds a = (mn, mx) -> 0 <= mn < mx -> (mx + 1) * 2 ^ next_bits <= 2 ^ 53 ->
  number_int a s = Some (mn + fst (next s) * (mx - mn + 1) / 2 ^ next_bits, snd (next s)).
Proof.
  intros Ha Hmn Hb. unfold number_int. rewrite Ha.
  replace (mn =? mx) with false by (symmetry; apply Z.eqb_neq; lia).
  replace (mx <? mn) with false by (symmetry; apply Z.ltb_ge; lia).
  pose proof (next_range s) as Hk. pose proof next_bits_range as Hnb.
  destruct (next s) as [k s']. simpl fst in *. simpl snd. f_equal. f_equal.
  set (b := next_bits) in *. set (P := 2 ^ b) in *.
  assert (HT : 2 ^ 53 = P * 2 ^ (53 - b)) by (unfold P; rewrite <- Z.pow_add_r by lia; f_equal; lia).
  assert (HP : 0 < P) by (apply Z.pow_pos_nonneg; lia).
  rewrite fmul_of_int, Z.mul_comm, Z.mul_assoc, round_units_exact by nia.
  unfold fadd, of_int. rewrite HT at 1.
  replace (mn * (mx - mn + 1) * 2 ^ (53 - b)) with (mn * 2 ^ (53 - b) * (mx - mn + 1)) by ring.
  replace ((mx - mn + 1) * k * 2 ^ (53 - b) + mn * (P * 2 ^ (53 - b)))
    with ((mn * P + k * (mx - mn + 1)) * 2 ^ (53 - b)) by ring.
  rewrite round_units_exact by nia. unfold floor. rewrite HT.
  rewrite Z.div_mul_cancel_r by (lia || (apply Z.pow_nonzero; lia)).
  rewrite Z.div_add_l by lia. reflexivity.
Qed.

Lemma number_int_range a mn mx s :
  arg_bounds a = (mn, mx) -> 0 <= mn < mx -> (mx + 1) * 2 ^ next_bits <= 2 ^ 53 ->
  exists v s', number_int a s = Some (v, s') /\ mn <= v <= mx.
Proof.
  intros Ha Hmn Hb. rewrite (number_int_exact a mn mx s Ha Hmn Hb).
  do 2 eexists. split; [reflexivity|].
  pose proof (next_range s) as Hk. set (k := fst (next s)) in *.
  assert (HP : 0 < 2 ^ next_bits) by (apply Z.pow_pos_nonneg; pose proof next_bits_range; lia).
  split.
  - assert (0 <= k * (mx - mn + 1) / 2 ^ next_bits) by (apply Z.div_pos; nia). lia.
  - assert (k * (mx - mn + 1) / 2 ^ next_bits < mx - mn + 1)
      by (apply Z.div_lt_upper_bound; nia). lia.
Qed.

(** At every resolution up to 53 bits, [number.int] lies between the
    minimum and one above the maximum: neither rounding can cross the
    doubles [0], [delta], [min] and [max + 1]. *)
Lemma number_int_bounds a mn mx s :
  arg_bounds a = (mn, mx) -> 0 <= mn <= mx -> mx + 1 < 2 ^ 53 ->
  exists v s', number_int a s = Some (v, s') /\ mn <= v <= mx + 1.
Proof.
  intros Ha Hmn Hmx. unfold number_int. rewrite Ha.
  destruct (Z.eqb_spec mn mx) as [->|Hne]; [do 2 eexists; split; [reflexivity|lia]|].
  replace (mx <? mn) with false by (symmetry; apply Z.ltb_ge; lia).
  pose proof (next_range s) as Hk. pose proof next_bits_range as Hb.
  destruct (next s) as [k s']. simpl fst in Hk. do 2 eexists. split; [reflexivity|].
  set (b := next_bits) in *. set (delta := mx - mn + 1).
  assert (HT : 2 ^ 53 = 2 ^ b * 2 ^ (53 - b)) by (rewrite <- Z.pow_add_r by lia; f_equal; lia).
  assert (Hx : 0 <= k * 2 ^ (53 - b) * delta <= of_int delta).
  { unfold of_int. rewrite HT. assert (0 < 2 ^ (53 - b)) by (apply Z.pow_pos_nonneg; lia).
    assert (0 < delta) by (unfold delta; lia).
    set (T := 2 ^ (53 - b)) in *. set (P := 2 ^ b) in *.
    split; [apply Z.mul_nonneg_nonneg; [apply Z.mul_nonneg_nonneg|]; lia|].
    replace (delta * (P * T)) with ((P * T) * delta) by ring. apply Z.mul_le_mono_nonneg_r; [lia|].
    apply Z.mul_le_mono_nonneg_r; lia. }
  rewrite fmul_of_int. set (r1 := round_units (k * 2 ^ (53 - b) * delta)).
  assert (H1 : 0 <= r1 <= of_int delta).
  { split; [apply (round_units_ge _ 0); [lia|reflexivity]|].
    apply round_units_le; [lia|apply of_int_double; lia]. }
  unfold fadd. set (r2 := round_units (r1 + of_int mn)).
  assert (H2 : of_int mn <= r2 <= of_int (mx + 1)).
  { split; [apply round_units_ge; [unfold of_int in *; lia|apply of_int_double; lia]|].
    apply round_units_le; [unfold of_int in *; unfold delta in H1; lia|apply of_int_double; lia]. }
  unfold floor, of_int in *. split.
  - rewrite <- (Z.div_mul mn (2 ^ 53)) by lia. apply Z.div_le_mono; lia.
  - rewrite <- (Z.div_mul (mx + 1) (2 ^ 53)) by lia. apply Z.div_le_mono; lia.
Qed.

(** With [number.int(max)], the minimum being [0], the sum adds
    nothing and the product stays below [max + 1]: when [max + 1] is
    not a power of two, the draw never exceeds [max], at every
    resolution. *)
Lemma number_int_max mx s :
  1 <= mx < 2 ^ 51 -> 2 ^ Z.log2 (mx + 1) <> mx + 1 ->
  exists v s', number_int (IntMax mx) s = Some (v, s') /\ 0 <= v <= mx.
Proof.
  intros Hmx Hp. remember (Z.log2 (mx + 1)) as m eqn:Em.
  assert (Hl : 2 ^ m <= mx + 1 < 2 ^ (m + 1))
    by (subst m; rewrite Z.add_1_r; apply Z.log2_spec; lia).
  assert (Hm : 0 <= m <= 51).
  { subst m. split; [apply Z.log2_nonneg|].
    assert (Z.log2 (mx + 1) < 52) by (apply Z.log2_lt_pow2; [lia|]; change (2 ^ 52) with (2 * 2 ^ 51); lia).
    lia. }
  assert (Hδ : 2 ^ m < mx + 1 < 2 ^ (m + 1)) by lia.
  unfold number_int. cbn [arg_bounds].
  replace (0 =? mx) with false by (symmetry; apply Z.eqb_neq; lia).
  replace (mx <? 0) with false by (symmetry; apply Z.ltb_ge; lia).
  pose proof (next_range s) as Hk. pose proof next_bits_range as Hb.
  destruct (next s) as [k s']. cbn [fst] in Hk. do 2 eexists. split; [reflexivity|].
  set (T := 2 ^ (53 - next_bits)).
  assert (HT : 2 ^ next_bits * T = 2 ^ 53) by (unfold T; rewrite <- Z.pow_add_r by lia; f_equal; lia).
  assert (HT1 : 1 <= T) by (apply (Z.pow_le_mono_r 2 0); lia).
  assert (Hr : 0 <= k * T <= 2 ^ 53 - 1) by (rewrite <- HT; nia).
  rewrite fmul_of_int. replace (mx - 0 + 1) with (mx + 1) by lia.
  assert (Hx : 0 <= k * T * (mx + 1) <= (mx + 1) * 2 ^ 53 - (mx + 1)) by nia.
  set (d := (mx + 1) * 2 ^ 53 - 2 ^ (m + 1)).
  assert (Hd : round_pos d = d) by exact (double_below (mx + 1) m Hm Hδ).
  assert (Hd0 : 0 <= d) by (unfold d; rewrite Z.pow_add_r by lia; nia).
  assert (H1 : 0 <= round_units (k * T * (mx + 1)) <= d).
  { split; [apply round_units_ge; [lia|reflexivity]|].
    unfold round_units. replace (k * T * (mx + 1) <? 0) with false by (symmetry; apply Z.ltb_ge; lia).
    exact (round_pos_below (mx + 1) m _ Hm Hδ Hx). }
  unfold fadd, of_int. rewrite Z.mul_0_l, Z.add_0_r.
  assert (H2 : 0 <= round_units (round_units (k * T * (mx + 1))) <= d).
  { split; [apply round_units_ge; [lia|reflexivity]|apply round_units_le; [lia|exact Hd]]. }
  unfold floor. split; [apply Z.div_pos; lia|].
  assert (round_units (round_units (k * T * (mx + 1))) / 2 ^ 53 < mx + 1); [|lia].
  apply Z.div_lt_upper_bound; [lia|]. unfold d in H2. assert (0 < 2 ^ (m + 1)) by (apply Z.pow_pos_nonneg; lia). lia.
Qed.

(** A draw of [number.int] with [min < max] consumes exactly one value
    of the randomizer. *)
Lemma number_int_state a mn mx s :
  arg_bounds a = (mn, mx) -> mn < mx -> exists v, number_int a s = Some (v, snd (next s)).
Proof.
  intros Ha Hlt. unfold number_int. rewrite Ha.
  replace (mn =? mx) with false by (symmetry; apply Z.eqb_neq; lia).
  replace (mx <? mn) with false by (symmetry; apply Z.ltb_ge; lia).
  destruct (next s) as [k s']. eexists. reflexivity.
Qed.

(** The humidity draw computed: [Math.floor(real * 31 + 30)] in
    doubles, for the draw [real = k / 2^b]. *)
Lemma number_int_humidity_eq s :
  number_int (IntOpts 30 60) s =
  Some (floor (fadd (round_units (fst (next s) * 2 ^ (53 - next_bits) * 31)) (of_int 30)), snd (next s)).
Proof.
  unfold number_int, arg_bounds. cbv beta iota zeta.
  change (30 =? 60) with false. change (60 <? 30) with false. cbv beta iota.
  destruct (next s) as [k s0]. cbv beta iota. rewrite fmul_of_int. reflexivity.
Qed.

(** The humidity draw [number.int({min: 30, max: 60})] is [61] exactly
    for the draw [2^53 - 1] of a 53-bit randomizer.  Below it the draw
    [real] is at most [1 - 2^-52], [real * 31] rounds to at most
    [31 - 2^-47] and adding [30] stays below [61].  For [2^53 - 1] the
    product rounds to [31 - 2^-48] and the sum is a tie that rounds to
    even, [61]. *)
Lemma number_int_humidity s v s' :
  number_int (IntOpts 30 60) s = Some (v, s') ->
  (v = 61 <-> next_bits = 53 /\ fst (next s) = 2 ^ 53 - 1).
Proof.
  intros H. rewrite number_int_humidity_eq in H.
  apply (f_equal (fun o => match o with Some p => fst p | None => 0 end)) in H.
  cbn [fst] in H. subst v.
  pose proof (next_range s) as Hk. pose proof next_bits_range as Hb.
  set (k := fst (next s)) in *. set (b := next_bits) in *. clearbody k b.
  assert (HT : 2 ^ 53 = 2 ^ b * 2 ^ (53 - b)) by (rewrite <- Z.pow_add_r by lia; f_equal; lia).
  assert (HP : 0 < 2 ^ (53 - b)) by (apply Z.pow_pos_nonneg; lia).
  assert (Hx : 0 <= k * 2 ^ (53 - b) <= 2 ^ 53 - 1) by nia.
  destruct (Z.eq_dec (k * 2 ^ (53 - b)) (2 ^ 53 - 1)) as [Ex|Ex].
  - rewrite Ex. split; [intros _|reflexivity].
    destruct (Z.eq_dec b 53) as [->|Hb53]; [split; [reflexivity|]; rewrite Z.sub_diag in Ex; lia|].
    exfalso. assert (E2 : 2 ^ (53 - b) = 2 * 2 ^ (52 - b)) by (rewrite <- Z.pow_succ_r by lia; f_equal; lia).
    rewrite E2 in Ex. lia.
  - assert (H1 : round_units (k * 2 ^ (53 - b) * 31) <= 31 * 2 ^ 53 - 64).
    { destruct (Z.le_gt_cases (k * 2 ^ (53 - b) * 31) (31 * 2 ^ 53 - 64)).
      - apply round_units_le; [lia|reflexivity].
      - replace (k * 2 ^ (53 - b)) with (2 ^ 53 - 2) by lia. apply Z.eq_le_incl. reflexivity. }
    assert (H0 : 0 <= round_units (k * 2 ^ (53 - b) * 31)) by (apply (round_units_ge _ 0); [lia|reflexivity]).
    assert (H2 : fadd (round_units (k * 2 ^ (53 - b) * 31)) (of_int 30) <= 61 * 2 ^ 53 - 64)
      by (apply round_units_le; [unfold of_int; lia|reflexivity]).
    assert (H3 : floor (fadd (round_units (k * 2 ^ (53 - b) * 31)) (of_int 30)) <= 60).
    { unfold floor. change 60 with ((61 * 2 ^ 53 - 64) / 2 ^ 53). apply Z.div_le_mono; lia. }
    split; [lia|]. intros [Eb Hk53]. exfalso. apply Ex. rewrite Eb, Z.sub_diag. lia.
Qed.

End Draws.

(** An option computed to be [Some]. *)
Lemma some_of_check {A} (o : option A) : match o with Some _ => true | None => false end = true -> exists a, o = Some a.
Proof. destruct o as [a|]; [eauto|discriminate]. Qed.

(** *** Every value of a range is drawn

    Rounding keeps a value between the doubles [j] and [j + 1 - 2^-46]:
    both ends are representable for [j < 127]. *)
Lemma round_units_within j x :
  0 <= j < 127 -> of_int j <= x <= of_int (j + 1) - 2 ^ 7 ->
  of_int j <= round_units x <= of_int (j + 1) - 2 ^ 7.
Proof.
  intros Hj Hx. assert (E46 : 2 ^ 46 = 70368744177664) by reflexivity.
  assert (E53 : 2 ^ 53 = 2 ^ 46 * 2 ^ 7) by reflexivity.
  assert (0 <= of_int j) by (unfold of_int; lia). split.
  - apply round_units_ge; [lia|]. apply of_int_double. lia.
  - apply round_units_le; [lia|].
    replace (of_int (j + 1) - 2 ^ 7) with (((j + 1) * 2 ^ 46 - 1) * 2 ^ 7)
      by (unfold of_int; rewrite E53; ring).
    apply round_pos_exact; lia.
Qed.

(** The draw that makes [number.int] return [v] at resolution [b]:
    [ceil((v - min) * 2^b / delta)]. *)
Definition hit (b mn mx v : Z) : Z := ((v - mn) * 2 ^ b + (mx - mn)) / (mx - mn + 1).

Lemma hit_bounds b mn mx v :
  7 <= b -> 0 <= mn -> mn < mx <= 100 -> mn <= v <= mx ->
  0 <= hit b mn mx v < 2 ^ b /\
  (v - mn) * 2 ^ b <= (mx - mn + 1) * hit b mn mx v <= (v - mn) * 2 ^ b + (mx - mn).
Proof.
  intros Hb Hm0 Hm Hv. set (P := 2 ^ b). set (k := hit b mn mx v).
  assert (HP : 128 <= P) by (change 128 with (2 ^ 7); apply Z.pow_le_mono_r; lia).
  assert (Hk1 : (mx - mn + 1) * k <= (v - mn) * P + (mx - mn))
    by (apply Z.mul_div_le; lia).
  assert (Hk2 : (v - mn) * P + (mx - mn) < (mx - mn + 1) * (k + 1))
    by (apply Z.mul_succ_div_gt; lia).
  clearbody P k. split; [split|split]; nia.
Qed.

(** At any resolution of at least 7 bits, the draw [hit] gives [v]. *)
Lemma number_int_hit {R : Randomizer} a mn mx v s :
  arg_bounds a = (mn, mx) -> 0 <= mn -> mn < mx <= 100 -> mn <= v <= mx -> 7 <= next_bits ->
  fst (next s) = hit next_bits mn mx v -> number_int a s = Some (v, snd (next s)).
Proof.
  intros Ha Hm0 Hm Hv Hb Hk. unfold number_int. rewrite Ha.
  replace (mn =? mx) with false by (symmetry; apply Z.eqb_neq; lia).
  replace (mx <? mn) with false by (symmetry; apply Z.ltb_ge; lia).
  destruct (hit_bounds next_bits mn mx v Hb Hm0 Hm Hv) as (_ & Hlo & Hhi).
  pose proof next_bits_range as Hnb. destruct (next s) as [k s']. cbn [fst snd] in *. subst k.
  f_equal. f_equal. set (b := next_bits) in *. set (k := hit b mn mx v) in *.
  set (T := 2 ^ (53 - b)).
  assert (HPT : 2 ^ b * T = 2 ^ 53) by (unfold T; rewrite <- Z.pow_add_r by lia; f_equal; lia).
  assert (HT : 1 <= T <= 2 ^ 46).
  { split; [apply (Z.pow_le_mono_r 2 0); lia|apply Z.pow_le_mono_r; lia]. }
  assert (E46 : 2 ^ 46 = 70368744177664) by reflexivity.
  assert (E53 : 2 ^ 53 = 9007199254740992) by reflexivity.
  clearbody T k. rewrite fmul_of_int.
  assert (H1 : of_int (v - mn) <= k * T * (mx - mn + 1) <= of_int (v - mn + 1) - 2 ^ 7).
  { unfold of_int. rewrite <- HPT.
    assert (L : (v - mn) * 2 ^ b * T <= (mx - mn + 1) * k * T) by (apply Z.mul_le_mono_nonneg_r; lia).
    assert (U : (mx - mn + 1) * k * T <= ((v - mn) * 2 ^ b + (mx - mn)) * T)
      by (apply Z.mul_le_mono_nonneg_r; lia).
    assert (W : (mx - mn) * T <= 100 * 2 ^ 46) by nia. rewrite HPT, E53 in *. nia. }
  apply round_units_within in H1; [|lia].
  unfold fadd. assert (H2 : of_int v <= round_units (k * T * (mx - mn + 1)) + of_int mn <=
                            of_int (v + 1) - 2 ^ 7) by (unfold of_int in *; lia).
  apply round_units_within in H2; [|lia]. unfold floor, of_int in *.
  apply Z.le_antisymm.
  - apply Z.lt_succ_r, Z.div_lt_upper_bound; lia.
  - apply Z.div_le_lower_bound; lia.
Qed.

(** The scripted randomizer of resolution [b] draws [hit] as it is. *)
Lemma scripted_hit b Hb a mn mx v r :
  arg_bounds a = (mn, mx) -> 0 <= mn -> mn < mx <= 100 -> mn <= v <= mx -> 7 <= b ->
  @number_int (scripted b Hb) a (hit b mn mx v :: r) = Some (v, r).
Proof.
  intros Ha Hm0 Hm Hv Hb7. destruct (hit_bounds b mn mx v Hb7 Hm0 Hm Hv) as [Hk _].
  pose proof (@number_int_hit (scripted b Hb) a mn mx v (hit b mn mx v :: r) Ha Hm0 Hm Hv Hb7) as E.
  cbn [snd next scripted] in E. apply E. cbn. now apply Z.mod_small.
Qed.

End SensorFacts.

Module SensorProps.
Import JsValue Double Faker Sensor SensorFacts.

(** Runs the next [number.int] of a generation with the bounds lemma
    [lem], whose last hypothesis [Hp] gives for the maximum. *)
Ltac draw lem Hp :=
  match goal with
  | |- context [bind (number_int ?a) ?f ?s] =>
      let ab := eval cbv in (arg_bounds a) in
      lazymatch ab with
      | (?mn, ?mx) =>
          let v := fresh "v" in let s' := fresh "s" in
          let E := fresh "E" in let B := fresh "B" in
          destruct (lem a mn mx s eq_refl ltac:(lia) (Hp mx ltac:(lia)))
            as (v & s' & E & B);
          rewrite (bind_step (number_int a) f s v s' E)
      end
  end.

(** C6: With a randomizer of at most 46 bits (faker's 32-bit
    [genrandReal2] among them) a reading never fails, carries the kiosk
    identifier and the clock's time, and every random field lies in its
    documented range: temperature and pressure in [0, 100], humidity in
    [30, 60], air quality and current in [0, 10], voltage in [0, 12]. *)
Theorem generateSensorData_in_range {R : Randomizer} kid e :
  next_bits <= 46 ->
  exists d e', generateSensorData kid e = Some (d, e') /\
    kiosk d = kid /\ time d = now e /\ now e' = now e /\
    0 <= temperature d <= 100 /\ 30 <= humidity d <= 60 /\ 0 <= pressure d <= 100 /\
    0 <= air_quality d <= 10 /\ 0 <= current d <= 10 /\ 0 <= voltage d <= 12.
Proof.
  intros Hb.
  assert (Hp : forall mx, mx <= 100 -> (mx + 1) * 2 ^ next_bits <= 2 ^ 53).
  { intros mx Hmx. pose proof next_bits_range.
    assert (2 ^ next_bits <= 2 ^ 46) by (apply Z.pow_le_mono_r; lia).
    assert (E : 2 ^ 53 = 128 * 2 ^ 46) by reflexivity. nia. }
  unfold generateSensorData. cbv zeta. do 6 draw number_int_range Hp.
  do 2 eexists. split; [reflexivity|]. cbn. repeat split; lia.
Qed.

Lemma generateSensorData_in_range_witness :
  (@next_bits scripted32 <= 46) /\
  exists d e', @generateSensorData scripted32 (of_Z 7) (@mkEnv scripted32 1000 [5; 6; 7]) = Some (d, e') /\
    kiosk d = of_Z 7 /\ time d = 1000 /\ now e' = 1000 /\
    0 <= temperature d <= 100 /\ 30 <= humidity d <= 60 /\ 0 <= pressure d <= 100 /\
    0 <= air_quality d <= 10 /\ 0 <= current d <= 10 /\ 0 <= voltage d <= 12.
Proof.
  assert (H : @next_bits scripted32 <= 46) by (vm_compute; discriminate).
  split; [exact H|]. exact (generateSensorData_in_range (of_Z 7) (@mkEnv scripted32 1000 [5; 6; 7]) H).
Defined.

(** C18: The humidity leaves its documented range only at faker's
    default 53-bit resolution, and only for one draw: a reading has
    humidity 61 exactly when the randomizer has 53 bits and the
    humidity's draw, the second of the call, is [2^53 - 1].  For every
    other draw, and at every lower resolution, [real * 31] rounds to at
    most [31 - 2^-47] and the humidity is at most 60.  For that draw the
    product rounds to [31 - 2^-48], and adding 30 is a tie that rounds
    to even, 61. *)
Theorem generateSensorData_humidity_61 {R : Randomizer} kid e d e' :
  generateSensorData kid e = Some (d, e') ->
  (humidity d = 61 <-> next_bits = 53 /\ fst (next (snd (next (rng e)))) = 2 ^ 53 - 1).
Proof.
  unfold generateSensorData. cbv zeta.
  repeat match goal with
         | |- context [bind (number_int ?a) ?f ?s] =>
             let ab := eval cbv in (arg_bounds a) in
             lazymatch ab with
             | (?mn, ?mx) =>
                 let v := fresh "v" in let E := fresh "E" in
                 destruct (number_int_state a mn mx s eq_refl ltac:(lia)) as [v E];
                 rewrite (bind_step (number_int a) f s v _ E)
             end
         end.
  intros H. injection H as <- _. cbn [humidity].
  match goal with Hh : number_int (IntOpts 30 60) _ = Some _ |- _ => exact (number_int_humidity _ _ _ Hh) end.
Qed.

Lemma generateSensorData_humidity_61_witness :
  exists d e', @generateSensorData scripted53 (of_Z 7) (@mkEnv scripted53 1000 [0; 2 ^ 53 - 1]) = Some (d, e') /\
    humidity d = 61.
Proof.
  destruct (some_of_check (@generateSensorData scripted53 (of_Z 7) (@mkEnv scripted53 1000 [0; 2 ^ 53 - 1]))
              ltac:(vm_compute; reflexivity)) as [[d e'] H].
  exists d, e'. split; [exact H|].
  apply (proj2 (generateSensorData_humidity_61 _ _ d e' H)). split; vm_compute; reflexivity.
Defined.

(** Runs the next [number.int(max)] of a generation with
    [number_int_max]. *)
Ltac draw_max :=
  match goal with
  | |- context [bind (number_int (IntMax ?mx)) ?f ?s] =>
      let v := fresh "v" in let s' := fresh "s" in
      let E := fresh "E" in let B := fresh "B" in
      destruct (number_int_max mx s ltac:(lia) ltac:(vm_compute; congruence)) as (v & s' & E & B);
      rewrite (bind_step (number_int (IntMax mx)) f s v s' E)
  end.

(** C21: Whatever the randomizer's resolution, a reading never fails,
    carries the kiosk identifier and the clock's time, and only the
    humidity can leave its documented range, by one at most.  The five
    fields drawn with [number.int(max)] stay in range: their minimum is
    0, so the product is not rounded a second time, and it stays below
    [max + 1].  The humidity has minimum 30, and the second rounding
    can reach [max + 1]; no rounding can cross a double, so it goes no
    further. *)
Theorem generateSensorData_bounds {R : Randomizer} kid e :
  exists d e', generateSensorData kid e = Some (d, e') /\
    kiosk d = kid /\ time d = now e /\ now e' = now e /\
    0 <= temperature d <= 100 /\ 30 <= humidity d <= 61 /\ 0 <= pressure d <= 100 /\
    0 <= air_quality d <= 10 /\ 0 <= current d <= 10 /\ 0 <= voltage d <= 12.
Proof.
  assert (Hp : forall mx, mx <= 100 -> mx + 1 < 2 ^ 53) by (intros; lia).
  unfold generateSensorData. cbv zeta.
  draw_max. draw number_int_bounds Hp. do 4 draw_max.
  do 2 eexists. split; [reflexivity|]. cbn. repeat split; lia.
Qed.

(** C24: At every resolution from 7 to 53 bits (faker's 32-bit
    [genrandReal2] and its default 53-bit [genrandRes53] among them)
    every reading within the documented ranges is produced: for each
    choice of the six fields there are draws that give exactly that
    reading.  With C6 the documented ranges are exactly the set of
    readings at 32 bits; at 53 bits C18 adds the humidity 61. *)
Theorem generateSensorData_reaches (b : Z) (Hb : 0 <= b <= 53) kid t temp hum pres aq cur volt :
  7 <= b ->
  0 <= temp <= 100 -> 30 <= hum <= 60 -> 0 <= pres <= 100 ->
  0 <= aq <= 10 -> 0 <= cur <= 10 -> 0 <= volt <= 12 ->
  exists ks, option_map fst (@generateSensorData (scripted b Hb) kid (@mkEnv (scripted b Hb) t ks)) =
             Some (mkSensorData kid t temp hum pres aq cur volt).
Proof.
  intros. exists [hit b 0 100 temp; hit b 30 60 hum; hit b 0 100 pres;
                  hit b 0 10 aq; hit b 0 10 cur; hit b 0 12 volt].
  unfold generateSensorData. cbv zeta. cbn [rng now].
  repeat match goal with
         | |- context [bind (number_int ?a) ?f (hit b ?mn ?mx ?v :: ?r)] =>
             rewrite (bind_step (number_int a) f _ v r
                        (scripted_hit b Hb a mn mx v r eq_refl ltac:(lia) ltac:(lia) ltac:(lia) ltac:(lia)))
         end.
  reflexivity.
Qed.

(** A reading at the default 53-bit resolution. *)
Lemma generateSensorData_reaches_witness :
  exists ks, option_map fst (@generateSensorData scripted53 (of_Z 7) (@mkEnv scripted53 1000 ks)) =
             Some (mkSensorData (of_Z 7) 1000 37 60 99 0 10 12).
Proof. unfold scripted53. apply generateSensorData_reaches; lia. Defined.

End SensorProps.
