(* ===== verification/SensorRuns.v ===== *)
(** * Repeated sensor readings (src/src/lib/utils/generateSensorData.ts)

    The application calls [generateSensorData] again and again (the
    specification checks 1000 calls) while the clock moves on between
    calls.  A run is a sequence of events:
    - [Tick dt] moves the clock by [dt] milliseconds;
    - [Call kid] is one call of the source function.
    The events are threaded through the environment of [Sensor]: the
    clock and the randomizer state.  The theorems show that every call
    of every run returns a reading for its kiosk.  For a randomizer of
    at most 46 bits and a clock that does not go back, the readings of
    a run stay in the documented ranges and are in time order. *)
From Stdlib Require Import List Bool ZArith Lia Sorting.Sorted.
Import ListNotations.
From S2P Require Import Spec2Rocq JsValue SensorData.

Open Scope Z_scope.

Module SensorRuns.
Import JsValue Double Faker Sensor SensorFacts SensorProps.

Inductive event := Tick (dt : Z) | Call (kiosk_id : number).

Section Runs.
Context {R : Randomizer}.

(** One event.  A call gives its reading, or [None] at the top when
    it throws. *)
Definition step (e : env) (ev : event) : option (option SensorData * env) :=
  match ev with
  | Tick dt => Some (None, mkEnv (now e + dt) (rng e))
  | Call kid =>
      match generateSensorData kid e with
      | Some (d, e') => Some (Some d, e')
      | None => None
      end
  end.

(** A run: the readings of the calls, in call order. *)
Fixpoint run (evs : list event) (e : env) : option (list SensorData * env) :=
  match evs with
  | [] => Some ([], e)
  | ev :: evs' =>
      match step e ev with
      | None => None
      | Some (o, e1) =>
          match run evs' e1 with
          | None => None
          | Some (ds, e2) => Some (match o with Some d => d :: ds | None => ds end, e2)
          end
      end
  end.

End Runs.

(** The kiosk identifiers of the calls of a run, in order. *)
Definition calls (evs : list event) : list number :=
  flat_map (fun ev => match ev with Call k => [k] | Tick _ => [] end) evs.

(** The clock's time at each call of a run that starts at time [t]. *)
Fixpoint call_times (t : Z) (evs : list event) : list Z :=
  match evs with
  | [] => []
  | Tick dt :: evs' => call_times (t + dt) evs'
  | Call _ :: evs' => t :: call_times t evs'
  end.

(** The clock never goes back. *)
Definition clock_monotone (evs : list event) : Prop :=
  Forall (fun ev => match ev with Tick dt => 0 <= dt | Call _ => True end) evs.

(** The documented ranges of the six fields (spec section 4.2). *)
Definition in_documented_range (d : SensorData) : bool :=
  (0 <=? temperature d) && (temperature d <=? 100) &&
  (30 <=? humidity d) && (humidity d <=? 60) &&
  (0 <=? pressure d) && (pressure d <=? 100) &&
  (0 <=? air_quality d) && (air_quality d <=? 10) &&
  (0 <=? current d) && (current d <=? 10) &&
  (0 <=? voltage d) && (voltage d <=? 12).

(** ** One call *)

Section Call.
Context {R : Randomizer}.

(** A call returns, whatever the resolution, with the kiosk and the
    clock's time, and leaves the clock alone. *)
Lemma call_spec kid e :
  exists d e', generateSensorData kid e = Some (d, e') /\
               kiosk d = kid /\ time d = now e /\ now e' = now e.
Proof.
  assert (Hp : forall mx, mx <= 100 -> mx + 1 < 2 ^ 53) by (intros mx Hmx; lia).
  unfold generateSensorData. cbv zeta. do 6 draw number_int_bounds Hp.
  do 2 eexists. split; [reflexivity|]. cbn. auto.
Qed.

Lemma call_in_range kid e d e' :
  next_bits <= 46 -> generateSensorData kid e = Some (d, e') -> in_documented_range d = true.
Proof.
  intros Hb. assert (Hp : forall mx, mx <= 100 -> (mx + 1) * 2 ^ next_bits <= 2 ^ 53).
  { intros mx Hmx. pose proof next_bits_range.
    assert (2 ^ next_bits <= 2 ^ 46) by (apply Z.pow_le_mono_r; lia).
    assert (E : 2 ^ 53 = 128 * 2 ^ 46) by reflexivity. nia. }
  unfold generateSensorData. cbv zeta. do 6 draw number_int_range Hp.
  intros H. inversion H. subst. unfold in_documented_range. cbn [temperature humidity pressure air_quality current voltage].
  repeat (apply andb_true_intro; split); apply Z.leb_le; lia.
Qed.

End Call.

(** ** Runs *)

Section RunFacts.
Context {R : Randomizer}.

Lemma run_cons ev evs e :
  run (ev :: evs) e =
  match step e ev with
  | None => None
  | Some (o, e1) =>
      match run evs e1 with
      | None => None
      | Some (ds, e2) => Some (match o with Some d => d :: ds | None => ds end, e2)
      end
  end.
Proof. reflexivity. Qed.

(** Every run returns. *)
Lemma run_total evs e : exists ds e', run evs e = Some (ds, e').
Proof.
  revert e. induction evs as [|[dt|kid] evs IH]; intros e; [exists [], e; auto|..]; rewrite run_cons; cbn [step].
  - destruct (IH (mkEnv (now e + dt) (rng e))) as (ds & e' & ->). eauto.
  - destruct (call_spec kid e) as (d & e1 & Hd & _). rewrite Hd.
    destruct (IH e1) as (ds & e' & ->). eauto.
Qed.

(** The readings of a run are those of its calls: one per call, for
    the kiosk of the call, at the clock's time of the call. *)
Lemma run_calls evs e ds e' :
  run evs e = Some (ds, e') -> map kiosk ds = calls evs /\ map time ds = call_times (now e) evs.
Proof.
  revert e ds. induction evs as [|[dt|kid] evs IH]; intros e ds H;
    [inversion H; subst; auto|..]; rewrite run_cons in H; cbn [step] in H.
  - destruct (run evs _) as [[ds1 e2]|] eqn:Hr; inversion H; subst. exact (IH _ _ Hr).
  - destruct (call_spec kid e) as (d & e1 & Hd & Hk & Ht & Hn1). rewrite Hd in H.
    destruct (run evs e1) as [[ds1 e2]|] eqn:Hr; [injection H as <- <-|discriminate].
    destruct (IH _ _ Hr) as [H1 H2]. rewrite Hn1 in H2. cbn. now rewrite Hk, Ht, H1, H2.
Qed.

(** Every reading of a run is taken at a time between the start and
    the end of the run, after the earlier readings, when the clock does
    not go back. *)
Lemma run_times evs e ds e' :
  clock_monotone evs -> run evs e = Some (ds, e') ->
  Forall (fun d => now e <= time d <= now e') ds /\ Sorted Z.le (map time ds) /\ now e <= now e'.
Proof.
  revert e ds. induction evs as [|[dt|kid] evs IH]; intros e ds Hm H;
    [inversion H; subst; auto using Z.le_refl|..]; inversion Hm as [|? ? Hev Hm']; subst;
    rewrite run_cons in H; cbn [step] in H.
  - destruct (run evs _) as [[ds1 e2]|] eqn:Hr; inversion H; subst.
    destruct (IH _ _ Hm' Hr) as (Hf & Hs & Hn). cbn [now] in *. split; [|split; [exact Hs|lia]].
    eapply Forall_impl; [|exact Hf]. intros d. cbn. lia.
  - destruct (call_spec kid e) as (d & e1 & Hd & _ & Ht & Hn1). rewrite Hd in H.
    destruct (run evs e1) as [[ds1 e2]|] eqn:Hr; inversion H; subst.
    destruct (IH _ _ Hm' Hr) as (Hf & Hs & Hn). split; [constructor; [lia|]|split; [|lia]].
    + eapply Forall_impl; [|exact Hf]. intros d' Hd'. cbv beta in Hd'. lia.
    + cbn [map]. constructor; [exact Hs|].
      destruct ds1 as [|d' ds1]; constructor. inversion Hf; subst. lia.
Qed.

Lemma run_in_range evs e ds e' :
  next_bits <= 46 -> run evs e = Some (ds, e') -> Forall (fun d => in_documented_range d = true) ds.
Proof.
  intros Hb. revert e ds. induction evs as [|[dt|kid] evs IH]; intros e ds H;
    [inversion H; subst; constructor|..]; rewrite run_cons in H; cbn [step] in H.
  - destruct (run evs _) as [[ds1 e2]|] eqn:Hr; inversion H; subst. eauto.
  - destruct (generateSensorData kid e) as [[d e1]|] eqn:Hd; [|discriminate].
    destruct (run evs e1) as [[ds1 e2]|] eqn:Hr; inversion H; subst.
    constructor; [exact (call_in_range kid e d e1 Hb Hd)|eauto].
Qed.

End RunFacts.

Module SensorRunsProps.

(** C25: Liveness of repeated readings: every sequence of clock ticks
    and calls runs to its end, whatever the randomizer's resolution,
    since no call throws.  It gives one reading per call, in call order,
    each for the kiosk of its call and at the clock's time of that
    call. *)
Theorem run_live {R : Randomizer} evs e :
  exists ds e', run evs e = Some (ds, e') /\
    map kiosk ds = calls evs /\ map time ds = call_times (now e) evs.
Proof.
  destruct (run_total evs e) as (ds & e' & H). exists ds, e'.
  split; [exact H|exact (run_calls evs e ds e' H)].
Qed.

(** C26: Across any number of repeated calls (the specification checks
    1000), with a randomizer of at most 46 bits and a clock that does
    not go back, every reading lies in the documented ranges and the
    readings come in time order. *)
Theorem run_in_documented_range {R : Randomizer} evs e :
  next_bits <= 46 -> clock_monotone evs ->
  exists ds e', run evs e = Some (ds, e') /\
    Forall (fun d => in_documented_range d = true) ds /\ Sorted Z.le (map time ds).
Proof.
  intros Hb Hm. destruct (run_total evs e) as (ds & e' & H). exists ds, e'.
  split; [exact H|]. split; [exact (run_in_range evs e ds e' Hb H)|].
  exact (proj1 (proj2 (run_times evs e ds e' Hm H))).
Qed.

(** A thousand calls one second apart with the 32-bit randomizer. *)
Definition thousand_calls : list event :=
  flat_map (fun _ => [Tick 1000; Call (of_Z 7)]) (seq 0 1000).

Lemma run_in_documented_range_witness :
  @next_bits scripted32 <= 46 /\ clock_monotone thousand_calls /\
  exists ds e', @run scripted32 thousand_calls (@mkEnv scripted32 0 []) = Some (ds, e') /\
    Forall (fun d => in_documented_range d = true) ds /\ Sorted Z.le (map time ds).
Proof.
  assert (Hb : @next_bits scripted32 <= 46) by (vm_compute; discriminate).
  assert (Hm : clock_monotone thousand_calls).
  { apply Forall_forall. intros ev Hin. apply in_flat_map in Hin as (_ & _ & Hin).
    destruct Hin as [<-|[<-|[]]]; [lia|exact I]. }
  exact (conj Hb (conj Hm (run_in_documented_range thousand_calls (@mkEnv scripted32 0 []) Hb Hm))).
Defined.

End SensorRunsProps.

End SensorRuns.
