(* ===== verification/SensorTasks.v ===== *)
(** * Concurrent callers of the sensor generator (spec section 5)

    [generateSensorData] draws from [faker], the module-level instance
    of @faker-js/faker, and reads the system clock.  Every logical task
    of the application that calls it shares these two resources.  The
    tasks are modelled as a configuration:
    - a finite map from task identifiers to tasks, each task being the
      kiosk identifiers of its calls still to make and the readings it
      has received so far;
    - the shared environment of [Sensor]: the clock and the randomizer
      state.
    A step of [step] is one call of one task, chosen freely, or a clock
    tick; the interleavings of the tasks are the sequences of steps
    ([rtc step]).  The theorems show two things:
    - an invariant of every reachable configuration: each task receives
      its readings in its own order, for its own kiosks and in time
      order;
    - liveness: every configuration can run all tasks to completion.
    A call of one task advances the randomizer state that the next call
    of any task draws from, so the readings a task receives depend on
    the interleaving. *)
From stdpp Require Import base gmap.
From Stdlib Require Import ZArith Lia Sorting.Sorted.
From S2P Require Import Spec2Rocq JsValue SensorData SensorRuns.

Open Scope Z_scope.

Module SensorTasks.
Import JsValue Faker Sensor SensorFacts SensorRuns.

(** A logical task: the kiosk identifiers of the calls it still has to
    make, in order, and the readings it has received, in order. *)
Record task := mkTask { pending : list number; received : list SensorData }.

Section Tasks.
Context {R : Randomizer}.

(** The tasks and the shared clock and faker instance. *)
Record config := mkConfig { tasks : gmap nat task; shared : env }.

(** One step of the application: task [i] makes its next call, whose
    reading it receives, and the shared environment moves on; or the
    clock moves forward. *)
Inductive step : config -> config -> Prop :=
  | step_call c i t kid rest d e' :
      tasks c !! i = Some t -> pending t = kid :: rest ->
      generateSensorData kid (shared c) = Some (d, e') ->
      step c (mkConfig (<[i := mkTask rest (received t ++ [d])]> (tasks c)) e')
  | step_tick c dt :
      0 <= dt -> step c (mkConfig (tasks c) (mkEnv (now (shared c) + dt) (rng (shared c)))).

(** Tasks that have all their calls still to make. *)
Definition init_config (progs : gmap nat (list number)) (e : env) : config :=
  mkConfig ((fun p => mkTask p []) <$> progs) e.

(** No task has a call left to make. *)
Definition final (c : config) : Prop := map_Forall (fun _ t => pending t = []) (tasks c).

(** The call of task [i], computed: [None] when the task has no call
    left or is not in the configuration. *)
Definition call_fn (c : config) (i : nat) : option config :=
  match tasks c !! i with
  | Some (mkTask (kid :: rest) rcv) =>
      match generateSensorData kid (shared c) with
      | Some (d, e') => Some (mkConfig (<[i := mkTask rest (rcv ++ [d])]> (tasks c)) e')
      | None => None
      end
  | _ => None
  end.

(** The calls of the tasks [ids], in that order. *)
Fixpoint schedule_fn (c : config) (ids : list nat) : option config :=
  match ids with
  | [] => Some c
  | i :: ids' => match call_fn c i with Some c1 => schedule_fn c1 ids' | None => None end
  end.

End Tasks.

(** ** The invariant *)

Section Invariant.
Context {R : Randomizer}.

(** Task [t], started with the calls [p], at clock time [tm]: what it
    received and what it has left are its program, its readings are in
    time order and not later than the clock, and in the documented
    ranges for a randomizer of at most 46 bits. *)
Definition task_inv (p : list number) (tm : Z) (t : task) : Prop :=
  map kiosk (received t) ++ pending t = p /\
  Sorted Z.le (map time (received t)) /\
  Forall (fun d => time d <= tm) (received t) /\
  (next_bits <= 46 -> Forall (fun d => in_documented_range d = true) (received t)).

(** Every task of the programs [progs], and no other, is in the
    configuration, and satisfies [task_inv]. *)
Definition tasks_inv (progs : gmap nat (list number)) (c : config) : Prop :=
  forall i, match progs !! i, tasks c !! i with
            | Some p, Some t => task_inv p (now (shared c)) t
            | None, None => True
            | _, _ => False
            end.

Lemma sorted_snoc (l : list Z) x :
  Sorted Z.le l -> Forall (fun y => y <= x) l -> Sorted Z.le (l ++ [x]).
Proof.
  intros Hs. induction Hs as [|y l Hs IH Hh]; intros Hf; cbn; [repeat constructor|].
  inversion Hf as [|? ? Hy Hf']; subst. constructor; [exact (IH Hf')|].
  destruct l as [|z l]; cbn; constructor; [exact Hy|]. inversion Hh; assumption.
Qed.

Lemma task_inv_tick p tm tm' t : tm <= tm' -> task_inv p tm t -> task_inv p tm' t.
Proof.
  intros Hle (Hp & Hs & Hf & Hr). repeat split; auto.
  eapply Forall_impl; [exact Hf|]. cbv beta. lia.
Qed.

Lemma task_inv_call p t kid rest e d e' :
  generateSensorData kid e = Some (d, e') -> pending t = kid :: rest ->
  task_inv p (now e) t -> task_inv p (now e') (mkTask rest (received t ++ [d])).
Proof.
  intros Hg Hpd (Hp & Hs & Hf & Hr).
  destruct (call_spec kid e) as (d1 & e1 & Hg1 & Hk & Ht & Hn). rewrite Hg in Hg1.
  injection Hg1 as <- <-. unfold task_inv. cbn [received pending]. rewrite Hn.
  split; [|split; [|split]].
  - rewrite List.map_app, <- app_assoc. cbn. now rewrite Hk, <- Hpd.
  - rewrite List.map_app. apply sorted_snoc; [exact Hs|]. cbn. rewrite Ht.
    apply List.Forall_map. exact Hf.
  - apply List.Forall_app. split; [exact Hf|]. constructor; [lia|constructor].
  - intros Hb. apply List.Forall_app. split; [exact (Hr Hb)|].
    constructor; [exact (call_in_range kid e d e' Hb Hg)|constructor].
Qed.

Lemma tasks_inv_init progs e : tasks_inv progs (init_config progs e).
Proof.
  intros i. cbn [tasks init_config]. rewrite lookup_fmap.
  destruct (progs !! i) as [p|]; cbn; [|exact I].
  repeat split; auto.
Qed.

Lemma tasks_inv_step progs c c' : tasks_inv progs c -> step c c' -> tasks_inv progs c'.
Proof.
  intros Hi Hst. destruct Hst as [c i t kid rest d e' Ht Hpd Hg|c dt Hdt]; intros j; cbn [tasks shared].
  - destruct (call_spec kid (shared c)) as (d1 & e1 & Hg1 & _ & _ & Hn).
    rewrite Hg in Hg1. injection Hg1 as <- <-. specialize (Hi j).
    destruct (decide (i = j)) as [<-|Hne].
    + rewrite lookup_insert_eq, Ht in *. destruct (progs !! i); [|contradiction].
      exact (task_inv_call _ t kid rest _ d e' Hg Hpd Hi).
    + rewrite lookup_insert_ne by exact Hne. rewrite Hn. exact Hi.
  - specialize (Hi j). cbn [now]. destruct (progs !! j), (tasks c !! j); try contradiction; auto.
    eapply task_inv_tick; [|exact Hi]. lia.
Qed.

Lemma tasks_inv_reachable progs e c : rtc step (init_config progs e) c -> tasks_inv progs c.
Proof.
  revert c. apply rtc_ind_r; [apply tasks_inv_init|].
  intros c1 c2 _ Hs IH. exact (tasks_inv_step progs c1 c2 IH Hs).
Qed.

End Invariant.

(** ** Runs to completion *)

Section Liveness.
Context {R : Randomizer}.

Lemma call_fn_step c i c' : call_fn c i = Some c' -> step c c'.
Proof.
  unfold call_fn. destruct (tasks c !! i) as [[[|kid rest] rcv]|] eqn:Ht; try discriminate.
  destruct (generateSensorData kid (shared c)) as [[d e']|] eqn:Hg; [|discriminate].
  intros [= <-]. exact (step_call c i _ kid rest d e' Ht eq_refl Hg).
Qed.

Lemma schedule_fn_rtc c ids c' : schedule_fn c ids = Some c' -> rtc step c c'.
Proof.
  revert c. induction ids as [|i ids IH]; intros c; cbn [schedule_fn]; [intros [= <-]; apply rtc_refl|].
  destruct (call_fn c i) as [c1|] eqn:Hc; [|discriminate].
  intros H. exact (rtc_l _ _ _ _ (call_fn_step c i c1 Hc) (IH c1 H)).
Qed.

(** Task [i] makes all its calls while the other tasks wait. *)
Lemma finish_task c i t :
  tasks c !! i = Some t ->
  exists ds c', rtc step c c' /\ tasks c' = <[i := mkTask [] (received t ++ ds)]> (tasks c).
Proof.
  remember (pending t) as p eqn:Hp. revert c t Hp.
  induction p as [|kid rest IH]; intros c t Hp Ht.
  - exists [], c. split; [apply rtc_refl|]. rewrite app_nil_r, Hp.
    destruct t. symmetry. now apply insert_id.
  - destruct (call_spec kid (shared c)) as (d & e1 & Hg & _).
    set (c1 := mkConfig (<[i := mkTask rest (received t ++ [d])]> (tasks c)) e1).
    destruct (IH c1 (mkTask rest (received t ++ [d])) eq_refl (lookup_insert_eq _ _ _))
      as (ds & c' & Hr & Hc').
    exists (d :: ds), c'. split.
    + exact (rtc_l _ _ _ _ (step_call c i t kid rest d e1 Ht (eq_sym Hp) Hg) Hr).
    + rewrite Hc'. cbn [c1 tasks received]. now rewrite insert_insert_eq, <- app_assoc.
Qed.

(** The tasks [ks] make all their calls, one after the other; the
    other tasks are left as they are. *)
Lemma finish_tasks (ks : list nat) c :
  exists c', rtc step c c' /\
    (forall i t, i ∈ ks -> tasks c' !! i = Some t -> pending t = []) /\
    (forall i, i ∉ ks -> tasks c' !! i = tasks c !! i).
Proof.
  revert c. induction ks as [|k ks IH]; intros c.
  { exists c. split; [apply rtc_refl|]. split; [intros i t Hi; inversion Hi|auto]. }
  destruct (tasks c !! k) as [t|] eqn:Ht.
  - destruct (finish_task c k t Ht) as (ds & c1 & Hr1 & Hc1).
    destruct (IH c1) as (c' & Hr & Hdone & Hsame). exists c'.
    split; [exact (rtc_trans _ _ _ Hr1 Hr)|]. split.
    + intros i t' Hi Hi'. destruct (decide (i ∈ ks)) as [Hin|Hnin]; [eauto|].
      apply elem_of_cons in Hi as [->|Hi]; [|contradiction].
      rewrite Hsame, Hc1, lookup_insert_eq in Hi' by exact Hnin. now injection Hi' as <-.
    + intros i Hi. apply not_elem_of_cons in Hi as [Hne Hi].
      rewrite Hsame, Hc1, lookup_insert_ne by auto. reflexivity.
  - destruct (IH c) as (c' & Hr & Hdone & Hsame). exists c'. split; [exact Hr|]. split.
    + intros i t' Hi Hi'. destruct (decide (i ∈ ks)) as [Hin|Hnin]; [eauto|].
      apply elem_of_cons in Hi as [->|Hi]; [|contradiction].
      rewrite Hsame, Ht in Hi' by exact Hnin. discriminate.
    + intros i Hi. apply not_elem_of_cons in Hi as [_ Hi]. auto.
Qed.

(** From every configuration, some interleaving runs every task to
    its last call. *)
Lemma run_to_final c : exists c', rtc step c c' /\ final c'.
Proof.
  destruct (finish_tasks ((map_to_list (tasks c)).*1) c) as (c' & Hr & Hdone & Hsame).
  exists c'. split; [exact Hr|]. intros i t Hi.
  destruct (decide (i ∈ (map_to_list (tasks c)).*1)) as [Hin|Hnin]; [eauto|].
  exfalso. apply Hnin. rewrite Hsame in Hi by exact Hnin.
  apply (list_elem_of_fmap_2 fst _ (i, t)), elem_of_map_to_list, Hi.
Qed.

(** A task of a computed interleaving, found by a check that computes
    a boolean only, so that evaluating it never reads a configuration
    back. *)
Lemma schedule_task c0 ids i :
  match schedule_fn c0 ids with
  | Some c => match tasks c !! i with Some _ => true | None => false end
  | None => false
  end = true ->
  exists c t, schedule_fn c0 ids = Some c /\ tasks c !! i = Some t.
Proof.
  intros H. destruct (schedule_fn c0 ids) as [c|]; [|discriminate H].
  destruct (tasks c !! i) as [t|] eqn:Ht; [exists c, t; auto|discriminate H].
Qed.

End Liveness.

(** Two tasks, for kiosks 7 and 8, one call each, with the 53-bit
    randomizer: the first six draws are [0], the next six [2^52]. *)
Definition demo_progs : gmap nat (list number) := {[0%nat := [of_Z 7]; 1%nat := [of_Z 8]]}.

Definition demo_env : @env scripted53 :=
  @mkEnv scripted53 0 ([0; 0; 0; 0; 0; 0] ++ repeat (2 ^ 52) 6).

Module SensorTasksProps.

(** C29: Tasks calling [generateSensorData] concurrently, in any
    interleaving of their calls and of clock ticks, each receive
    readings for their own kiosks, in the order of their own calls,
    with times in non-decreasing order and not later than the clock.
    With a randomizer of at most 46 bits every reading is in the
    documented ranges. *)
Theorem tasks_invariant {R : Randomizer} progs e c i p t :
  rtc step (init_config progs e) c -> progs !! i = Some p -> tasks c !! i = Some t ->
  map kiosk (received t) ++ pending t = p /\
  Sorted Z.le (map time (received t)) /\
  Forall (fun d => time d <= now (shared c)) (received t) /\
  (next_bits <= 46 -> Forall (fun d => in_documented_range d = true) (received t)).
Proof.
  intros Hr Hp Ht. pose proof (tasks_inv_reachable progs e c Hr i) as H.
  rewrite Hp, Ht in H. exact H.
Qed.

Lemma tasks_invariant_witness :
  exists (c : @config scripted53) t, rtc step (init_config demo_progs demo_env) c /\ tasks c !! 0%nat = Some t /\
    map kiosk (received t) ++ pending t = [of_Z 7] /\
    Sorted Z.le (map time (received t)) /\
    Forall (fun d => time d <= now (shared c)) (received t) /\
    (@next_bits scripted53 <= 46 -> Forall (fun d => in_documented_range d = true) (received t)).
Proof.
  destruct (schedule_task (init_config demo_progs demo_env) [1%nat; 0%nat] 0%nat
              ltac:(vm_compute; reflexivity)) as (c & t & Hs & Ht).
  pose proof (schedule_fn_rtc _ _ _ Hs) as Hr. exists c, t. split; [exact Hr|]. split; [exact Ht|].
  exact (tasks_invariant demo_progs demo_env c 0%nat [of_Z 7] t Hr ltac:(vm_compute; reflexivity) Ht).
Defined.

(** C30: Liveness of concurrent callers: from every configuration the
    tasks can reach, whatever interleaving led there, some interleaving
    runs every task to its last call, no call ever being stuck, and then
    each task has received exactly one reading per call of its program,
    for the kiosks of its calls. *)
Theorem tasks_complete {R : Randomizer} progs e c :
  rtc step (init_config progs e) c ->
  exists c', rtc step c c' /\ final c' /\
    forall i p, progs !! i = Some p -> exists t, tasks c' !! i = Some t /\ map kiosk (received t) = p.
Proof.
  intros Hr. destruct (run_to_final c) as (c' & Hr' & Hf). exists c'. split; [exact Hr'|]. split; [exact Hf|].
  intros i p Hp. pose proof (tasks_inv_reachable progs e c' (rtc_trans _ _ _ Hr Hr') i) as H.
  rewrite Hp in H. destruct (tasks c' !! i) as [t|] eqn:Ht; [|contradiction].
  exists t. split; [reflexivity|]. destruct H as [H _]. rewrite (Hf i t Ht), app_nil_r in H. exact H.
Qed.

Lemma tasks_complete_witness :
  rtc step (init_config demo_progs demo_env) (init_config demo_progs demo_env) /\
  exists c' : @config scripted53, rtc step (init_config demo_progs demo_env) c' /\ final c' /\
    forall i p, demo_progs !! i = Some p -> exists t, tasks c' !! i = Some t /\ map kiosk (received t) = p.
Proof.
  split; [apply rtc_refl|]. exact (tasks_complete demo_progs demo_env _ (rtc_refl _ _)).
Defined.

End SensorTasksProps.

End SensorTasks.
