(* ===== verification/TokenRegex.v ===== *)
(** * The token regular expression of [syntaxHighlight] *)
From Stdlib Require Import Ascii String List Bool Arith Lia.
Import ListNotations.
From S2P Require Import Spec2Rocq JsonStringify.

(** The regular expression of [syntaxHighlight]
    (src/src/lib/utils/highlight.ts, line 16):

      (Q(\\u[a-zA-Z0-9]{4}|\\[^u]|[^\\Q])*Q(\s*:)?|\b(true|false|null)\b|-?\d+(?:\.\d{0,})?(?:[eE][+\-]?\d+)?)

    where Q stands for the double-quote character and [{0,}] for the
    star of the source (which would close this comment).
    A match attempt at one position tries the three alternatives in
    order.  Each alternative is written below as a function that returns
    the matched text and the rest of the input, and each function
    follows the backtracking matcher of ECMAScript: the comments say why
    no backtracking into a quantifier can produce a different match. *)

Module TokenRegex.
Import JsonStringify.

(** [(\\u[a-zA-Z0-9]{4}|\\[^u]|[^\\Q])*], greedy.  An iteration never
    starts with a double quote, so giving back iterations never lets the
    closing quote match earlier: the greedy run is the only candidate.  At
    a backslash the first alternative needs [u] and the second needs a
    character other than [u], so at most one of them applies. *)
Fixpoint str_chars (s : text) : text * text :=
  match s with
  | [] => ([], [])
  | c :: r =>
      if c =c ch_bslash then
        match r with
        | [] => ([], s)
        | u :: r1 =>
            if u =c "u"%char then
              match r1 with
              | a1 :: a2 :: a3 :: a4 :: r2 =>
                  if is_alnum a1 && is_alnum a2 && is_alnum a3 && is_alnum a4
                  then let '(x, y) := str_chars r2 in
                       (c :: u :: a1 :: a2 :: a3 :: a4 :: x, y)
                  else ([], s)
              | _ => ([], s)
              end
            else let '(x, y) := str_chars r1 in (c :: u :: x, y)
        end
      else if c =c ch_quote then ([], s)
      else let '(x, y) := str_chars r in (c :: x, y)
  end.

(** [(\s*:)?]: greedy whitespace then a colon.  Giving back whitespace
    leaves a whitespace character where the colon is needed, so the
    group matches exactly when the greedy run is followed by [:]. *)
Definition ws_colon (s : text) : option (text * text) :=
  let '(w, r) := span is_space s in
  match r with
  | c :: r' => if c =c ch_colon then Some (w ++ [c], r') else None
  | [] => None
  end.

(** First alternative: a double-quoted string, with the optional colon
    group (capture group 3 of the pattern).  The result is the string
    body, the text of group 3 when it participates, and the rest. *)
Definition string_alt (s : text) : option (text * option text * text) :=
  match s with
  | q :: r =>
      if q =c ch_quote then
        let '(body, rest) := str_chars r in
        match rest with
        | q' :: rest' =>
            if q' =c ch_quote then
              match ws_colon rest' with
              | Some (cw, rest'') => Some (body, Some cw, rest'')
              | None => Some (body, None, rest')
              end
            else None
        | [] => None
        end
      else None
  | [] => None
  end.

Definition opt_text (o : option text) : text := match o with Some t => t | None => [] end.

Definition match_string (s : text) : option (text * text) :=
  match string_alt s with
  | Some (body, colon, rest) => Some (ch_quote :: body ++ ch_quote :: opt_text colon, rest)
  | None => None
  end.

(** Second alternative: [\b(true|false|null)\b].  The literals start
    and end with word characters, so the first [\b] needs a non-word
    character before the position and the second one a non-word
    character (or the end) after the literal; the literals differ in
    their first letter, so at most one of them is a prefix. *)
Definition literals : list text := [str "true"; str "false"; str "null"].

Fixpoint first_literal (ls : list text) (s : text) : option (text * text) :=
  match ls with
  | [] => None
  | l :: ls' =>
      match strip_prefix l s with
      | Some rest => if head_is is_word rest then first_literal ls' s else Some (l, rest)
      | None => first_literal ls' s
      end
  end.

Definition match_literal (prev : option ascii) (s : text) : option (text * text) :=
  if is_word_opt prev then None else first_literal literals s.

(** Third alternative: [-?\d+(?:\.\d{0,})?(?:[eE][+\-]?\d+)?].  Every part
    after [\d+] is optional, so the greedy path succeeds as soon as
    [\d+] does; giving back the leading [-] leaves [\d+] facing [-],
    which fails. *)
Definition is_exp_mark (c : ascii) : bool := (c =c "e"%char) || (c =c "E"%char).
Definition is_sign (c : ascii) : bool := (c =c ch_plus) || (c =c ch_minus).

Definition exp_part (s : text) : text * text :=
  match s with
  | e :: r =>
      if is_exp_mark e then
        let '(sg, r1) :=
          match r with
          | c :: r' => if is_sign c then ([c], r') else ([], r)
          | [] => ([], r)
          end in
        let '(ds, r2) := span is_digit r1 in
        match ds with
        | [] => ([], s)
        | _ :: _ => (e :: sg ++ ds, r2)
        end
      else ([], s)
  | [] => ([], s)
  end.

Definition frac_part (s : text) : text * text :=
  match s with
  | d :: r => if d =c ch_dot then let '(ds, r1) := span is_digit r in (d :: ds, r1)
              else ([], s)
  | [] => ([], s)
  end.

Definition match_number (s : text) : option (text * text) :=
  let '(sg, s1) :=
    match s with
    | c :: r => if c =c ch_minus then ([c], r) else ([], s)
    | [] => ([], s)
    end in
  let '(ds, s2) := span is_digit s1 in
  match ds with
  | [] => None
  | _ :: _ =>
      let '(fr, s3) := frac_part s2 in
      let '(ex, s4) := exp_part s3 in
      Some (sg ++ ds ++ fr ++ ex, s4)
  end.

(** The characters a number token is made of. *)
Definition is_num_char (c : ascii) : bool :=
  is_digit c || is_sign c || (c =c ch_dot) || is_exp_mark c.

(** One match attempt at a position, [prev] being the character before
    it: the alternatives in the order of the pattern. *)
Definition exec_at (prev : option ascii) (s : text) : option (text * text) :=
  match match_string s with
  | Some m => Some m
  | None =>
      match match_literal prev s with
      | Some m => Some m
      | None => match_number s
      end
  end.

(** The token kind of a match, read off the capture groups: group 3 [(\s*:)] participates for an object key, the
    first alternative without it is a string, group 4
    [(true|false|null)] gives a boolean or null, and the remaining
    alternative is a number. *)
Definition token_kind_at (prev : option ascii) (s : text) : option token_kind :=
  match string_alt s with
  | Some (_, Some _, _) => Some KKey
  | Some (_, None, _) => Some KString
  | None =>
      match match_literal prev s with
      | Some (l, _) => Some (if list_eq_dec ascii_dec l (str "null") then KNull else KBoolean)
      | None => match match_number s with Some _ => Some KNumber | None => None end
      end
  end.

End TokenRegex.

(** ** Every match is a non-empty prefix of the input *)

Module TokenRegexFacts.
Import TokenRegex.

Lemma str_chars_app s : fst (str_chars s) ++ snd (str_chars s) = s.
Proof.
  revert s. fix IH 1. intros [|c r]; [reflexivity|]. simpl.
  destruct (c =c ch_bslash) eqn:Eb.
  - destruct r as [|u r1]; [reflexivity|].
    destruct (u =c "u"%char).
    + destruct r1 as [|a1 [|a2 [|a3 [|a4 r2]]]]; try reflexivity.
      destruct (_ && _); [|reflexivity].
      specialize (IH r2). destruct (str_chars r2) as [x y]. simpl in *. now rewrite IH.
    + specialize (IH r1). destruct (str_chars r1) as [x y]. simpl in *. now rewrite IH.
  - destruct (c =c ch_quote); [reflexivity|].
    specialize (IH r). destruct (str_chars r) as [x y]. simpl in *. now rewrite IH.
Qed.

Lemma ws_colon_app s m r : ws_colon s = Some (m, r) -> s = m ++ r.
Proof.
  unfold ws_colon. pose proof (span_app is_space s) as H.
  destruct (span is_space s) as [w [|c r']]; [discriminate|].
  destruct (c =c ch_colon); [|discriminate]. intros E; inv E.
  simpl. now rewrite <- app_assoc.
Qed.

Lemma string_alt_app s body colon r :
  string_alt s = Some (body, colon, r) ->
  s = ch_quote :: body ++ ch_quote :: opt_text colon ++ r.
Proof.
  unfold string_alt. destruct s as [|q s]; [discriminate|].
  destruct (Ascii.eqb_spec q ch_quote) as [->|]; [|discriminate].
  pose proof (str_chars_app s) as H.
  destruct (str_chars s) as [b [|q' rest']]; [discriminate|]. simpl in H.
  destruct (Ascii.eqb_spec q' ch_quote) as [->|]; [|discriminate].
  destruct (ws_colon rest') as [[cw rest'']|] eqn:Ew; intros E; inv E; simpl.
  - apply ws_colon_app in Ew. subst. reflexivity.
  - reflexivity.
Qed.

Lemma match_string_app s m r :
  match_string s = Some (m, r) -> s = m ++ r /\ m <> [].
Proof.
  unfold match_string.
  destruct (string_alt s) as [[[body colon] rest]|] eqn:E; [|discriminate].
  intros H; inv H. apply string_alt_app in E. subst. split; [|discriminate].
  simpl. now app_norm.
Qed.

Lemma first_literal_app ls s m r :
  first_literal ls s = Some (m, r) -> In m ls /\ s = m ++ r.
Proof.
  induction ls as [|l ls IH]; simpl; [discriminate|].
  destruct (strip_prefix l s) as [rest|] eqn:Es.
  - destruct (head_is is_word rest).
    + intros H. apply IH in H. tauto.
    + intros E; inv E. split; [now left|]. now apply strip_prefix_Some.
  - intros H. apply IH in H. tauto.
Qed.

Lemma match_literal_app p s m r :
  match_literal p s = Some (m, r) -> s = m ++ r /\ m <> [].
Proof.
  unfold match_literal. destruct (is_word_opt p); [discriminate|].
  intros H. apply first_literal_app in H as [Hin ->]. split; [reflexivity|].
  simpl in Hin. intuition (subst; discriminate).
Qed.

Lemma exp_part_app s : fst (exp_part s) ++ snd (exp_part s) = s.
Proof.
  unfold exp_part. destruct s as [|e r]; [reflexivity|].
  destruct (is_exp_mark e); [|reflexivity].
  destruct (match r with c :: r' => if is_sign c then ([c], r') else ([], r)
            | [] => ([], r) end) as [sg r1] eqn:Esg.
  assert (Hr : sg ++ r1 = r).
  { destruct r as [|c r']; [now inv Esg|]. destruct (is_sign c); now inv Esg. }
  pose proof (span_app is_digit r1) as Hs.
  destruct (span is_digit r1) as [ds r2]. simpl in Hs.
  destruct ds as [|d ds]; [reflexivity|]. simpl.
  f_equal. rewrite <- app_assoc, Hs. exact Hr.
Qed.

Lemma frac_part_app s : fst (frac_part s) ++ snd (frac_part s) = s.
Proof.
  unfold frac_part. destruct s as [|d r]; [reflexivity|].
  destruct (d =c ch_dot); [|reflexivity].
  pose proof (span_app is_digit r) as Hs.
  destruct (span is_digit r) as [ds r1]. simpl in *. now rewrite Hs.
Qed.

Lemma match_number_app s m r :
  match_number s = Some (m, r) -> s = m ++ r /\ m <> [].
Proof.
  unfold match_number.
  destruct (match s with c :: r => if c =c ch_minus then ([c], r) else ([], s)
            | [] => ([], s) end) as [sg s1] eqn:Esg.
  assert (Hsg : s = sg ++ s1).
  { destruct s as [|c r']; [now inv Esg|]. destruct (c =c ch_minus); now inv Esg. }
  pose proof (span_app is_digit s1) as Hs.
  destruct (span is_digit s1) as [ds s2]. simpl in Hs.
  destruct ds as [|d ds]; [discriminate|].
  pose proof (frac_part_app s2) as Hf. destruct (frac_part s2) as [fr s3].
  pose proof (exp_part_app s3) as He. destruct (exp_part s3) as [ex s4].
  simpl in Hf, He. rewrite Hsg, <- Hs, <- Hf, <- He.
  intros E. injection E as <- <-. split.
  - app_norm. reflexivity.
  - destruct sg; discriminate.
Qed.

Lemma digits_num_chars ds : forallb is_digit ds = true -> forallb is_num_char ds = true.
Proof.
  apply forallb_weaken. intros c H. unfold is_num_char. now rewrite H.
Qed.

Lemma frac_part_chars s : forallb is_num_char (fst (frac_part s)) = true.
Proof.
  unfold frac_part. destruct s as [|d r]; [reflexivity|].
  destruct (d =c ch_dot) eqn:Ed; [|reflexivity].
  pose proof (span_fst_all is_digit r) as Hd.
  destruct (span is_digit r) as [ds r1]. simpl in *.
  unfold is_num_char at 1. rewrite Ed, orb_true_r. simpl. now apply digits_num_chars.
Qed.

Lemma exp_part_chars s : forallb is_num_char (fst (exp_part s)) = true.
Proof.
  unfold exp_part. destruct s as [|e r]; [reflexivity|].
  destruct (is_exp_mark e) eqn:Ee; [|reflexivity].
  destruct (match r with c :: r' => if is_sign c then ([c], r') else ([], r)
            | [] => ([], r) end) as [sg r1] eqn:Esg.
  assert (Hsg : forallb is_num_char sg = true).
  { destruct r as [|c r']; [now inv Esg|].
    destruct (is_sign c) eqn:Ec; inv Esg; [|reflexivity].
    simpl. unfold is_num_char. now rewrite Ec, orb_true_r. }
  pose proof (span_fst_all is_digit r1) as Hd.
  destruct (span is_digit r1) as [[|d ds] r2]; [reflexivity|]. simpl in *.
  unfold is_num_char at 1. rewrite Ee, orb_true_r. simpl.
  rewrite forallb_app, Hsg. apply (digits_num_chars (d :: ds)). exact Hd.
Qed.

Lemma match_number_chars s m r :
  match_number s = Some (m, r) -> forallb is_num_char m = true.
Proof.
  unfold match_number.
  destruct (match s with c :: r => if c =c ch_minus then ([c], r) else ([], s)
            | [] => ([], s) end) as [sg s1] eqn:Esg.
  assert (Hsg : forallb is_num_char sg = true).
  { destruct s as [|c r']; [now inv Esg|].
    destruct (Ascii.eqb_spec c ch_minus) as [->|]; now inv Esg. }
  pose proof (span_fst_all is_digit s1) as Hd.
  destruct (span is_digit s1) as [ds s2]. simpl in Hd.
  destruct ds as [|d ds]; [discriminate|].
  pose proof (frac_part_chars s2) as Hf. destruct (frac_part s2) as [fr s3].
  pose proof (exp_part_chars s3) as He. destruct (exp_part s3) as [ex s4].
  simpl in Hf, He. intros E; injection E as <- <-.
  change (d :: ds ++ fr ++ ex) with ((d :: ds) ++ fr ++ ex).
  rewrite !forallb_app, Hsg, Hf, He, (digits_num_chars (d :: ds) Hd). reflexivity.
Qed.

Lemma string_alt_colon s body cw r :
  string_alt s = Some (body, Some cw, r) -> exists w, cw = w ++ [ch_colon].
Proof.
  unfold string_alt. destruct s as [|q s]; [discriminate|].
  destruct (q =c ch_quote); [|discriminate].
  destruct (str_chars s) as [b [|q' rest']]; [discriminate|].
  destruct (q' =c ch_quote); [|discriminate].
  unfold ws_colon. destruct (span is_space rest') as [w [|c r']]; [discriminate|].
  destruct (Ascii.eqb_spec c ch_colon) as [->|]; [|discriminate].
  intros E; inv E. eauto.
Qed.

Lemma exec_at_app p s m r :
  exec_at p s = Some (m, r) -> s = m ++ r /\ m <> [].
Proof.
  unfold exec_at.
  destruct (match_string s) as [[m' r']|] eqn:E1.
  - intros E; inv E. now apply match_string_app.
  - destruct (match_literal p s) as [[m' r']|] eqn:E2.
    + intros E; inv E. eapply match_literal_app; eauto.
    + apply match_number_app.
Qed.

Lemma exec_at_shorter p s m r :
  exec_at p s = Some (m, r) -> length r < length s.
Proof.
  intros E. apply exec_at_app in E as [-> Hm].
  rewrite length_app. destruct m; [congruence|]. simpl. lia.
Qed.

End TokenRegexFacts.
