(* ===== verification/Highlight.v ===== *)
(** * [syntaxHighlight]: HTML escaping and the token replace loop

    Models src/src/lib/utils/highlight.ts, lines 9-33: the three
    [String.prototype.replace] calls that escape [&], [<] and [>], the
    global [replace] with the token regular expression of
    [TokenRegex], and the replacer callback that picks a CSS class.
    The grammar of the output ([piece]) states what markup the
    highlighter can produce. *)
From Stdlib Require Import Ascii String List Bool Arith Lia.
From Equations Require Import Equations.
Import ListNotations.
From S2P Require Import Spec2Rocq JsValue JsonStringify TokenRegex.

Module Highlight.
Import JsValue JsonStringify TokenRegex TokenRegexFacts.

(** [s.replace(/c/g, rep)]: every occurrence of the character [c] is
    replaced, left to right, by [rep]. *)
Definition replace_char (c : ascii) (rep : text) (s : text) : text :=
  flat_map (fun x => if x =c c then rep else [x]) s.

(** Lines 10-13: the three escapes, in the order of the source. *)
Definition escape_html (s : text) : text :=
  replace_char ch_gt (str "&gt;")
    (replace_char ch_lt (str "&lt;")
       (replace_char ch_amp (str "&amp;") s)).

(** The tests of the callback, lines 19-27. *)
(** [/^Q/.test(match)], Q the double quote. *)
Definition starts_with_quote (m : text) : bool := head_is (fun c => c =c ch_quote) m.
(** [/:$/.test(match)] *)
Definition ends_with_colon (m : text) : bool := head_is (fun c => c =c ch_colon) (rev m).

(** The callback of lines 17-31: the class name, then the span. *)
Definition class_of (m : text) : text :=
  if starts_with_quote m then
    if ends_with_colon m then str "key" else str "string"
  else if contains (str "true") m || contains (str "false") m then str "boolean"
  else if contains (str "null") m then str "null"
  else str "number".

Definition wrap_span (cls m : text) : text :=
  str "<span class=" ++ [ch_quote] ++ cls ++ [ch_quote] ++ str ">" ++ m ++ str "</span>".

Definition replacer (m : text) : text := wrap_span (class_of m) m.

(** Line 15: [json_string.replace(regex, callback)] with the [g] flag.
    The search starts at each position in turn; where the pattern does
    not match, the character is copied and the search moves one
    position on; where it matches, the replacement is emitted and the
    search resumes after the match.  [prev] is the character before the
    current position, which [\b] inspects.  Every match is non-empty
    ([exec_at_shorter]), so the loop terminates. *)
Equations scan (prev : option ascii) (s : text) : text by wf (length s) lt :=
  scan prev [] := [];
  scan prev (c :: r) with Equations.Prop.Logic.inspect (exec_at prev (c :: r)) := {
    | exist _ (Some (m, rest)) E := replacer m ++ scan (Some (last m c)) rest;
    | exist _ None _ := c :: scan (Some c) r }.
Next Obligation. apply (exec_at_shorter prev (c :: r) m rest E). Qed.

(** [syntaxHighlight(json_string)], lines 9-33. *)
Definition syntaxHighlight (json_string : text) : text :=
  scan None (escape_html json_string).

(** [highlight(obj)], lines 1-3.  [JSON.stringify] returns [undefined]
    for [undefined], and [undefined.replace] then throws a [TypeError]. *)
Definition highlight {NF : NumberFormat} (obj : jsval) : completion text :=
  match JSON_stringify obj with
  | Some s => Returns (syntaxHighlight s)
  | None => Throws TypeError
  end.

(** The class names the spec assigns to each token kind. *)
Definition kind_class (k : token_kind) : text :=
  match k with
  | KKey => str "key"
  | KString => str "string"
  | KBoolean => str "boolean"
  | KNull => str "null"
  | KNumber => str "number"
  end.

(** ** Reading the output back

    What a browser does with the output: drop the tags and decode the
    three entities.  These are specification functions, not code of
    the repository. *)
Fixpoint strip_tags_aux (in_tag : bool) (s : text) : text :=
  match s with
  | [] => []
  | c :: r =>
      if in_tag then strip_tags_aux (negb (c =c ch_gt)) r
      else if c =c ch_lt then strip_tags_aux true r
      else c :: strip_tags_aux false r
  end.

Definition strip_tags (s : text) : text := strip_tags_aux false s.

Fixpoint unescape_html (s : text) : text :=
  match s with
  | [] => []
  | c :: r =>
      if c =c ch_amp then
        match r with
        | x1 :: x2 :: x3 :: r1 =>
            if list_eq_dec ascii_dec [x1; x2; x3] (str "lt;") then ch_lt :: unescape_html r1
            else if list_eq_dec ascii_dec [x1; x2; x3] (str "gt;") then ch_gt :: unescape_html r1
            else match r1 with
                 | x4 :: r2 =>
                     if list_eq_dec ascii_dec [x1; x2; x3; x4] (str "amp;")
                     then ch_amp :: unescape_html r2
                     else c :: unescape_html r
                 | [] => c :: unescape_html r
                 end
        | _ => c :: unescape_html r
        end
      else c :: unescape_html r
  end.

Definition no_angle (s : text) : bool :=
  forallb (fun c => negb (c =c ch_lt) && negb (c =c ch_gt)) s.

(** The markup the output is made of: characters that are not angle
    brackets, and spans of one of the five classes around a non-empty
    text without angle brackets, so spans do not nest. *)
Inductive piece := Plain (c : ascii) | Span (cls body : text).

Definition render (p : piece) : text :=
  match p with Plain c => [c] | Span cls body => wrap_span cls body end.

Definition span_classes : list text :=
  [str "key"; str "string"; str "number"; str "boolean"; str "null"].

Definition piece_ok (p : piece) : bool :=
  match p with
  | Plain c => no_angle [c]
  | Span cls body =>
      existsb (fun k => if list_eq_dec ascii_dec k cls then true else false) span_classes &&
      no_angle body && negb (match body with [] => true | _ => false end)
  end.

End Highlight.

(** ** Properties of [syntaxHighlight] *)

Module HighlightFacts.
Import JsValue JsonStringify TokenRegex TokenRegexFacts Highlight.

(** *** Unfolding the replace loop *)

Lemma scan_nil p : scan p [] = [].
Proof. now simp scan. Qed.

Lemma scan_match p c r m rest :
  exec_at p (c :: r) = Some (m, rest) ->
  scan p (c :: r) = replacer m ++ scan (Some (last m c)) rest.
Proof.
  intros H. simp scan.
  destruct (Logic.inspect _) as [[[m1 r1]|] Ex]; simpl; rewrite H in Ex; congruence.
Qed.

Lemma scan_nomatch p c r :
  exec_at p (c :: r) = None -> scan p (c :: r) = c :: scan (Some c) r.
Proof.
  intros H. simp scan.
  destruct (Logic.inspect _) as [[[m1 r1]|] Ex]; simpl; rewrite H in Ex; congruence.
Qed.

(** Induction along the replace loop: one case per branch of [scan]. *)
Lemma scan_ind (P : option ascii -> text -> Prop) :
  (forall p, P p []) ->
  (forall p c r m rest, exec_at p (c :: r) = Some (m, rest) ->
     P (Some (last m c)) rest -> P p (c :: r)) ->
  (forall p c r, exec_at p (c :: r) = None -> P (Some c) r -> P p (c :: r)) ->
  forall p s, P p s.
Proof.
  intros H0 H1 H2 p s. remember (length s) as n eqn:En. revert p s En.
  induction n as [n IH] using (well_founded_induction lt_wf).
  intros p [|c r] En; [apply H0|].
  destruct (exec_at p (c :: r)) as [[m rest]|] eqn:E.
  - eapply H1; [exact E|]. eapply IH; [|reflexivity].
    subst n. eapply exec_at_shorter; eauto.
  - apply H2; [exact E|]. eapply IH; [|reflexivity]. subst n; simpl; lia.
Qed.

(** *** Escaping *)

Definition esc_char (c : ascii) : text :=
  if c =c ch_amp then str "&amp;"
  else if c =c ch_lt then str "&lt;"
  else if c =c ch_gt then str "&gt;"
  else [c].

Lemma replace_char_app c rep x y :
  replace_char c rep (x ++ y) = replace_char c rep x ++ replace_char c rep y.
Proof. apply flat_map_app. Qed.

Lemma escape_html_app x y : escape_html (x ++ y) = escape_html x ++ escape_html y.
Proof. unfold escape_html. now rewrite !replace_char_app. Qed.

Lemma escape_html_cons c s : escape_html (c :: s) = esc_char c ++ escape_html s.
Proof.
  change (c :: s) with ([c] ++ s). rewrite escape_html_app. f_equal.
  unfold escape_html, esc_char, replace_char. ascii_cases; reflexivity.
Qed.

#[local] Hint Rewrite escape_html_app escape_html_cons : kiosk_rw.

Lemma no_angle_app x y : no_angle (x ++ y) = no_angle x && no_angle y.
Proof. apply forallb_app. Qed.

Lemma esc_char_no_angle c : no_angle (esc_char c) = true.
Proof.
  unfold esc_char, no_angle. ascii_cases; reflexivity.
Qed.

Lemma escape_html_no_angle s : no_angle (escape_html s) = true.
Proof.
  induction s as [|c s IH]; [reflexivity|].
  rewrite escape_html_cons, no_angle_app, esc_char_no_angle. exact IH.
Qed.

Lemma unescape_esc_char c s : unescape_html (esc_char c ++ s) = c :: unescape_html s.
Proof.
  unfold esc_char. ascii_cases; reflexivity.
Qed.

Lemma unescape_escape s : unescape_html (escape_html s) = s.
Proof.
  induction s as [|c s IH]; [reflexivity|].
  rewrite escape_html_cons, unescape_esc_char. now f_equal.
Qed.

(** *** Stripping the inserted tags *)

Lemma strip_tags_no_angle x y :
  no_angle x = true -> strip_tags (x ++ y) = x ++ strip_tags y.
Proof.
  induction x as [|c x IH]; [reflexivity|]. simpl.
  rewrite !andb_true_iff. intros [[Hl Hg] Hx]. apply negb_true_iff in Hl.
  unfold strip_tags in *. simpl. rewrite Hl. f_equal. auto.
Qed.

(** A tag is dropped whole. *)
Lemma strip_tag t y :
  forallb (fun c => negb (c =c ch_gt)) t = true ->
  strip_tags (ch_lt :: t ++ ch_gt :: y) = strip_tags y.
Proof.
  unfold strip_tags. simpl. induction t as [|c t IH]; [reflexivity|]. simpl.
  rewrite andb_true_iff. intros [Hc Ht]. rewrite Hc. auto.
Qed.

Lemma class_of_no_gt m : forallb (fun c => negb (c =c ch_gt)) (class_of m) = true.
Proof. unfold class_of. repeat case_if; reflexivity. Qed.

Lemma strip_tags_replacer m y :
  no_angle m = true -> strip_tags (replacer m ++ y) = m ++ strip_tags y.
Proof.
  intros Hm.
  assert (E : replacer m ++ y =
    ch_lt :: (str "span class=" ++ [ch_quote] ++ class_of m ++ [ch_quote]) ++ ch_gt ::
    m ++ ch_lt :: str "/span" ++ ch_gt :: y)
    by (unfold replacer, wrap_span; app_norm; reflexivity).
  rewrite E, strip_tag, strip_tags_no_angle, strip_tag by
    (try exact Hm; rewrite ?forallb_app, ?class_of_no_gt; reflexivity).
  reflexivity.
Qed.

(** The loop only inserts tags around parts of its input. *)
Lemma strip_tags_scan p s : no_angle s = true -> strip_tags (scan p s) = s.
Proof.
  revert p s.
  apply (scan_ind (fun p s => no_angle s = true -> strip_tags (scan p s) = s)).
  - intros p _. now rewrite scan_nil.
  - intros p c r m rest E IH Hs. rewrite (scan_match _ _ _ _ _ E).
    apply exec_at_app in E as [E _]. rewrite E in Hs |- *. rewrite no_angle_app in Hs.
    apply andb_true_iff in Hs as [Hm Hr].
    rewrite strip_tags_replacer by exact Hm. f_equal. auto.
  - intros p c r E IH Hs. rewrite (scan_nomatch _ _ _ E).
    change (c :: scan (Some c) r) with ([c] ++ scan (Some c) r).
    change (c :: r) with ([c] ++ r) in Hs. rewrite no_angle_app in Hs.
    apply andb_true_iff in Hs as [Hc Hr].
    rewrite strip_tags_no_angle by exact Hc. simpl. f_equal. auto.
Qed.

(** *** The callback's class names *)

Lemma ends_with_colon_snoc x c : ends_with_colon (x ++ [c]) = (c =c ch_colon).
Proof. unfold ends_with_colon. now rewrite rev_unit. Qed.

Lemma num_char_not x :
  is_num_char x = false -> forall c, is_num_char c = true -> negb (c =c x) = true.
Proof.
  intros Hx c Hc. destruct (Ascii.eqb_spec c x) as [->|]; [congruence|reflexivity].
Qed.

Lemma class_of_number m :
  forallb is_num_char m = true -> class_of m = str "number".
Proof.
  intros Hm. unfold class_of.
  assert (Hq : starts_with_quote m = false).
  { destruct m as [|c m]; [reflexivity|]. simpl in Hm. apply andb_true_iff in Hm as [Hc _].
    unfold starts_with_quote. simpl.
    destruct (Ascii.eqb_spec c ch_quote) as [->|]; [discriminate|reflexivity]. }
  rewrite Hq. cbn [str list_ascii_of_string].
  rewrite !contains_absent; try reflexivity;
    eapply forallb_weaken; try exact Hm; apply num_char_not; reflexivity.
Qed.

(** ** Main properties of the highlighter *)

(** C9: Escaping is per character.  The three global replacements of
    lines 10-13, applied in sequence, equal one pass that maps [&], [<]
    and [>] to their entities and keeps every other character: in
    particular no entity introduced by the first pass is escaped
    again. *)
Theorem escape_html_single_pass s : escape_html s = flat_map esc_char s.
Proof.
  induction s as [|c s IH]; [reflexivity|]. now rewrite escape_html_cons, IH.
Qed.

(** C10: Removing the inserted tags from the output of
    [syntaxHighlight] gives back exactly the HTML-escaped input: the
    replace loop adds span tags and changes nothing else. *)
Theorem syntaxHighlight_strip_tags s : strip_tags (syntaxHighlight s) = escape_html s.
Proof. apply strip_tags_scan, escape_html_no_angle. Qed.

(** C7: Round trip: dropping the tags of the output and decoding the
    three entities yields the original text, for every input. *)
Theorem syntaxHighlight_roundtrip s : unescape_html (strip_tags (syntaxHighlight s)) = s.
Proof.
  unfold syntaxHighlight. rewrite strip_tags_scan by apply escape_html_no_angle.
  apply unescape_escape.
Qed.

(** C8: Safety: once the inserted tags are removed, the output holds no
    [<] or [>] at all, so no text of the input can open or close an
    HTML element. *)
Theorem syntaxHighlight_text_safe s : no_angle (strip_tags (syntaxHighlight s)) = true.
Proof.
  unfold syntaxHighlight. rewrite strip_tags_scan by apply escape_html_no_angle.
  apply escape_html_no_angle.
Qed.

Lemma class_of_span m :
  existsb (fun k => if list_eq_dec ascii_dec k (class_of m) then true else false) span_classes = true.
Proof.
  unfold class_of.
  destruct (starts_with_quote m); [destruct (ends_with_colon m)|];
    [reflexivity|reflexivity|].
  destruct (contains (str "true") m || contains (str "false") m); [reflexivity|].
  destruct (contains (str "null") m); reflexivity.
Qed.

(** C20: The output is well-formed markup: a sequence of characters
    other than [<] and [>] and of spans, each with one of the classes
    key, string, number, boolean and null around a non-empty text
    without angle brackets, so that spans never nest. *)
Theorem syntaxHighlight_markup s :
  exists ps, syntaxHighlight s = flat_map render ps /\ forallb piece_ok ps = true.
Proof.
  unfold syntaxHighlight. generalize (escape_html_no_angle s). generalize (escape_html s). intros t Ht.
  revert Ht. generalize (@None ascii). intros p. revert p t.
  apply (scan_ind (fun p t => no_angle t = true ->
                     exists ps, scan p t = flat_map render ps /\ forallb piece_ok ps = true)).
  - intros p _. exists []. now rewrite scan_nil.
  - intros p c r m rest E IH Hs. rewrite (scan_match _ _ _ _ _ E).
    apply exec_at_app in E as [E Hm]. rewrite E, no_angle_app in Hs. apply andb_true_iff in Hs as [Ha Hr].
    destruct (IH Hr) as (ps & Hps & Hok). exists (Span (class_of m) m :: ps). split.
    + cbn [flat_map render]. rewrite Hps. reflexivity.
    + cbn [forallb piece_ok]. rewrite class_of_span, Ha, Hok. destruct m; [congruence|reflexivity].
  - intros p c r E IH Hs. rewrite (scan_nomatch _ _ _ E).
    change (c :: r) with ([c] ++ r) in Hs. rewrite no_angle_app in Hs. apply andb_true_iff in Hs as [Ha Hr].
    destruct (IH Hr) as (ps & Hps & Hok). exists (Plain c :: ps). split.
    + cbn [flat_map render]. rewrite Hps. reflexivity.
    + cbn [forallb piece_ok]. now rewrite Ha, Hok.
Qed.

(** C11: The callback's tests classify every match as the pattern's
    capture groups do: [key] when group 3 (the colon) participates,
    [string] for the first alternative without it, [boolean] or [null]
    by the literal of group 4, and [number] for the last alternative. *)
Theorem callback_class_correct p s m r :
  exec_at p s = Some (m, r) ->
  exists k, token_kind_at p s = Some k /\ class_of m = kind_class k.
Proof.
  unfold exec_at, token_kind_at, match_string.
  destruct (string_alt s) as [[[body [cw|]] rest]|] eqn:Es.
  - intros E; inv E. exists KKey. split; [reflexivity|].
    destruct (string_alt_colon _ _ _ _ Es) as [w ->].
    unfold class_of, starts_with_quote. simpl.
    replace (ch_quote :: body ++ ch_quote :: w ++ [ch_colon])
      with ((ch_quote :: body ++ ch_quote :: w) ++ [ch_colon]) by (app_norm; reflexivity).
    now rewrite ends_with_colon_snoc.
  - intros E; inv E. exists KString. split; [reflexivity|].
    unfold class_of, starts_with_quote. simpl.
    replace (ch_quote :: body ++ [ch_quote]) with ((ch_quote :: body) ++ [ch_quote])
      by reflexivity.
    now rewrite ends_with_colon_snoc.
  - destruct (match_literal p s) as [[l rest]|] eqn:El.
    + intros E; inv E. unfold match_literal in El.
      destruct (is_word_opt p); [discriminate|].
      apply first_literal_app in El as [Hin _].
      simpl in Hin. destruct Hin as [<-|[<-|[<-|[]]]]; eexists; split; reflexivity.
    + intros E. rewrite E. exists KNumber. split; [reflexivity|].
      apply class_of_number. eapply match_number_chars; eauto.
Qed.

(** The callback at the literal [true] followed by a comma. *)
Lemma callback_class_correct_witness :
  exec_at None (str "true,") = Some (str "true", str ",") /\
  exists k, token_kind_at None (str "true,") = Some k /\
            class_of (str "true") = kind_class k.
Proof.
  split; [reflexivity|].
  apply (callback_class_correct None (str "true,") (str "true") (str ",")).
  reflexivity.
Defined.

End HighlightFacts.
