(* ===== verification/StringReplace.v ===== *)
(** * The global replace of src/src/lib/utils/highlight.ts, line 15, as ECMAScript runs it

    [json_string.replace(regex, callback)] with a global regular
    expression is [RegExp.prototype[@@replace]] (ECMA-262, 22.2.6.11).
    It runs in two phases over positions of the whole string:
    - it collects the matches, each found by [RegExpBuiltinExec] from
      [lastIndex] onwards;
    - it then builds the result from the collected matches and the text
      between them.
    The loops are written with fuel. The lemmas show that fuel
    [|s| + 2] is enough, that at most [|s|] matches are collected, and
    that the result equals [scan], the recursive loop that
    [syntaxHighlight] uses. *)
From Stdlib Require Import Ascii String List Bool Arith Lia.
Import ListNotations.
From S2P Require Import Spec2Rocq JsValue JsonStringify TokenRegex Highlight.

Module StringReplace.
Import JsValue TokenRegex Highlight.

(** The character before position [i]; [\b] looks at it. *)
Definition prev_at (s : text) (i : nat) : option ascii :=
  match i with 0 => None | S k => nth_error s k end.

(** [RegExpBuiltinExec] with the [g] flag, from [lastIndex = i].  If
    [lastIndex] passes the length the result is [null]; otherwise the
    pattern is tried at [lastIndex], and on failure [lastIndex] moves
    on by one code unit.  A match gives its index and matched text.
    [None] means the fuel ran out. *)
Fixpoint builtin_exec (fuel : nat) (s : text) (i : nat) : option (option (nat * text)) :=
  match fuel with
  | 0 => None
  | S f =>
      if length s <? i then Some None
      else match exec_at (prev_at s i) (skipn i s) with
           | Some (m, _) => Some (Some (i, m))
           | None => builtin_exec f s (S i)
           end
  end.

(** The first phase of [@@replace] with a global pattern: call
    [RegExpExec] until it gives [null].  After a match, [lastIndex] is
    the end of the match, moved on by one when the match is empty. *)
Fixpoint collect (fuel : nat) (s : text) (i : nat) : option (list (nat * text)) :=
  match fuel with
  | 0 => None
  | S f =>
      match builtin_exec fuel s i with
      | None => None
      | Some None => Some []
      | Some (Some (p, m)) =>
          let next := match m with [] => S (p + length m) | _ => p + length m end in
          match collect f s next with
          | None => None
          | Some rs => Some ((p, m) :: rs)
          end
      end
  end.

(** The second phase: for each result, the callback gives the
    replacement.  When the result's position is at or after
    [nextSourcePosition], the text from [nextSourcePosition] to the
    position is emitted, then the replacement.  The rest of the string
    comes at the end. *)
Fixpoint accumulate (s : text) (rs : list (nat * text)) (acc : text) (next : nat) : text :=
  match rs with
  | [] => acc ++ skipn next s
  | (p, m) :: rs' =>
      if next <=? p
      then accumulate s rs' (acc ++ firstn (p - next) (skipn next s) ++ replacer m) (p + length m)
      else accumulate s rs' acc next
  end.

(** [S.replace(rx, callback)]: [lastIndex] starts at 0. *)
Definition replace_global (fuel : nat) (s : text) : option text :=
  match collect fuel s 0 with
  | None => None
  | Some rs => Some (accumulate s rs [] 0)
  end.

End StringReplace.

Module StringReplaceFacts.
Import JsValue TokenRegex TokenRegexFacts Highlight HighlightFacts StringReplace.

(** What the recursive loop produces from position [i] on. *)
Definition out (s : text) (i : nat) : text := scan (prev_at s i) (skipn i s).

Lemma skipn_nth (s : text) k c : nth_error s k = Some c -> skipn k s = c :: skipn (S k) s.
Proof.
  revert k. induction s as [|x s IH]; intros [|k] H; inversion H; subst; simpl; auto.
Qed.

Lemma nth_error_last (m : text) c :
  m <> [] -> nth_error m (length m - 1) = Some (last m c).
Proof.
  intros Hm. rewrite (app_removelast_last c Hm), last_last, length_app, nth_error_app2
    by (simpl; lia).
  simpl. now replace (length (removelast m) + 1 - 1 - length (removelast m)) with 0 by lia.
Qed.

(** No match at [i]: the character is copied. *)
Lemma out_plain s i :
  i < length s -> exec_at (prev_at s i) (skipn i s) = None ->
  out s i = firstn 1 (skipn i s) ++ out s (S i).
Proof.
  intros Hi Hn. destruct (nth_error s i) as [c|] eqn:Ec;
    [|apply nth_error_None in Ec; lia].
  unfold out. rewrite (skipn_nth _ _ _ Ec) in *. rewrite (scan_nomatch _ _ _ Hn).
  simpl. now rewrite Ec.
Qed.

(** A stretch of positions without a match is copied. *)
Lemma out_skip s i p :
  i <= p <= length s ->
  (forall k, i <= k < p -> exec_at (prev_at s k) (skipn k s) = None) ->
  out s i = firstn (p - i) (skipn i s) ++ out s p.
Proof.
  remember (p - i) as d eqn:Ed. revert i Ed.
  induction d as [|d IH]; intros i Ed Hi Hn.
  - replace p with i by lia. reflexivity.
  - rewrite (out_plain s i) by (lia || apply Hn; lia).
    rewrite (IH (S i)) by (lia || intros; apply Hn; lia).
    destruct (nth_error s i) as [c|] eqn:Ec; [|apply nth_error_None in Ec; lia].
    rewrite (skipn_nth _ _ _ Ec). reflexivity.
Qed.

(** A match at [p] is replaced, and the loop goes on after it. *)
Lemma out_token s p m rest :
  exec_at (prev_at s p) (skipn p s) = Some (m, rest) ->
  out s p = replacer m ++ out s (p + length m).
Proof.
  intros E. pose proof (exec_at_app _ _ _ _ E) as [Hs Hm].
  destruct (skipn p s) as [|c r] eqn:Es; [destruct m; [congruence|discriminate]|].
  unfold out. rewrite Es, (scan_match _ _ _ _ _ E). f_equal.
  assert (Hr : skipn (p + length m) s = rest).
  { rewrite Nat.add_comm, <- skipn_skipn, Es, Hs, skipn_app, skipn_all, Nat.sub_diag. reflexivity. }
  assert (Hp : prev_at s (p + length m) = Some (last m c)).
  { assert (Hl : length m <> 0) by (destruct m; [congruence|discriminate]).
    replace (p + length m) with (S (p + (length m - 1))) by lia. cbn [prev_at].
    rewrite <- nth_error_skipn, Es, Hs, nth_error_app1 by lia. now apply nth_error_last. }
  now rewrite Hr, Hp.
Qed.

(** The search: a match is the first position from [i] where the
    pattern matches; [null] means none from [i] to the end. *)
Lemma builtin_exec_Some fuel s i p m :
  builtin_exec fuel s i = Some (Some (p, m)) ->
  i <= p <= length s /\
  (forall k, i <= k < p -> exec_at (prev_at s k) (skipn k s) = None) /\
  exists rest, exec_at (prev_at s p) (skipn p s) = Some (m, rest).
Proof.
  revert i. induction fuel as [|f IH]; intros i H; [discriminate|]. simpl in H.
  destruct (Nat.ltb_spec (length s) i); [discriminate|].
  destruct (exec_at (prev_at s i) (skipn i s)) as [[m' r']|] eqn:E.
  - inversion H; subst. split; [lia|]. split; [intros; lia|eauto].
  - destruct (IH (S i) H) as (Hb & Hn & Hm). split; [lia|]. split; [|exact Hm].
    intros k Hk. destruct (Nat.eq_dec k i) as [->|]; [exact E|apply Hn; lia].
Qed.

Lemma builtin_exec_null fuel s i :
  builtin_exec fuel s i = Some None ->
  forall k, i <= k < length s -> exec_at (prev_at s k) (skipn k s) = None.
Proof.
  revert i. induction fuel as [|f IH]; intros i H k Hk; [discriminate|]. simpl in H.
  destruct (Nat.ltb_spec (length s) i); [lia|].
  destruct (exec_at (prev_at s i) (skipn i s)) as [[m' r']|] eqn:E; [discriminate|].
  destruct (Nat.eq_dec k i) as [->|]; [exact E|apply (IH (S i)); auto; lia].
Qed.

Lemma builtin_exec_total fuel s i :
  length s + 1 <= fuel + i -> builtin_exec (S fuel) s i <> None.
Proof.
  revert i. induction fuel as [|f IH]; intros i Hf; cbn [builtin_exec].
  - destruct (Nat.ltb_spec (length s) i); [discriminate|lia].
  - destruct (length s <? i); [discriminate|].
    destruct exec_at as [[m r]|]; [discriminate|apply IH; lia].
Qed.

Lemma builtin_exec_nonempty fuel s i p m :
  builtin_exec fuel s i = Some (Some (p, m)) -> m <> [] /\ i <= p /\ p + length m <= length s.
Proof.
  intros H. destruct (builtin_exec_Some _ _ _ _ _ H) as (Hb & _ & rest & E).
  destruct (exec_at_app _ _ _ _ E) as [Hs Hm]. split; [exact Hm|]. split; [lia|].
  assert (L := f_equal (@length ascii) Hs). rewrite length_skipn, length_app in L. lia.
Qed.

(** With no match from [i] to the end, the rest is copied. *)
Lemma out_rest s i :
  (forall k, i <= k < length s -> exec_at (prev_at s k) (skipn k s) = None) ->
  out s i = skipn i s.
Proof.
  intros Hn. destruct (Nat.le_gt_cases i (length s)) as [Hi|Hi].
  - rewrite (out_skip s i (length s)) by (lia || auto).
    unfold out. rewrite skipn_all, scan_nil, app_nil_r.
    apply firstn_all2. rewrite length_skipn. lia.
  - unfold out. rewrite skipn_all2 by lia. apply scan_nil.
Qed.

Lemma collect_S f s i :
  collect (S f) s i =
  match builtin_exec (S f) s i with
  | None => None
  | Some None => Some []
  | Some (Some (p, m)) =>
      match collect f s (match m with [] => S (p + length m) | _ => p + length m end) with
      | None => None
      | Some rs => Some ((p, m) :: rs)
      end
  end.
Proof. reflexivity. Qed.

(** Fuel [n] from [lastIndex = i], with [|s| + 1 <= n + i], is enough
    for the first phase; it finds at most one match per remaining
    code unit. *)
Lemma collect_total fuel s i :
  length s + 1 <= fuel + i ->
  exists rs, collect (S fuel) s i = Some rs /\ length rs <= length s - i.
Proof.
  revert i. induction fuel as [|f IH]; intros i Hf; rewrite collect_S;
    destruct (builtin_exec _ s i) as [[[p m]|]|] eqn:B.
  - apply builtin_exec_nonempty in B. lia.
  - exists []. split; [reflexivity|simpl; lia].
  - exfalso. exact (builtin_exec_total 0 s i Hf B).
  - destruct (builtin_exec_nonempty _ _ _ _ _ B) as (Hm & Hp & Hl).
    destruct m as [|x m']; [congruence|].
    destruct (IH (p + length (x :: m'))) as (rs & Hrs & Hlen); [simpl in *; lia|].
    rewrite Hrs. eexists. split; [reflexivity|simpl in *; lia].
  - exists []. split; [reflexivity|simpl; lia].
  - exfalso. exact (builtin_exec_total (S f) s i Hf B).
Qed.

(** The second phase over the results of the first from [lastIndex = i]
    emits what the recursive loop emits from [i]. *)
Lemma collect_accumulate fuel s i rs acc :
  collect fuel s i = Some rs -> accumulate s rs acc i = acc ++ out s i.
Proof.
  revert i rs acc. induction fuel as [|f IH]; intros i rs acc H; [discriminate|].
  rewrite collect_S in H. destruct (builtin_exec (S f) s i) as [[[p m]|]|] eqn:B; [|inv H|discriminate].
  - destruct (builtin_exec_Some _ _ _ _ _ B) as (Hp & Hn & rest & E).
    destruct (builtin_exec_nonempty _ _ _ _ _ B) as (Hm & _).
    assert (Hnext : (match m with [] => S (p + length m) | _ => p + length m end) = p + length m)
      by (destruct m; congruence).
    rewrite Hnext in H. destruct (collect f s (p + length m)) as [rs'|] eqn:C; [inv H|discriminate].
    cbn [accumulate]. destruct (Nat.leb_spec i p); [|lia].
    rewrite (IH _ _ _ C), (out_skip s i p) by (lia || auto).
    rewrite (out_token _ _ _ _ E). now rewrite !app_assoc.
  - cbn [accumulate]. f_equal. symmetry. apply out_rest. eapply builtin_exec_null; eauto.
Qed.

End StringReplaceFacts.

Module StringReplaceProps.
Import JsValue TokenRegex Highlight HighlightFacts StringReplace StringReplaceFacts.

(** The model's fuel is enough: with fuel [|s| + 2] the first phase of
    the global replace returns, having found at most [|s|] matches. *)
Lemma collect_terminates s :
  exists rs, collect (length s + 2) s 0 = Some rs /\ length rs <= length s.
Proof.
  replace (length s + 2) with (S (length s + 1)) by lia.
  destruct (collect_total (length s + 1) s 0) as (rs & H & L); [lia|].
  exists rs. split; [exact H|lia].
Qed.

(** The recursive loop [scan] of the model of [syntaxHighlight] is the
    ECMAScript global replace: with any fuel of at least [|s| + 2], the
    two-phase algorithm of [RegExp.prototype[@@replace]] returns exactly
    [scan None s].  This justifies [scan] as the model of the
    [json_string.replace] call. *)
Lemma replace_global_scan s fuel :
  length s + 2 <= fuel -> replace_global fuel s = Some (scan None s).
Proof.
  intros Hf. destruct fuel as [|f]; [lia|].
  destruct (collect_total f s 0) as (rs & H & _); [lia|].
  unfold replace_global. rewrite H, (collect_accumulate _ _ _ _ [] H). reflexivity.
Qed.

End StringReplaceProps.
