(* ===== verification/HighlightJson.v ===== *)
(** * [highlight] on serialized values: refinement of the token view

    The specification of the highlighter (spec section 4.3) describes
    its output as the pretty-printed serialization with every lexical
    token wrapped in a span whose class names the token's kind.  This
    file states that description as the serializer of [JsonStringify]
    instantiated with a wrapper that escapes a token and wraps it in
    its span, and proves that [highlight], which serializes first and
    then rescans the text with a regular expression, computes exactly
    that, for every value and every number format satisfying the
    contract of [Number::toString]. *)
From Stdlib Require Import Ascii String List Bool Arith Lia.
From Equations Require Import Equations.
Import ListNotations.
From S2P Require Import Spec2Rocq JsValue JsonStringify TokenRegex Highlight.

Module HighlightJson.
Import JsValue JsonStringify TokenRegex TokenRegexFacts Highlight HighlightFacts.

(** The intended rendering of one token: escaped, in a span of its class. *)
Definition span_token (k : token_kind) (t : text) : text :=
  wrap_span (kind_class k) (escape_html t).

(** Characters at which no match of the token regex can start, whatever
    precedes them: the structural characters of JSON text. *)
Definition inert (c : ascii) : bool :=
  negb (c =c ch_quote) && negb (c =c ch_minus) && negb (is_digit c) && negb (is_word c).

(** What follows a value in serialized text: nothing, a separator, or a
    line break, the indentation and a closing bracket. *)
Definition follow_ok (rest : text) : Prop :=
  rest = [] \/ (exists r, rest = ch_comma :: r) \/
  (exists n c r, rest = ch_nl :: repeat ch_space n ++ c :: r /\
                 (c = "]"%char \/ c = "}"%char)).

(** A piece [x] of serialized text is highlighted as [h] when rescanning
    its escaped form, after a non-word character and before a
    well-formed continuation, emits [h] and leaves the continuation to
    the rest of the loop. *)
Definition hl_ok (x h : text) : Prop :=
  forall p rest, is_word_opt p = false -> follow_ok rest ->
    scan p (escape_html x ++ rest) = h ++ scan None rest.

(** ** Structural characters *)

Lemma inert_exec_at p c r : inert c = true -> exec_at p (c :: r) = None.
Proof.
  unfold inert. rewrite !andb_true_iff, !negb_true_iff.
  intros [[[Hq Hm] Hd] Hw].
  unfold exec_at, match_string, string_alt. rewrite Hq.
  assert (Hl : match_literal p (c :: r) = None).
  { unfold match_literal. destruct (is_word_opt p); [reflexivity|].
    cbn [literals first_literal strip_prefix str list_ascii_of_string].
    destruct (Ascii.eqb_spec "t"%char c) as [<-|_]; [discriminate|].
    destruct (Ascii.eqb_spec "f"%char c) as [<-|_]; [discriminate|].
    destruct (Ascii.eqb_spec "n"%char c) as [<-|_]; [discriminate|].
    reflexivity. }
  rewrite Hl. unfold match_number. rewrite Hm. simpl. now rewrite Hd.
Qed.

Lemma scan_inert p c r : inert c = true -> scan p (c :: r) = c :: scan (Some c) r.
Proof. intros H. apply scan_nomatch, inert_exec_at, H. Qed.

Lemma inert_not_word c : inert c = true -> is_word c = false.
Proof.
  unfold inert. rewrite !andb_true_iff, !negb_true_iff. tauto.
Qed.

(** A run of structural characters is copied, and the loop resumes
    after a non-word character. *)
Lemma scan_inert_app p t rest :
  is_word_opt p = false -> forallb inert t = true ->
  exists q, is_word_opt q = false /\ scan p (t ++ rest) = t ++ scan q rest.
Proof.
  revert p. induction t as [|c t IH]; intros p Hp Ht; simpl in *.
  - eauto.
  - apply andb_true_iff in Ht as [Hc Ht]. rewrite scan_inert by exact Hc.
    destruct (IH (Some c)) as [q [Hq E]]; [simpl; now apply inert_not_word|exact Ht|].
    exists q. split; [exact Hq|]. now rewrite E.
Qed.

(** After a value the loop's state no longer matters. *)
Lemma scan_follow q rest : follow_ok rest -> scan q rest = scan None rest.
Proof.
  intros [->|[[r ->]|[n [c [r [-> _]]]]]].
  - now rewrite !scan_nil.
  - rewrite !scan_inert by reflexivity. reflexivity.
  - rewrite !scan_inert by reflexivity. reflexivity.
Qed.

(** ** Quoted strings

    The body of a quoted string is a sequence of the units that
    QuoteJSONString emits, each HTML-escaped: a plain character, a
    backslash and a letter, or [\u00] and two hexadecimal digits.  The
    regex consumes exactly these units, one iteration each. *)

Definition plain (c : ascii) : bool := negb (c =c ch_bslash) && negb (c =c ch_quote).

Lemma str_chars_plain x t :
  forallb plain x = true ->
  str_chars (x ++ t) = (x ++ fst (str_chars t), snd (str_chars t)).
Proof.
  induction x as [|c x IH]; simpl; [now destruct (str_chars t)|].
  unfold plain at 1. rewrite !andb_true_iff, !negb_true_iff.
  intros [[Hb Hq] Hx]. rewrite Hb, Hq, IH by exact Hx. reflexivity.
Qed.

Lemma hex_digit_alnum k : k < 16 -> is_alnum (hex_digit k) = true.
Proof. intros H. do 16 (destruct k as [|k]; [reflexivity|]). lia. Qed.

Lemma esc_char_alnum c : is_alnum c = true -> esc_char c = [c].
Proof.
  intros H. unfold esc_char.
  destruct (Ascii.eqb_spec c ch_amp) as [->|]; [discriminate|].
  destruct (Ascii.eqb_spec c ch_lt) as [->|]; [discriminate|].
  destruct (Ascii.eqb_spec c ch_gt) as [->|]; [discriminate|reflexivity].
Qed.

Lemma esc_char_plain c :
  nat_of_ascii c <> 34 -> nat_of_ascii c <> 92 -> forallb plain (esc_char c) = true.
Proof.
  intros H34 H92. unfold esc_char.
  destruct (c =c ch_amp); [reflexivity|].
  destruct (c =c ch_lt); [reflexivity|].
  destruct (c =c ch_gt); [reflexivity|].
  simpl. unfold plain. rewrite andb_true_r.
  destruct (Ascii.eqb_spec c ch_bslash) as [->|]; [now contradict H92|].
  destruct (Ascii.eqb_spec c ch_quote) as [->|]; [now contradict H34|reflexivity].
Qed.

Lemma str_chars_unicode a b t :
  is_alnum a = true -> is_alnum b = true ->
  str_chars (ch_bslash :: "u"%char :: "0"%char :: "0"%char :: a :: b :: t) =
  (ch_bslash :: "u"%char :: "0"%char :: "0"%char :: a :: b :: fst (str_chars t),
   snd (str_chars t)).
Proof.
  intros Ha Hb. cbn [str_chars]. rewrite Ha, Hb. cbn. now destruct (str_chars t).
Qed.

Lemma str_chars_quote_char c t :
  str_chars (escape_html (quote_char c) ++ t) =
  (escape_html (quote_char c) ++ fst (str_chars t), snd (str_chars t)).
Proof.
  unfold quote_char.
  destruct (Nat.eqb_spec (nat_of_ascii c) 8); [simpl; now destruct (str_chars t)|].
  destruct (Nat.eqb_spec (nat_of_ascii c) 9); [simpl; now destruct (str_chars t)|].
  destruct (Nat.eqb_spec (nat_of_ascii c) 10); [simpl; now destruct (str_chars t)|].
  destruct (Nat.eqb_spec (nat_of_ascii c) 12); [simpl; now destruct (str_chars t)|].
  destruct (Nat.eqb_spec (nat_of_ascii c) 13); [simpl; now destruct (str_chars t)|].
  destruct (Nat.eqb_spec (nat_of_ascii c) 34); [simpl; now destruct (str_chars t)|].
  destruct (Nat.eqb_spec (nat_of_ascii c) 92); [simpl; now destruct (str_chars t)|].
  destruct (Nat.ltb_spec (nat_of_ascii c) 32).
  - assert (H1 : is_alnum (hex_digit (nat_of_ascii c / 16)) = true)
      by (apply hex_digit_alnum; apply Nat.Div0.div_lt_upper_bound; lia).
    assert (H2 : is_alnum (hex_digit (nat_of_ascii c mod 16)) = true)
      by (apply hex_digit_alnum, Nat.mod_upper_bound; lia).
    rewrite !escape_html_cons, (esc_char_alnum _ H1), (esc_char_alnum _ H2).
    apply str_chars_unicode; assumption.
  - rewrite escape_html_cons. simpl. rewrite app_nil_r.
    apply str_chars_plain, esc_char_plain; assumption.
Qed.

Definition quoted_body (s : text) : text := escape_html (flat_map quote_char s).

Lemma escape_quote_json s :
  escape_html (quote_json s) = ch_quote :: quoted_body s ++ [ch_quote].
Proof.
  unfold quote_json, quoted_body. now rewrite escape_html_cons, escape_html_app.
Qed.

Lemma str_chars_quoted s t :
  str_chars (quoted_body s ++ ch_quote :: t) = (quoted_body s, ch_quote :: t).
Proof.
  unfold quoted_body. induction s as [|c s IH]; [reflexivity|].
  simpl flat_map. rewrite escape_html_app, <- app_assoc, str_chars_quote_char, IH.
  reflexivity.
Qed.

Lemma string_alt_quoted s t :
  string_alt (ch_quote :: quoted_body s ++ ch_quote :: t) =
  match ws_colon t with
  | Some (cw, t') => Some (quoted_body s, Some cw, t')
  | None => Some (quoted_body s, None, t)
  end.
Proof.
  unfold string_alt. cbn [Ascii.eqb ch_quote Bool.eqb]. rewrite str_chars_quoted.
  cbn [Ascii.eqb ch_quote Bool.eqb].
  destruct (ws_colon t) as [[cw t']|]; reflexivity.
Qed.

(** ** One token at a time *)

Lemma follow_ws_colon rest : follow_ok rest -> ws_colon rest = None.
Proof.
  intros [->|[[r ->]|[n [c [r [-> Hc]]]]]]; [reflexivity|reflexivity|].
  unfold ws_colon. rewrite app_comm_cons.
  rewrite (span_all_app is_space (ch_nl :: repeat ch_space n) (c :: r)).
  - destruct Hc as [->| ->]; reflexivity.
  - simpl. clear. induction n as [|n IH]; [reflexivity|exact IH].
  - destruct Hc as [->| ->]; reflexivity.
Qed.

Lemma follow_head rest :
  follow_ok rest -> head_is is_word rest = false /\ head_is is_num_char rest = false.
Proof.
  intros [->|[[r ->]|[n [c [r [-> _]]]]]]; split; reflexivity.
Qed.

(** Emitting a token: the loop replaces a match that is exactly the
    token by its span and continues after it. *)
Lemma scan_token_any p t rest :
  exec_at p (t ++ rest) = Some (t, rest) -> t <> [] ->
  exists q, scan p (t ++ rest) = replacer t ++ scan q rest.
Proof.
  intros E Ht. destruct t as [|c t']; [congruence|].
  simpl app in *. rewrite (scan_match _ _ _ _ _ E). eexists; reflexivity.
Qed.

Lemma scan_token p t rest k :
  exec_at p (t ++ rest) = Some (t, rest) -> class_of t = kind_class k ->
  follow_ok rest -> t <> [] ->
  scan p (t ++ rest) = wrap_span (kind_class k) t ++ scan None rest.
Proof.
  intros E Hk Hf Ht. destruct (scan_token_any p t rest E Ht) as [q ->].
  rewrite scan_follow by exact Hf. unfold replacer. now rewrite Hk.
Qed.

Lemma exec_at_quoted p s rest :
  ws_colon rest = None ->
  exec_at p (escape_html (quote_json s) ++ rest) = Some (escape_html (quote_json s), rest).
Proof.
  intros Hw. rewrite escape_quote_json. unfold exec_at, match_string.
  app_right. rewrite string_alt_quoted, Hw. reflexivity.
Qed.

Lemma exec_at_key p k rest :
  exec_at p (escape_html (quote_json k ++ [ch_colon]) ++ ch_space :: rest) =
  Some (escape_html (quote_json k ++ [ch_colon]), ch_space :: rest).
Proof.
  rewrite escape_html_app, escape_quote_json. unfold exec_at, match_string.
  app_right. rewrite string_alt_quoted. simpl. app_norm. reflexivity.
Qed.

Lemma class_of_quoted s : class_of (escape_html (quote_json s)) = str "string".
Proof.
  rewrite escape_quote_json. unfold class_of, starts_with_quote.
  cbn [head_is]. rewrite Ascii.eqb_refl.
  change (ch_quote :: quoted_body s ++ [ch_quote])
    with ((ch_quote :: quoted_body s) ++ [ch_quote]).
  rewrite (ends_with_colon_snoc (ch_quote :: quoted_body s) ch_quote). reflexivity.
Qed.

Lemma class_of_key k : class_of (escape_html (quote_json k ++ [ch_colon])) = str "key".
Proof.
  rewrite escape_html_app, escape_quote_json. unfold class_of, starts_with_quote.
  cbn [head_is app]. rewrite Ascii.eqb_refl.
  change (ch_quote :: (quoted_body k ++ [ch_quote]) ++ escape_html [ch_colon])
    with ((ch_quote :: quoted_body k ++ [ch_quote]) ++ [ch_colon]).
  rewrite (ends_with_colon_snoc (ch_quote :: quoted_body k ++ [ch_quote]) ch_colon).
  reflexivity.
Qed.

Lemma hl_ok_string s : hl_ok (quote_json s) (span_token KString (quote_json s)).
Proof.
  intros p rest Hp Hf. apply scan_token.
  - apply exec_at_quoted, follow_ws_colon, Hf.
  - apply class_of_quoted.
  - exact Hf.
  - rewrite escape_quote_json. discriminate.
Qed.

Lemma hl_ok_member k x h :
  hl_ok x h ->
  hl_ok ((quote_json k ++ [ch_colon]) ++ ch_space :: x)
        (span_token KKey (quote_json k ++ [ch_colon]) ++ ch_space :: h).
Proof.
  intros Hx p rest Hp Hf.
  rewrite escape_html_app, escape_html_cons.
  change (esc_char ch_space) with [ch_space].
  rewrite <- app_assoc. cbn [app].
  destruct (scan_token_any p _ _ (exec_at_key p k (escape_html x ++ rest))) as [q ->].
  { rewrite escape_html_app, escape_quote_json. discriminate. }
  rewrite scan_inert by reflexivity. rewrite Hx by (reflexivity || exact Hf).
  unfold replacer, span_token. rewrite class_of_key. app_norm. reflexivity.
Qed.

(** *** Literals *)

Lemma exec_at_literal p l rest :
  In l literals -> is_word_opt p = false -> head_is is_word rest = false ->
  exec_at p (l ++ rest) = Some (l, rest).
Proof.
  intros Hin Hp Hr. unfold exec_at, match_string, match_literal. rewrite Hp.
  simpl in Hin. destruct Hin as [<-|[<-|[<-|[]]]]; cbn; rewrite Hr; reflexivity.
Qed.

Lemma hl_ok_literal l k :
  In l literals -> class_of l = kind_class k -> hl_ok l (span_token k l).
Proof.
  intros Hin Hk p rest Hp Hf.
  assert (He : escape_html l = l)
    by (simpl in Hin; destruct Hin as [<-|[<-|[<-|[]]]]; reflexivity).
  unfold span_token. rewrite He. apply scan_token; auto.
  - apply exec_at_literal; auto. apply follow_head, Hf.
  - simpl in Hin. destruct Hin as [<-|[<-|[<-|[]]]]; discriminate.
Qed.

Lemma hl_ok_null : hl_ok (str "null") (span_token KNull (str "null")).
Proof. apply hl_ok_literal; [simpl; auto|reflexivity]. Qed.

Lemma hl_ok_bool (b : bool) :
  hl_ok (if b then str "true" else str "false")
        (span_token KBoolean (if b then str "true" else str "false")).
Proof. destruct b; apply hl_ok_literal; (simpl; auto) || reflexivity. Qed.

(** *** Numbers *)

Lemma num_char_esc c : is_num_char c = true -> esc_char c = [c].
Proof.
  intros H. unfold esc_char.
  destruct (Ascii.eqb_spec c ch_amp) as [->|]; [discriminate|].
  destruct (Ascii.eqb_spec c ch_lt) as [->|]; [discriminate|].
  destruct (Ascii.eqb_spec c ch_gt) as [->|]; [discriminate|reflexivity].
Qed.

Lemma escape_html_num t : forallb is_num_char t = true -> escape_html t = t.
Proof.
  induction t as [|c t IH]; [reflexivity|]. simpl. rewrite andb_true_iff.
  intros [Hc Ht]. rewrite escape_html_cons, num_char_esc, IH; auto.
Qed.

Lemma digits_num_ok d : digits_ok d -> forallb is_num_char d = true.
Proof. intros [_ H]. now apply digits_num_chars. Qed.

Lemma head_digit_num u : head_is is_num_char u = false -> head_is is_digit u = false.
Proof.
  destruct u as [|c u]; [reflexivity|]. simpl. unfold is_num_char.
  destruct (is_digit c); [discriminate|reflexivity].
Qed.

Lemma shape_num_chars t : number_shape t -> forallb is_num_char t = true.
Proof.
  intros (sg & ds & fr & ex & -> & Hsg & Hds & Hfr & Hex).
  rewrite !forallb_app, (digits_num_ok ds Hds).
  destruct Hsg as [->| ->]; [|]; simpl;
  (destruct Hfr as [->|(fd & -> & Hfd)];
   [|simpl; rewrite (digits_num_ok fd Hfd)]);
  (destruct Hex as [->|(sgn & ed & -> & Hs & Hed)];
   [|simpl; rewrite (digits_num_ok ed Hed); destruct Hs as [->| ->]]);
  reflexivity.
Qed.

Lemma exp_part_exact ex rest :
  (ex = [] \/ exists s ed, ex = "e"%char :: s :: ed /\ (s = ch_plus \/ s = ch_minus) /\ digits_ok ed) ->
  head_is is_num_char rest = false -> exp_part (ex ++ rest) = (ex, rest).
Proof.
  intros [->|(s & ed & -> & Hs & Hed)] Hr.
  - destruct rest as [|c r]; [reflexivity|]. simpl in *. unfold exp_part.
    unfold is_num_char in Hr. destruct (is_exp_mark c); [|reflexivity].
    rewrite !orb_true_r in Hr. discriminate.
  - unfold exp_part. cbn [app].
    assert (Hsg : is_sign s = true) by (destruct Hs as [->| ->]; reflexivity).
    change (is_exp_mark "e"%char) with true. cbv iota beta. rewrite Hsg.
    rewrite span_all_app; [|apply Hed|now apply head_digit_num].
    destruct Hed as [Hne _]. destruct ed; [congruence|reflexivity].
Qed.

Lemma frac_part_exact fr u :
  (fr = [] \/ exists fd, fr = ch_dot :: fd /\ digits_ok fd) ->
  head_is is_digit u = false -> head_is (fun c => c =c ch_dot) u = false ->
  frac_part (fr ++ u) = (fr, u).
Proof.
  intros [->|(fd & -> & Hfd)] Hd Hdot.
  - destruct u as [|c u]; [reflexivity|]. simpl in *. unfold frac_part. now rewrite Hdot.
  - unfold frac_part. cbn [app]. change (ch_dot =c ch_dot) with true. cbv iota beta.
    rewrite span_all_app; [reflexivity|apply Hfd|exact Hd].
Qed.

Lemma exp_heads ex rest :
  (ex = [] \/ exists s ed, ex = "e"%char :: s :: ed /\ (s = ch_plus \/ s = ch_minus) /\ digits_ok ed) ->
  head_is is_num_char rest = false ->
  head_is is_digit (ex ++ rest) = false /\ head_is (fun c => c =c ch_dot) (ex ++ rest) = false.
Proof.
  intros [->|(s & ed & -> & _)] Hr; [|split; reflexivity].
  destruct rest as [|c r]; [split; reflexivity|]. simpl in *. unfold is_num_char in Hr.
  apply orb_false_iff in Hr as [Hr _]. apply orb_false_iff in Hr as [Hr Hdot].
  apply orb_false_iff in Hr as [Hd _]. now split.
Qed.

Lemma frac_head fr u :
  (fr = [] \/ exists fd, fr = ch_dot :: fd /\ digits_ok fd) ->
  head_is is_digit u = false -> head_is is_digit (fr ++ u) = false.
Proof. intros [->|(fd & -> & _)] Hu; [exact Hu|reflexivity]. Qed.

Lemma match_number_exact t rest :
  number_shape t -> head_is is_num_char rest = false ->
  match_number (t ++ rest) = Some (t, rest).
Proof.
  intros (sg & ds & fr & ex & -> & Hsg & Hds & Hfr & Hex) Hr.
  destruct (exp_heads ex rest Hex Hr) as [Hu1 Hu2].
  pose proof (frac_part_exact fr (ex ++ rest) Hfr Hu1 Hu2) as Hf.
  pose proof (exp_part_exact ex rest Hex Hr) as He.
  assert (Hs : span is_digit (ds ++ fr ++ ex ++ rest) = (ds, fr ++ ex ++ rest))
    by (apply span_all_app; [apply Hds|now apply frac_head]).
  destruct Hds as [Hne Hdig]. destruct ds as [|d ds']; [congruence|].
  assert (Hd : (d =c ch_minus) = false).
  { simpl in Hdig. apply andb_true_iff in Hdig as [Hd _].
    destruct (Ascii.eqb_spec d ch_minus) as [->|]; [discriminate|reflexivity]. }
  unfold match_number. rewrite <- !app_assoc.
  destruct Hsg as [-> | ->]; cbn [app] in *.
  - rewrite Hd, Hs, Hf, He. reflexivity.
  - change (ch_minus =c ch_minus) with true. cbv iota beta.
    rewrite Hs, Hf, He. reflexivity.
Qed.

Lemma shape_nonempty t : number_shape t -> t <> [].
Proof.
  intros (sg & ds & fr & ex & -> & _ & [Hne _] & _).
  destruct sg; [destruct ds; [congruence|discriminate]|discriminate].
Qed.

Lemma num_head_no_alt p c r :
  is_num_char c = true -> string_alt (c :: r) = None /\ match_literal p (c :: r) = None.
Proof.
  intros Hc. split.
  - unfold string_alt. destruct (Ascii.eqb_spec c ch_quote) as [->|]; [discriminate|reflexivity].
  - unfold match_literal. destruct (is_word_opt p); [reflexivity|].
    cbn [literals first_literal strip_prefix str list_ascii_of_string].
    destruct (Ascii.eqb_spec "t"%char c) as [<-|_]; [discriminate|].
    destruct (Ascii.eqb_spec "f"%char c) as [<-|_]; [discriminate|].
    destruct (Ascii.eqb_spec "n"%char c) as [<-|_]; [discriminate|reflexivity].
Qed.

Lemma exec_at_number p t rest :
  number_shape t -> head_is is_num_char rest = false ->
  exec_at p (t ++ rest) = Some (t, rest).
Proof.
  intros Ht Hr. pose proof (shape_num_chars t Ht) as Hc.
  destruct t as [|c t']; [now apply shape_nonempty in Ht|].
  simpl in Hc. apply andb_true_iff in Hc as [Hc _].
  destruct (num_head_no_alt p c (t' ++ rest) Hc) as [H1 H2].
  unfold exec_at, match_string. simpl app. rewrite H1, H2.
  apply (match_number_exact (c :: t') rest); assumption.
Qed.

Lemma hl_ok_number {NF : NumberFormat} q :
  hl_ok (number_to_string q) (span_token KNumber (number_to_string q)).
Proof.
  intros p rest Hp Hf.
  pose proof (number_to_string_shape q) as Ht.
  pose proof (shape_num_chars _ Ht) as Hc.
  unfold span_token. rewrite (escape_html_num _ Hc). apply scan_token.
  - apply exec_at_number; [exact Ht|apply follow_head, Hf].
  - apply class_of_number, Hc.
  - exact Hf.
  - now apply shape_nonempty.
Qed.

(** ** Arrays and objects *)

Lemma escape_indent n : escape_html (indent n) = indent n.
Proof.
  unfold indent. induction (4 * n) as [|m IH]; [reflexivity|].
  simpl repeat. rewrite escape_html_cons, IH. reflexivity.
Qed.

Lemma inert_indent n : forallb inert (indent n) = true.
Proof. unfold indent. induction (4 * n) as [|m IH]; [reflexivity|exact IH]. Qed.

Lemma escape_join sep items :
  escape_html sep = sep ->
  escape_html (join sep items) = join sep (map escape_html items).
Proof.
  intros Hs. induction items as [|x [|y ys] IH]; [reflexivity|reflexivity|].
  change (join sep (x :: y :: ys)) with (x ++ sep ++ join sep (y :: ys)).
  rewrite !escape_html_app, Hs, IH. reflexivity.
Qed.

Definition brackets (op cl : ascii) : Prop :=
  (op = "["%char /\ cl = "]"%char) \/ (op = "{"%char /\ cl = "}"%char).

Definition sep_of (d : nat) : text := ch_comma :: ch_nl :: indent (S d).

Lemma escape_sep d : escape_html (sep_of d) = sep_of d.
Proof.
  unfold sep_of. rewrite !escape_html_cons, escape_indent. reflexivity.
Qed.

Lemma inert_sep d : forallb inert (sep_of d) = true.
Proof. exact (inert_indent (S d)). Qed.

Lemma escape_layout op cl d items :
  brackets op cl ->
  escape_html (layout op cl d items) = layout op cl d (map escape_html items).
Proof.
  intros Hb. destruct Hb as [[-> ->]|[-> ->]]; destruct items as [|x xs]; try reflexivity;
    unfold layout; cbv beta iota;
    repeat (rewrite escape_html_cons || rewrite escape_html_app || rewrite escape_indent);
    rewrite escape_join by apply (escape_sep d); reflexivity.
Qed.

Lemma hl_join d xs hs :
  Forall2 hl_ok xs hs -> xs <> [] ->
  forall p rest, is_word_opt p = false -> follow_ok rest ->
    scan p (join (sep_of d) (map escape_html xs) ++ rest) = join (sep_of d) hs ++ scan None rest.
Proof.
  induction 1 as [|x h xs hs Hxh Hall IH]; [congruence|]. intros _ p rest Hp Hf.
  destruct Hall as [|x' h' xs' hs' Hx' Hall'].
  - exact (Hxh p rest Hp Hf).
  - change (join (sep_of d) (map escape_html (x :: x' :: xs')))
      with (escape_html x ++ sep_of d ++ join (sep_of d) (map escape_html (x' :: xs'))).
    change (join (sep_of d) (h :: h' :: hs')) with (h ++ sep_of d ++ join (sep_of d) (h' :: hs')).
    rewrite <- !app_assoc, Hxh; auto.
    + destruct (scan_inert_app None (sep_of d) (join (sep_of d) (map escape_html (x' :: xs')) ++ rest))
        as [q [Hq ->]]; [reflexivity|apply inert_sep|].
      rewrite IH by (auto; discriminate). now rewrite !app_assoc.
    + right; left. eexists. reflexivity.
Qed.

Lemma hl_layout op cl d xs hs :
  brackets op cl -> Forall2 hl_ok xs hs -> hl_ok (layout op cl d xs) (layout op cl d hs).
Proof.
  intros Hb Hall p rest Hp Hf. rewrite escape_layout by exact Hb.
  assert (Hin : inert op = true /\ inert cl = true)
    by (destruct Hb as [[-> ->]|[-> ->]]; split; reflexivity).
  destruct Hin as [Hop Hcl].
  destruct Hall as [|x h xs hs Hxh Hall'].
  - cbn [map layout app]. rewrite (scan_inert p op), (scan_inert _ cl) by assumption.
    rewrite scan_follow by exact Hf. reflexivity.
  - change (layout op cl d (map escape_html (x :: xs))) with
      (op :: ch_nl :: indent (S d) ++ join (sep_of d) (map escape_html (x :: xs)) ++
       ch_nl :: indent d ++ [cl]).
    change (layout op cl d (h :: hs)) with
      (op :: ch_nl :: indent (S d) ++ join (sep_of d) (h :: hs) ++ ch_nl :: indent d ++ [cl]).
    app_right.
    rewrite (scan_inert p op), (scan_inert _ ch_nl) by (assumption || reflexivity).
    destruct (scan_inert_app (Some ch_nl) (indent (S d))
                (join (sep_of d) (map escape_html (x :: xs)) ++ ch_nl :: indent d ++ cl :: rest))
      as [q [Hq ->]]; [reflexivity|apply inert_indent|].
    rewrite (hl_join d (x :: xs) (h :: hs)); auto; [|discriminate|].
    + rewrite (scan_inert None ch_nl) by reflexivity.
      destruct (scan_inert_app (Some ch_nl) (indent d) (cl :: rest)) as [q' [_ ->]];
        [reflexivity|apply inert_indent|].
      rewrite (scan_inert q' cl), scan_follow by assumption. reflexivity.
    + right; right. exists (4 * d), cl, rest. split; [reflexivity|].
      destruct Hb as [[-> ->]|[-> ->]]; auto.
Qed.

(** ** Every value *)

Section Values.
Context {NF : NumberFormat}.

(** The two serializations agree on whether a value is [undefined], and
    where they are defined the plain text is highlighted as the wrapped
    one. *)
Definition hl_rel (a b : option text) : Prop :=
  match a, b with
  | Some x, Some h => hl_ok x h
  | None, None => True
  | _, _ => False
  end.

Lemma hl_rel_item a b :
  hl_rel a b ->
  hl_ok (match a with Some t => t | None => str "null" end)
        (match b with Some t => t | None => span_token KNull (str "null") end).
Proof. destruct a, b; simpl; try contradiction; auto using hl_ok_null. Qed.

Lemma hl_rel_member k a b :
  hl_rel a b ->
  Forall2 hl_ok
    (match a with Some t => [(quote_json k ++ [ch_colon]) ++ ch_space :: t] | None => [] end)
    (match b with Some t => [span_token KKey (quote_json k ++ [ch_colon]) ++ ch_space :: t]
             | None => [] end).
Proof.
  destruct a, b; simpl; try contradiction; auto.
  constructor; [now apply hl_ok_member|constructor].
Qed.

Lemma serialize_hl v :
  forall d, hl_rel (serialize (fun _ t => t) d v) (serialize span_token d v).
Proof.
  induction v as [| | b | [|neg|q] | s | l IH | ps IH] using jsval_ind'; intros d; simpl.
  - exact I.
  - apply hl_ok_null.
  - apply hl_ok_bool.
  - apply hl_ok_null.
  - apply hl_ok_null.
  - apply hl_ok_number.
  - apply hl_ok_string.
  - apply hl_layout; [now left|].
    induction IH as [|x l Hx _ IHl]; simpl; constructor; auto.
    apply hl_rel_item, Hx.
  - apply hl_layout; [now right|].
    induction IH as [|[k x] ps Hx _ IHps]; simpl; [constructor|].
    apply Forall2_app; auto. apply hl_rel_member, Hx.
Qed.

(** C1: [highlight] meets its description: on every value it returns
    the pretty-printed serialization in which every token (key with its
    colon, string, number, boolean, null) is HTML-escaped and wrapped in
    a span whose class names its kind, the structural characters being
    left as they are; and it throws a [TypeError] exactly when
    [JSON.stringify] returns [undefined]. *)
Theorem highlight_refines v :
  highlight v =
  match serialize span_token 0 v with
  | Some h => Returns h
  | None => Throws TypeError
  end.
Proof.
  unfold highlight, JSON_stringify. pose proof (serialize_hl v 0) as H.
  destruct (serialize (fun _ t => t) 0 v) as [x|], (serialize span_token 0 v) as [h|];
    simpl in H; try contradiction; [|reflexivity].
  unfold syntaxHighlight. rewrite <- (app_nil_r (escape_html x)).
  rewrite H by (reflexivity || now left). now rewrite scan_nil, app_nil_r.
Qed.

End Values.

End HighlightJson.
