(* ===== verification/HighlightRoundtrip.v ===== *)
(** * The highlighter's output reads back as the value (spec section 8)

    Composition of the highlighter ([Highlight]) with the serializer
    and the parser ([JsonStringify], [JsonParse]): removing the span
    tags from the output of [highlight], decoding the HTML entities and
    handing the text to [JSON.parse] gives back the value that was
    highlighted, as [JSON.stringify] keeps it. *)
From Stdlib Require Import Ascii String List Bool Arith ZArith QArith Lia.
Import ListNotations.
From S2P Require Import Spec2Rocq JsValue JsonStringify JsonParse Highlight.

Module HighlightRoundtrip.
Import JsValue JsonStringify JsonParse JsonParseFacts Highlight HighlightFacts.

(** [highlight] of a value that serializes is [syntaxHighlight] of the
    serialization. *)
Lemma highlight_Returns {NF : NumberFormat} v h :
  highlight v = Returns h -> exists t, JSON_stringify v = Some t /\ h = syntaxHighlight t.
Proof. unfold highlight. destruct (JSON_stringify v) as [t|]; intros H; inv H; eauto. Qed.

(** What the specification's reader does with the output (spec
    section 8): strip the tags, decode the entities, run [JSON.parse]. *)
Definition reparse (h : text) : completion jsval :=
  JSON_parse (unescape_html (strip_tags h)).

(** The object of the specification's example. *)
Definition spec_example : jsval :=
  JObject [(str "a", JNumber (of_Z 1)); (str "b", JString (str "x<y"));
           (str "c", JNull); (str "d", JBool true)].

(** Reparsing the highlighted serialization of a value with ordinary
    objects, whose numbers the format prints so that they read back,
    gives the value as [JSON.stringify] keeps it. *)
Lemma reparse_syntaxHighlight {NF : NumberFormat} v t :
  JSON_stringify v = Some t -> objects_wf v = true ->
  (forall q, In q (numbers v) -> number_roundtrips q) ->
  reparse (syntaxHighlight t) = Returns (json_norm v).
Proof.
  intros Hs Hw Hn. unfold reparse, syntaxHighlight.
  rewrite strip_tags_scan by apply escape_html_no_angle.
  rewrite unescape_escape. exact (JSON_parse_stringify_gen v t Hs Hw Hn).
Qed.

(** C19: Reparsing the highlighter's output, after stripping the tags and
    decoding the entities, gives back the highlighted value as
    [JSON.stringify] keeps it, for every value with ordinary objects and
    integral numbers. *)
Theorem highlight_reparse v h :
  @highlight IntegerNumberFormat v = Returns h ->
  objects_wf v = true ->
  forallb (fun q => is_integer (Finite q)) (numbers v) = true ->
  reparse h = Returns (json_norm v).
Proof.
  intros Hh Hw Hi. apply highlight_Returns in Hh as (t & Hs & ->).
  apply (reparse_syntaxHighlight v t Hs Hw). intros q Hq.
  apply int_number_roundtrips. rewrite forallb_forall in Hi. exact (Hi q Hq).
Qed.

Lemma highlight_reparse_witness :
  let h := match @highlight IntegerNumberFormat spec_example with Returns h => h | Throws _ => [] end in
  @highlight IntegerNumberFormat spec_example = Returns h /\
  objects_wf spec_example = true /\
  forallb (fun q => is_integer (Finite q)) (numbers spec_example) = true /\
  reparse h = Returns (json_norm spec_example).
Proof.
  intros h.
  assert (Hh : @highlight IntegerNumberFormat spec_example = Returns h) by (vm_compute; reflexivity).
  assert (Hw : objects_wf spec_example = true) by (vm_compute; reflexivity).
  assert (Hi : forallb (fun q => is_integer (Finite q)) (numbers spec_example) = true) by (vm_compute; reflexivity).
  exact (conj Hh (conj Hw (conj Hi (highlight_reparse spec_example h Hh Hw Hi)))).
Defined.

End HighlightRoundtrip.
