(* ===== verification/HighlightSpans.v ===== *)
(** * The spans of the highlighter's output are the value's tokens (spec section 8)

    The specification checks the highlighter by the spans its output
    contains: one span per token, with the class of its kind, and no
    other span (none at all for [[]] and [{}]).  This file reads the
    markup back with a parser of [piece] sequences ([parse_markup]).
    It proves that the parser recovers every well-formed piece
    sequence.  It then proves that the spans of [highlight]'s output
    are, in order, the tokens of the value, each escaped and classed
    by its kind. *)
From Stdlib Require Import Ascii String List Bool Arith Lia.
Import ListNotations.
From S2P Require Import Spec2Rocq JsValue JsonStringify TokenRegex Highlight HighlightJson HighlightRoundtrip.

Module HighlightSpans.
Import JsValue JsonStringify TokenRegex Highlight HighlightFacts HighlightJson.

(** ** The tokens of a value

    The lexical tokens of the serialization, in order: a key with its
    colon for each member whose value serializes, the primitive values,
    and [null] for an array element that does not serialize. *)
Section Tokens.
Context {NF : NumberFormat}.

Fixpoint tokens (v : jsval) : option (list (token_kind * text)) :=
  match v with
  | JUndefined => None
  | JNull => Some [(KNull, str "null")]
  | JBool b => Some [(KBoolean, if b then str "true" else str "false")]
  | JNumber (Finite q) => Some [(KNumber, number_to_string q)]
  | JNumber _ => Some [(KNull, str "null")]
  | JString s => Some [(KString, quote_json s)]
  | JArray l =>
      Some (flat_map (fun x => match tokens x with
                               | Some ts => ts
                               | None => [(KNull, str "null")]
                               end) l)
  | JObject ps =>
      Some (flat_map (fun kv => match tokens (snd kv) with
                                | Some ts => (KKey, quote_json (fst kv) ++ [ch_colon]) :: ts
                                | None => []
                                end) ps)
  end.

End Tokens.

(** The span the specification expects for a token. *)
Definition token_span (kt : token_kind * text) : text * text :=
  (kind_class (fst kt), escape_html (snd kt)).

(** ** Reading the markup back *)

(** The text up to the first [c], and the text after it. *)
Fixpoint read_until (c : ascii) (s : text) : option (text * text) :=
  match s with
  | [] => None
  | x :: r =>
      if x =c c then Some ([], r)
      else match read_until c r with
           | Some (a, b) => Some (x :: a, b)
           | None => None
           end
  end.

Definition span_open : text := str "<span class=" ++ [ch_quote].

(** A character other than [<] is plain text; at [<] a span must
    start, with its class up to the next quote and its body up to the
    closing tag. *)
Fixpoint parse_markup (fuel : nat) (h : text) : option (list piece) :=
  match fuel with
  | 0 => None
  | S f =>
      match h with
      | [] => Some []
      | c :: r =>
          if c =c ch_lt then
            match strip_prefix span_open h with
            | None => None
            | Some r1 =>
                match read_until ch_quote r1 with
                | None => None
                | Some (cls, r2) =>
                    match strip_prefix (str ">") r2 with
                    | None => None
                    | Some r3 =>
                        match read_until ch_lt r3 with
                        | None => None
                        | Some (body, r4) =>
                            match strip_prefix (str "/span>") r4 with
                            | None => None
                            | Some r5 =>
                                match parse_markup f r5 with
                                | Some ps => Some (Span cls body :: ps)
                                | None => None
                                end
                            end
                        end
                    end
                end
            end
          else match parse_markup f r with
               | Some ps => Some (Plain c :: ps)
               | None => None
               end
      end
  end.

Definition spans (ps : list piece) : list (text * text) :=
  flat_map (fun p => match p with Plain _ => [] | Span cls body => [(cls, body)] end) ps.

(** The spans of an output text, as a reader of the markup finds them. *)
Definition output_spans (h : text) : option (list (text * text)) :=
  match parse_markup (S (length h)) h with
  | Some ps => Some (spans ps)
  | None => None
  end.

(** ** Reading back what is rendered *)

Definition no_char (c : ascii) (s : text) : bool := forallb (fun a => negb (a =c c)) s.

Lemma read_until_app c x r : no_char c x = true -> read_until c (x ++ c :: r) = Some (x, r).
Proof.
  induction x as [|a x IH]; simpl; intros H; [now rewrite Ascii.eqb_refl|].
  apply andb_true_iff in H as [Ha H]. apply negb_true_iff in Ha. now rewrite Ha, IH.
Qed.

Lemma no_angle_no_lt s : no_angle s = true -> no_char ch_lt s = true.
Proof.
  unfold no_angle, no_char. rewrite !forallb_forall. intros H a Ha.
  apply H in Ha. now apply andb_true_iff in Ha as [Ha _].
Qed.

Lemma span_class_no_quote cls :
  existsb (fun k => if list_eq_dec ascii_dec k cls then true else false) span_classes = true ->
  no_char ch_quote cls = true.
Proof.
  unfold span_classes. cbn [existsb]. intros H.
  repeat (destruct (list_eq_dec ascii_dec _ cls) as [<-|_]; [reflexivity|]). discriminate.
Qed.

Lemma wrap_span_eq cls body rest :
  wrap_span cls body ++ rest =
  ch_lt :: (str "span class=" ++ [ch_quote]) ++ cls ++ ch_quote :: str ">" ++ body ++
  ch_lt :: str "/span>" ++ rest.
Proof. unfold wrap_span. now rewrite <- !app_assoc. Qed.

Lemma parse_markup_span f cls body rest :
  no_char ch_quote cls = true -> no_char ch_lt body = true ->
  parse_markup (S f) (wrap_span cls body ++ rest) =
  match parse_markup f rest with Some ps => Some (Span cls body :: ps) | None => None end.
Proof.
  intros Hc Hb. rewrite wrap_span_eq. cbn [parse_markup]. rewrite Ascii.eqb_refl.
  change (ch_lt :: _ ++ ?y) with (span_open ++ y). rewrite strip_prefix_app, read_until_app by exact Hc.
  change (str ">" ++ ?y) with (str ">" ++ y). rewrite strip_prefix_app, read_until_app by exact Hb.
  now rewrite strip_prefix_app.
Qed.

(** The parser recovers every sequence of well-formed pieces. *)
Lemma parse_render ps fuel :
  forallb piece_ok ps = true -> length (flat_map render ps) < fuel ->
  parse_markup fuel (flat_map render ps) = Some ps.
Proof.
  revert fuel. induction ps as [|[c|cls body] ps IH]; intros fuel Hok Hl;
    (destruct fuel as [|f]; [simpl in Hl; lia|]); [reflexivity| |].
  - cbn [forallb piece_ok] in Hok. apply andb_true_iff in Hok as [Hc Hok].
    cbn [flat_map render app parse_markup]. cbn in Hc.
    destruct (Ascii.eqb_spec c ch_lt) as [->|_]; [discriminate|].
    rewrite IH by (exact Hok || (simpl in Hl; lia)). reflexivity.
  - cbn [forallb piece_ok] in Hok. apply andb_true_iff in Hok as [Hs Hok].
    apply andb_true_iff in Hs as [[Hc Hb]%andb_true_iff _].
    cbn [flat_map render]. rewrite parse_markup_span by auto using span_class_no_quote, no_angle_no_lt.
    rewrite IH; [reflexivity|exact Hok|]. cbn [flat_map render] in Hl. rewrite length_app in Hl.
    assert (0 < length (wrap_span cls body)) by (rewrite <- (app_nil_r (wrap_span cls body)), wrap_span_eq; simpl; lia).
    lia.
Qed.

(** ** The serializer with spans produces well-formed markup *)

(** [t] is well-formed markup whose spans are [sp]. *)
Definition marked (t : text) (sp : list (text * text)) : Prop :=
  exists ps, t = flat_map render ps /\ forallb piece_ok ps = true /\ spans ps = sp.

Lemma marked_app a b s1 s2 : marked a s1 -> marked b s2 -> marked (a ++ b) (s1 ++ s2).
Proof.
  intros (p1 & -> & O1 & S1) (p2 & -> & O2 & S2). exists (p1 ++ p2).
  unfold spans in *. rewrite !flat_map_app, forallb_app, O1, O2, S1, S2. auto.
Qed.

Lemma marked_plain t : no_angle t = true -> marked t [].
Proof.
  intros H. exists (map Plain t). induction t as [|c t IH]; [auto|].
  cbn [no_angle forallb] in H. apply andb_true_iff in H as [Hc H].
  destruct (IH H) as (E & O & Sp). cbn [map flat_map render forallb piece_ok spans].
  rewrite <- E. split; [reflexivity|]. split; [|exact Sp]. cbn. now rewrite Hc, O.
Qed.

Lemma escape_html_nonempty t : t <> [] -> escape_html t <> [].
Proof.
  destruct t as [|c t]; [congruence|]. intros _. rewrite escape_html_cons. unfold esc_char.
  destruct (c =c ch_amp), (c =c ch_lt), (c =c ch_gt); discriminate.
Qed.

Lemma marked_token k t : t <> [] -> marked (span_token k t) [token_span (k, t)].
Proof.
  intros Ht. exists [Span (kind_class k) (escape_html t)]. cbn [flat_map render spans].
  rewrite !app_nil_r. split; [reflexivity|]. split; [|reflexivity].
  cbn [forallb piece_ok]. rewrite escape_html_no_angle.
  destruct (escape_html t) eqn:E; [now apply escape_html_nonempty in Ht|].
  destruct k; reflexivity.
Qed.

Lemma no_angle_indent n : no_angle (indent n) = true.
Proof. unfold indent. induction (4 * n); simpl; auto. Qed.

Lemma marked_join sep items sps :
  no_angle sep = true -> Forall2 marked items sps -> marked (join sep items) (concat sps).
Proof.
  intros Hs H. induction H as [|x y l l' Hxy Hl IH]; [exists []; auto|].
  destruct l as [|x' l].
  - inversion Hl; subst. cbn [join concat]. now rewrite app_nil_r.
  - change (join sep (x :: x' :: l)) with (x ++ sep ++ join sep (x' :: l)).
    change (concat (y :: l')) with (y ++ [] ++ concat l').
    apply marked_app; [exact Hxy|apply marked_app; [apply marked_plain, Hs|exact IH]].
Qed.

Lemma marked_layout op cl d items sp :
  brackets op cl -> (exists sps, Forall2 marked items sps /\ concat sps = sp) ->
  marked (layout op cl d items) sp.
Proof.
  intros Hb (sps & H & <-).
  assert (Ho : no_angle [op] = true /\ no_angle [cl] = true)
    by (destruct Hb as [[-> ->]|[-> ->]]; split; reflexivity).
  destruct Ho as [Ho Hc]. destruct H as [|x y l l' Hxy Hl].
  - apply marked_plain. cbn [layout]. change [op; cl] with ([op] ++ [cl]).
    now rewrite no_angle_app, Ho, Hc.
  - cbn [layout]. change (op :: ch_nl :: indent (S d) ++ ?j ++ ?e) with ((op :: ch_nl :: indent (S d)) ++ j ++ e).
    rewrite <- (app_nil_r (concat (y :: l'))).
    change (concat (y :: l') ++ []) with ([] ++ concat (y :: l') ++ []).
    apply marked_app; [apply marked_plain|apply marked_app; [apply marked_join; [|constructor; auto]|apply marked_plain]].
    + change (op :: ch_nl :: ?r) with ([op] ++ [ch_nl] ++ r).
      rewrite !no_angle_app, Ho, no_angle_indent. reflexivity.
    + change (ch_comma :: ch_nl :: ?r) with ([ch_comma; ch_nl] ++ r).
      rewrite no_angle_app, no_angle_indent. reflexivity.
    + change (ch_nl :: ?r) with ([ch_nl] ++ r). rewrite !no_angle_app, no_angle_indent, Hc. reflexivity.
Qed.

Lemma number_text_nonempty {NF : NumberFormat} q : number_to_string q <> [].
Proof.
  destruct (number_to_string_shape q) as (sg & ds & fr & ex & -> & _ & [Hd _] & _).
  intros E. apply app_eq_nil in E as [_ E]. apply app_eq_nil in E as [E _]. exact (Hd E).
Qed.

(** The serializer with spans and [tokens] agree: both are undefined
    on the same values, and otherwise the text is markup whose spans
    are the tokens. *)
Definition marked_rel (h : option text) (ts : option (list (token_kind * text))) : Prop :=
  match h, ts with
  | Some h, Some ts => marked h (map token_span ts)
  | None, None => True
  | _, _ => False
  end.

Lemma marked_rel_item h ts :
  marked_rel h ts ->
  marked (match h with Some t => t | None => span_token KNull (str "null") end)
         (map token_span (match ts with Some ts => ts | None => [(KNull, str "null")] end)).
Proof.
  destruct h, ts; simpl; try contradiction; auto.
  intros _. apply marked_token. discriminate.
Qed.

Lemma serialize_marked {NF : NumberFormat} v :
  forall d, marked_rel (serialize span_token d v) (tokens v).
Proof.
  induction v as [| | b | [|neg|q] | s | l IH | ps IH] using jsval_ind'; intros d;
    cbn [serialize tokens marked_rel]; try exact I;
    try (apply marked_token; first [discriminate | apply number_text_nonempty]).
  - destruct b; apply marked_token; discriminate.
  - apply marked_layout; [now left|]. induction IH as [|x l Hx _ [sps [Hs Hc]]].
    + exists []. split; constructor.
    + eexists. split; [constructor; [apply marked_rel_item, Hx|exact Hs]|].
      cbn [concat flat_map]. now rewrite Hc, map_app.
  - apply marked_layout; [now right|]. induction IH as [|[k x] ps Hx _ [sps [Hs Hc]]].
    + exists []. split; constructor.
    + specialize (Hx (S d)). cbn [snd fst flat_map] in *.
      destruct (serialize span_token (S d) x) as [t|], (tokens x) as [ts|];
        cbn [marked_rel] in Hx; try contradiction; [|exists sps; auto].
      exists (map token_span ((KKey, quote_json k ++ [ch_colon]) :: ts) :: sps).
      split; [constructor; [|exact Hs]|cbn [concat]; now rewrite Hc, map_app].
      cbn [map]. change (?a :: map token_span ts) with ([a] ++ [] ++ map token_span ts).
      apply marked_app; [apply marked_token; unfold quote_json; discriminate|].
      change (ch_space :: t) with ([ch_space] ++ t).
      apply marked_app; [apply marked_plain; reflexivity|exact Hx].
Qed.

(** [highlight] returns the serialization with spans. *)
Lemma highlight_serialize {NF : NumberFormat} v h :
  highlight v = Returns h -> serialize span_token 0 v = Some h.
Proof.
  unfold highlight, JSON_stringify. pose proof (serialize_hl v 0) as H.
  destruct (serialize (fun _ t => t) 0 v) as [x|], (serialize span_token 0 v) as [h'|];
    simpl in H; try contradiction; intros E; inversion E; subst.
  unfold syntaxHighlight. rewrite <- (app_nil_r (escape_html x)).
  rewrite H by (reflexivity || now left). now rewrite scan_nil, app_nil_r.
Qed.

(** C23: The spans of [highlight]'s output are the value's tokens: a
    reader of the markup finds, in order, one span per token of the
    serialization (each key with its colon, each string, number,
    boolean and null, and [null] for an array element that does not
    serialize), classed by the token's kind and holding its escaped
    text, and no other span; for [[]] and [{}] there is none. *)
Theorem highlight_spans {NF : NumberFormat} v h :
  highlight v = Returns h ->
  exists ts, tokens v = Some ts /\ output_spans h = Some (map token_span ts).
Proof.
  intros H. apply highlight_serialize in H. pose proof (serialize_marked v 0) as M.
  rewrite H in M. destruct (tokens v) as [ts|]; [|contradiction].
  exists ts. split; [reflexivity|]. destruct M as (ps & -> & Hok & Hsp).
  unfold output_spans. rewrite parse_render by (auto; lia). now rewrite Hsp.
Qed.

(** The example of the specification: four keys, and one span each of
    the classes number, string (with [<] escaped), null and boolean. *)
Lemma highlight_spans_witness :
  let h := match @highlight IntegerNumberFormat HighlightRoundtrip.spec_example with
           | Returns h => h | Throws _ => [] end in
  @highlight IntegerNumberFormat HighlightRoundtrip.spec_example = Returns h /\
  output_spans h =
    Some [(str "key", [ch_quote] ++ str "a" ++ [ch_quote; ch_colon]); (str "number", str "1");
          (str "key", [ch_quote] ++ str "b" ++ [ch_quote; ch_colon]);
          (str "string", [ch_quote] ++ str "x&lt;y" ++ [ch_quote]);
          (str "key", [ch_quote] ++ str "c" ++ [ch_quote; ch_colon]); (str "null", str "null");
          (str "key", [ch_quote] ++ str "d" ++ [ch_quote; ch_colon]); (str "boolean", str "true")] /\
  exists ts, @tokens IntegerNumberFormat HighlightRoundtrip.spec_example = Some ts /\
             output_spans h = Some (map token_span ts).
Proof.
  intros h.
  assert (Hh : @highlight IntegerNumberFormat HighlightRoundtrip.spec_example = Returns h)
    by (vm_compute; reflexivity).
  refine (conj Hh (conj _ (highlight_spans HighlightRoundtrip.spec_example h Hh))).
  vm_compute. reflexivity.
Defined.

End HighlightSpans.
