(* ===== verification/KioskDisplay.v ===== *)
(** * Showing a validated kiosk with the highlighter

    The schemas and the highlighter meet where the application shows a
    kiosk configuration: the validated kiosk, encoded as the plain
    object it stands for, goes through [highlight]
    (utils/highlight.ts), and a reader takes the text back from the
    markup (strip the tags, decode the entities, [JSON.parse]).  An
    encoding is "shown back" when JSON.stringify drops and rewrites
    nothing of it, its objects are ordinary and its numbers are
    integers.  That property holds for numbers, strings, booleans and
    [null], and it carries over to arrays and objects of shown-back
    values.  Each encoder of types/media.ts and types/kiosk.ts thus
    gives shown-back values.  The theorem shows that what the
    highlighter shows of a validated kiosk reads back to the same kiosk. *)
From Stdlib Require Import Ascii String List Bool ZArith QArith Lia.
From Stdlib Require Qcanon.
Import ListNotations.
From S2P Require Import Spec2Rocq JsValue JsonStringify JsonParse Highlight HighlightRoundtrip Zod Media Kiosk.

Module KioskDisplay.
Import JsValue JsonStringify JsonParse JsonParseFacts Highlight HighlightRoundtrip Zod ZodFacts
  Media Message Conversation Kiosk KioskFacts.

(** [JSON.stringify] keeps [v] as it is, its objects are ordinary and
    its numbers are integers. *)
Definition shown_back (v : jsval) : Prop :=
  v <> JUndefined /\ json_norm v = v /\ objects_wf v = true /\
  Forall (fun q => is_integer (Finite q) = true) (numbers v).

(** ** Shown-back values *)

Lemma shown_back_int z : shown_back (JNumber (of_Z z)).
Proof.
  split; [discriminate|]. split; [|split; [reflexivity|]].
  - change (json_norm (JNumber (of_Z z))) with (JNumber (Finite (Qred (inject_Z z)))).
    rewrite Qcanon.Qred_identity; [reflexivity|]. cbn. apply Z.gcd_1_r.
  - repeat constructor. cbn. now rewrite Z.mod_1_r.
Qed.

Lemma shown_back_string s : shown_back (JString s).
Proof. repeat split; [discriminate|constructor]. Qed.

Lemma shown_back_bool b : shown_back (JBool b).
Proof. repeat split; [discriminate|constructor]. Qed.

Lemma norm_element x :
  shown_back x -> match x with JUndefined => JNull | _ => json_norm x end = x.
Proof. intros (Hu & Hn & _). destruct x; solve [exact Hn|contradiction]. Qed.

Lemma norm_member (k : text) x :
  shown_back x -> match x with JUndefined => [] | _ => [(k, json_norm x)] end = [(k, x)].
Proof. intros (Hu & Hn & _). destruct x; solve [rewrite Hn; reflexivity|contradiction]. Qed.

Lemma integers_flat_map {A} (f : A -> list Q) l :
  Forall (fun a => Forall (fun q => is_integer (Finite q) = true) (f a)) l ->
  Forall (fun q => is_integer (Finite q) = true) (flat_map f l).
Proof. intros H. induction H; cbn; [constructor|]. now apply Forall_app. Qed.

Lemma shown_back_array l : Forall shown_back l -> shown_back (JArray l).
Proof.
  intros H. split; [discriminate|]. split; [|split].
  - cbn. f_equal. induction H as [|x l Hx _ IH]; [reflexivity|]. cbn. now rewrite norm_element, IH.
  - cbn. apply forallb_forall. intros x Hin. rewrite Forall_forall in H. exact (proj1 (proj2 (proj2 (H x Hin)))).
  - apply integers_flat_map. eapply Forall_impl; [|exact H]. intros x (_ & _ & _ & Hi). exact Hi.
Qed.

Lemma shown_back_object ps :
  keys_ordered (map fst ps) = true -> keys_distinct (map fst ps) = true ->
  Forall (fun kv => shown_back (snd kv)) ps -> shown_back (JObject ps).
Proof.
  intros Ho Hd H. split; [discriminate|]. split; [|split].
  - cbn. f_equal. clear Ho Hd. induction H as [|[k x] ps Hx _ IH]; [reflexivity|].
    cbn [flat_map]. rewrite (norm_member k x Hx), IH. reflexivity.
  - cbn. rewrite Ho, Hd. cbn. apply forallb_forall. intros kv Hin. rewrite Forall_forall in H. exact (proj1 (proj2 (proj2 (H kv Hin)))).
  - apply integers_flat_map. eapply Forall_impl; [|exact H]. intros [k x] (_ & _ & _ & Hi). exact Hi.
Qed.

Lemma shown_back_map {A} (enc : A -> jsval) l :
  (forall a, shown_back (enc a)) -> shown_back (JArray (map enc l)).
Proof. intros H. apply shown_back_array, Forall_map, Forall_forall. auto. Qed.

(** The fields of an encoder's object, one by one. *)
Ltac shown_fields :=
  apply shown_back_object; [reflexivity|reflexivity|];
  repeat (apply Forall_cons;
          [cbn [snd]; first [apply shown_back_int|apply shown_back_string|apply shown_back_bool|idtac]|]);
  try apply Forall_nil.

(** ** The encoders give shown-back values *)

Lemma encode_media_shown m : shown_back (encode_media m).
Proof. shown_fields. Qed.

Lemma encode_message_shown m : shown_back (encode_message m).
Proof. shown_fields. Qed.

Lemma encode_conversation_shown c : shown_back (encode_conversation c).
Proof. shown_fields. apply shown_back_map, encode_message_shown. Qed.

Lemma encode_backend_shown b : shown_back (encode_backend b).
Proof. shown_fields. Qed.

Lemma encode_kiosk_shown k : shown_back (encode_kiosk k).
Proof.
  shown_fields; solve [apply shown_back_map; first [apply encode_media_shown|apply encode_conversation_shown]
                      |apply encode_backend_shown].
Qed.

Module KioskDisplayProps.
Import KioskProps.

(** C32: Showing a validated kiosk with the highlighter loses nothing.
    For every URL parser and every kiosk [KioskSchema] accepts, the
    highlighter returns markup for the kiosk's encoding.  Stripping its
    tags, decoding its entities and running JSON.parse gives that
    encoding back, and validating it gives the same kiosk. *)
Theorem kiosk_display_roundtrip {U : UrlParser} v k :
  KioskSchema v = Ok k ->
  exists h, @highlight IntegerNumberFormat (encode_kiosk k) = Returns h /\
    reparse h = Returns (encode_kiosk k) /\ KioskSchema (encode_kiosk k) = Ok k.
Proof.
  intros H. destruct (encode_kiosk_shown k) as (_ & Hn & Hw & Hi).
  assert (Hs : exists t, @JSON_stringify IntegerNumberFormat (encode_kiosk k) = Some t)
    by (eexists; reflexivity).
  destruct Hs as (t & Hs). exists (syntaxHighlight t).
  split; [unfold highlight; now rewrite Hs|]. split.
  - rewrite <- Hn. apply (reparse_syntaxHighlight _ t Hs Hw). intros q Hq.
    apply int_number_roundtrips. rewrite Forall_forall in Hi. exact (Hi q Hq).
  - exact (@parse_encode Kiosk _ _ k (@parse_valid Kiosk _ _ v k H)).
Qed.

Lemma kiosk_display_roundtrip_witness :
  @KioskSchema scheme_url_parser example_kiosk_payload = Ok example_kiosk /\
  exists h, @highlight IntegerNumberFormat (encode_kiosk example_kiosk) = Returns h /\
    reparse h = Returns (encode_kiosk example_kiosk) /\
    @KioskSchema scheme_url_parser (encode_kiosk example_kiosk) = Ok example_kiosk.
Proof.
  assert (H : @KioskSchema scheme_url_parser example_kiosk_payload = Ok example_kiosk)
    by (vm_compute; reflexivity).
  exact (conj H (kiosk_display_roundtrip _ _ H)).
Defined.

End KioskDisplayProps.

End KioskDisplay.
